(** * AIDebugHelper: the detection engine of [src/utils/patterns.ts]

    A shallow embedding of the pattern tables, the context filter, the
    scan loop, the ranker and the language classifier, together with
    their callers (the health score and the fix of [src/App.tsx], the
    helpers of the results panel), the properties the specification
    states about them, and further properties of the code. *)

From Stdlib Require Import Ascii String DecimalString DecimalNat.
From Stdlib Require Import List Bool Arith ZArith NArith Lia.
From Stdlib Require Import Permutation Sorted.
Import ListNotations.

Set Implicit Arguments.

(* ================================================================== *)
(** * The host language: strings of UTF-16 code units                  *)
(* ================================================================== *)

(** An ECMAScript string is a sequence of 16-bit code units.  Every
    operation the engine uses ([substring], [split], [includes], the
    regular-expression matcher without the [u] flag) works code unit by
    code unit. *)
Definition jsstring := list N.

(** [str] injects a literal of the source into [jsstring]. *)
Definition str (s : string) : jsstring :=
  map Ascii.N_of_ascii (String.list_ascii_of_string s).
Arguments str s%_string.

Definition LF : N := 10.     (* '\n' *)
Definition DQ : N := 34.     (* the double quote *)
Definition SQ : N := 39.     (* the single quote *)

Fixpoint jseqb (a b : jsstring) : bool :=
  match a, b with
  | [], [] => true
  | x :: a', y :: b' => N.eqb x y && jseqb a' b'
  | _, _ => false
  end.

(** [String.prototype.startsWith]. *)
Fixpoint startsWith (s p : jsstring) : bool :=
  match p, s with
  | [], _ => true
  | c :: p', d :: s' => N.eqb c d && startsWith s' p'
  | _ :: _, [] => false
  end.

(** [String.prototype.indexOf], searching from offset 0. *)
Fixpoint indexOf (s p : jsstring) : option nat :=
  if startsWith s p then Some 0
  else match s with
       | [] => None
       | _ :: s' => option_map S (indexOf s' p)
       end.

(** [String.prototype.includes]. *)
Definition includes (s p : jsstring) : bool :=
  match indexOf s p with Some _ => true | None => false end.

(** [String.prototype.substring]: both bounds are clamped to the
    length and swapped when out of order. *)
Definition substring (s : jsstring) (a b : nat) : jsstring :=
  let lo := Nat.min a b in
  let hi := Nat.max a b in
  firstn (hi - lo) (skipn lo s).

(** [s.lastIndexOf(c)] for a one-unit needle; [-1] when absent. *)
Fixpoint lastIndexOf (s : jsstring) (c : N) : Z :=
  match s with
  | [] => (-1)%Z
  | d :: s' =>
      match lastIndexOf s' c with
      | Zneg _ => if N.eqb d c then 0%Z else (-1)%Z
      | r => (r + 1)%Z
      end
  end.

(** [s.split(c)] for a one-unit separator: always at least one piece. *)
Fixpoint split (s : jsstring) (c : N) : list jsstring :=
  match s with
  | [] => [[]]
  | d :: s' =>
      if N.eqb d c then [] :: split s' c
      else match split s' c with
           | [] => [[d]]
           | piece :: rest => (d :: piece) :: rest
           end
  end.

(** [s.replace(p, r)] with a string pattern: the first occurrence only.
    No replacement text of the source contains a dollar sign, so no
    substitution pattern is ever expanded. *)
Definition replace (s p r : jsstring) : jsstring :=
  match indexOf s p with
  | None => s
  | Some i => firstn i s ++ r ++ skipn (i + length p) s
  end.

(** Number of occurrences of one code unit: what
    [(s.match(/c/g) || []).length] computes for a one-unit pattern. *)
Definition countChar (s : jsstring) (c : N) : nat :=
  length (filter (N.eqb c) s).

(** Decimal rendering of a non-negative integer, as string
    concatenation with a number produces it. *)
Definition decimal (n : nat) : jsstring :=
  str (DecimalString.NilZero.string_of_uint (Nat.to_uint n)).

(* ------------------------------------------------------------------ *)
(** ** Character classes                                               *)
(* ------------------------------------------------------------------ *)

Definition inRange (lo hi c : N) : bool := N.leb lo c && N.leb c hi.

Definition isDigit (c : N) : bool := inRange 48 57 c.

(** [\w]: the 63 basic word characters. *)
Definition isWordChar (c : N) : bool :=
  inRange 97 122 c || inRange 65 90 c || isDigit c || N.eqb c 95.

(** The LineTerminator code points. *)
Definition isLineTerminator (c : N) : bool :=
  N.eqb c 10 || N.eqb c 13 || N.eqb c 8232 || N.eqb c 8233.

(** [\s]: WhiteSpace and LineTerminator. *)
Definition isSpace (c : N) : bool :=
  inRange 9 13 c || N.eqb c 32 || N.eqb c 160 || N.eqb c 5760
  || inRange 8192 8202 c || N.eqb c 8232 || N.eqb c 8233
  || N.eqb c 8239 || N.eqb c 8287 || N.eqb c 12288 || N.eqb c 65279.

(** Case folding of the non-Unicode [i] flag, on the basic Latin
    letters (a code unit above 127 never folds onto one below). *)
Definition canonicalize (c : N) : N :=
  if inRange 97 122 c then (c - 32)%N else c.

Inductive cset : Type :=
| CSpace                      (* \s *)
| CWord                       (* \w *)
| CDigit                      (* \d *)
| CDot                        (* .  *)
| COneOf (l : jsstring)       (* [abc] *)
| CRange (lo hi : N)          (* [a-z] *)
| CUnion (a b : cset)
| CNot (a : cset).            (* the complement, as in \S *)

Fixpoint inSet (cs : cset) (c : N) : bool :=
  match cs with
  | CSpace => isSpace c
  | CWord => isWordChar c
  | CDigit => isDigit c
  | CDot => negb (isLineTerminator c)
  | COneOf l => existsb (N.eqb c) l
  | CRange lo hi => inRange lo hi c
  | CUnion a b => inSet a c || inSet b c
  | CNot a => negb (inSet a c)
  end.

(* ------------------------------------------------------------------ *)
(** ** Regular expressions                                             *)
(* ------------------------------------------------------------------ *)

(** The fragment of the pattern language the source uses: literals,
    classes and inverted classes, sequence, ordered alternation, the
    greedy star, look-ahead and look-behind assertions, [\b], [^] and
    [$]. *)
Inductive regex : Type :=
| Eps
| Chr (c : N)
| Cls (cs : cset)             (* a class, or a class escape *)
| NotCls (cs : cset)          (* an inverted class [^...] *)
| Seq (a b : regex)
| Alt (a b : regex)
| Star (a : regex)
| Ahead (positive : bool) (a : regex)
| Behind (positive : bool) (a : regex)
| WordB
| Bol
| Eol.

Section Matcher.

Variable s : jsstring.
Variables ignoreCase multiline : bool.

Definition unitAt (i : nat) : option N := nth_error s i.

Definition eqUnit (c d : N) : bool :=
  if ignoreCase then N.eqb (canonicalize c) (canonicalize d) else N.eqb c d.

(** Membership of a unit in a class.  Under the [i] flag a unit is in
    the class when some member of the class folds onto what the unit
    folds onto: the unit itself or, for a basic Latin letter, the same
    letter in the other case. *)
Definition classUnit (cs : cset) (d : N) : bool :=
  if ignoreCase
  then inSet cs d || inSet cs (canonicalize d)
       || (inRange 65 90 d && inSet cs (d + 32)%N)
  else inSet cs d.

Definition wordAt (i : nat) : bool :=
  match unitAt i with Some c => isWordChar c | None => false end.

Definition wordBefore (i : nat) : bool :=
  match i with O => false | S j => wordAt j end.

Definition atLineStart (i : nat) : bool :=
  match i with
  | O => true
  | S j => multiline &&
           match unitAt j with Some c => isLineTerminator c | None => false end
  end.

Definition atLineEnd (i : nat) : bool :=
  match unitAt i with
  | None => Nat.eqb i (length s)
  | Some c => multiline && isLineTerminator c
  end.

(** The greedy star over a matcher [ma] for its body: at most [n]
    further iterations from offset [i], then the continuation.  An
    iteration that consumes nothing is rejected. *)
Fixpoint starLoop (ma : nat -> (nat -> option nat) -> option nat)
         (k : nat -> option nat) (n : nat) (i : nat) {struct n} : option nat :=
  match n with
  | O => k i
  | S n' =>
      match ma i (fun j => if Nat.ltb i j then starLoop ma k n' j else None) with
      | Some e => Some e
      | None => k i
      end
  end.

(** The backtracking matcher in continuation-passing style.  [mtch r
    i k] tries the ways [r] can match at offset [i] in priority order
    (left alternative first, longest repetition first) and hands each
    end offset to [k] until [k] accepts.  A star at offset [i]
    iterates at most [length s - i] times, since every iteration
    consumes at least one unit. *)
Fixpoint mtch (r : regex) (i : nat) (k : nat -> option nat) {struct r}
  : option nat :=
  match r with
  | Eps => k i
  | Chr c =>
      match unitAt i with
      | Some d => if eqUnit c d then k (S i) else None
      | None => None
      end
  | Cls cs =>
      match unitAt i with
      | Some d => if classUnit cs d then k (S i) else None
      | None => None
      end
  | NotCls cs =>
      match unitAt i with
      | Some d => if classUnit cs d then None else k (S i)
      | None => None
      end
  | Seq a b => mtch a i (fun j => mtch b j k)
  | Alt a b =>
      match mtch a i k with
      | Some e => Some e
      | None => mtch b i k
      end
  | Star a => starLoop (mtch a) k (length s - i) i
  | Ahead positive a =>
      match mtch a i (fun j => Some j) with
      | Some _ => if positive then k i else None
      | None => if positive then None else k i
      end
  | Behind positive a =>
      let found :=
        existsb (fun st =>
                   match mtch a st (fun j => if Nat.eqb j i then Some j else None) with
                   | Some _ => true
                   | None => false
                   end) (seq 0 (S i)) in
      if Bool.eqb found positive then k i else None
  | WordB => if xorb (wordBefore i) (wordAt i) then k i else None
  | Bol => if atLineStart i then k i else None
  | Eol => if atLineEnd i then k i else None
  end.

(** The end offset of the match of [r] that starts at [i]. *)
Definition matchAt (r : regex) (i : nat) : option nat :=
  mtch r i (fun j => Some j).

(** The leftmost match at or after [i]: [(index, end)].  [n] counts
    the start offsets still to try. *)
Fixpoint searchFrom (r : regex) (n i : nat) : option (nat * nat) :=
  match matchAt r i with
  | Some e => Some (i, e)
  | None =>
      match n with
      | O => None
      | S n' => searchFrom r n' (S i)
      end
  end.

End Matcher.

(* ------------------------------------------------------------------ *)
(** ** Writing patterns                                                *)
(* ------------------------------------------------------------------ *)

Declare Scope re_scope.
Delimit Scope re_scope with re.
Bind Scope re_scope with regex.

Infix ";;" := Seq (at level 45, right associativity) : re_scope.
Infix "||" := Alt : re_scope.

(** A run of literal characters. *)
Definition lit (s : string) : regex :=
  fold_right (fun c r => Seq (Chr c) r) Eps (str s).
Arguments lit s%_string.

Definition Plus (a : regex) : regex := Seq a (Star a).     (* a+ *)
Definition Opt (a : regex) : regex := Alt a Eps.           (* a? *)

(** [a{n,}] *)
Fixpoint AtLeast (n : nat) (a : regex) : regex :=
  match n with
  | O => Star a
  | S n' => Seq a (AtLeast n' a)
  end.

Definition oneOf (s : string) : cset := COneOf (str s).
Arguments oneOf s%_string.

Definition ws : regex := Cls CSpace.                       (* \s  *)
Definition wd : regex := Cls CWord.                        (* \w  *)
Definition dot : regex := Cls CDot.                        (* .   *)
Definition ws' : regex := Star ws.                         (* \s* *)
Definition ws1 : regex := Plus ws.                         (* \s+ *)
Definition wd' : regex := Star wd.                         (* \w* *)
Definition wd1 : regex := Plus wd.                         (* \w+ *)
Definition quote : cset := COneOf [SQ; DQ].                (* either quote *)
Definition anyUnit : regex := Cls (CUnion CSpace (CNot CSpace)).   (* [\s\S] *)

(* ------------------------------------------------------------------ *)
(** ** RegExp objects                                                  *)
(* ------------------------------------------------------------------ *)

(** A RegExp object: the pattern, its flags and the mutable
    [lastIndex] slot that [exec] reads and writes under the [g] flag. *)
Record RegExp : Type := mkRegExp {
  source : regex;
  global : bool;
  ignoreCase : bool;
  multiline : bool;
  lastIndex : nat
}.

Definition hasFlag (flags : jsstring) (f : N) : bool := existsb (N.eqb f) flags.

(** A regular-expression literal [/source/flags]. *)
Definition literal (src : regex) (flags : string) : RegExp :=
  {| source := src;
     global := hasFlag (str flags) 103;
     ignoreCase := hasFlag (str flags) 105;
     multiline := hasFlag (str flags) 109;
     lastIndex := 0 |}.
Arguments literal src%_re flags%_string.

(** [new RegExp(pattern, flags)] applied to a RegExp object: the source
    is kept, the flags are REPLACED by [flags], and the new object
    starts at [lastIndex] 0. *)
Definition newRegExp (pattern : RegExp) (flags : string) : RegExp :=
  literal (source pattern) flags.
Arguments newRegExp pattern flags%_string.

Definition setLastIndex (re : RegExp) (n : nat) : RegExp :=
  {| source := source re; global := global re; ignoreCase := ignoreCase re;
     multiline := multiline re; lastIndex := n |}.

(** [re.exec(s)]: the match as [(index, matched text)] and the object
    after the call.  Without the [g] flag the search starts at 0 and
    [lastIndex] is left alone. *)
Definition exec (re : RegExp) (s : jsstring)
  : option (nat * jsstring) * RegExp :=
  let start := if global re then lastIndex re else 0 in
  let found :=
    if Nat.ltb (length s) start then None
    else searchFrom s (ignoreCase re) (multiline re) (source re)
                    (length s - start) start in
  match found with
  | None => (None, if global re then setLastIndex re 0 else re)
  | Some (i, e) =>
      (Some (i, substring s i e), if global re then setLastIndex re e else re)
  end.

(** [re.test(s)], also the truth value of [s.match(re)]. *)
Definition test (re : RegExp) (s : jsstring) : bool :=
  match fst (exec re s) with Some _ => true | None => false end.

(** [s.replace(re, r)] for a RegExp without the [g] flag: the first
    match is replaced. *)
Definition replaceRegExp (s : jsstring) (re : RegExp) (r : jsstring) : jsstring :=
  match fst (exec re s) with
  | None => s
  | Some (i, m) => firstn i s ++ r ++ skipn (i + length m) s
  end.

(** [s.replace(/\s/g, r)]: every white-space unit is replaced. *)
Definition replaceAllSpace (s : jsstring) (r : jsstring) : jsstring :=
  flat_map (fun c => if isSpace c then r else [c]) s.

Fixpoint trimStart (s : jsstring) : jsstring :=
  match s with
  | c :: s' => if isSpace c then trimStart s' else s
  | [] => []
  end.

(** [String.prototype.trim]. *)
Definition trim (s : jsstring) : jsstring :=
  rev (trimStart (rev (trimStart s))).

(** [String.prototype.toUpperCase] on the basic Latin letters.  The one
    correction that calls it applies it to the text before the first
    equals sign of a [hardcoded-secrets] match, trimmed: one of the
    upper-case keywords of that rule. *)
Definition toUpperCase (s : jsstring) : jsstring := map canonicalize s.

(* ================================================================== *)
(** * Data model                                                       *)
(* ================================================================== *)

Inductive Severity : Type := Critical | Warning | Info.

Inductive Language : Type :=
  javascript | typescript | python | go | rust | java | cpp.

Definition Severity_eqb (a b : Severity) : bool :=
  match a, b with
  | Critical, Critical | Warning, Warning | Info, Info => true
  | _, _ => false
  end.

(** What calling a function of the source can do: return or throw. *)
Inductive completion (A : Type) : Type :=
| Normal (a : A)
| Throw.
Arguments Throw {A}.

Module Issue.
Record t : Type := mk {
  id : jsstring;
  line : nat;
  type : jsstring;
  severity : Severity;
  description : jsstring;
  fix_ : jsstring;
  startIndex : nat;
  endIndex : nat;
  replacement : jsstring;
  why : jsstring
}.
End Issue.
Abbreviation Issue := Issue.t.

Module Pattern.
Record t : Type := mk {
  id : jsstring;
  type : jsstring;
  severity : Severity;
  regex : RegExp;
  description : jsstring;
  fixDescription : jsstring;
  correction : jsstring -> completion jsstring;
  why : jsstring
}.
End Pattern.
Abbreviation Pattern := Pattern.t.

(* ================================================================== *)
(** * The pattern library                                              *)
(* ================================================================== *)

(** The nine rule tables, entry by entry and in the order of the
    source.  Flags are those of the literal in the table; the scan loop
    rebuilds each pattern with the [g] flag alone. *)

Definition SECURITY_PATTERNS : list Pattern := [
  {| Pattern.id := str "hardcoded-secrets";
     Pattern.type := str "Security Risk";
     Pattern.severity := Critical;
     Pattern.regex := literal ((lit "API_KEY" || lit "SECRET" || lit "TOKEN" || lit "PASSWORD" || lit "PRIVATE_KEY" || lit "ACCESS_KEY" || lit "AUTH_TOKEN") ;; ws' ;; lit "=" ;; ws' ;; Cls quote ;; AtLeast 5 (NotCls quote) ;; Cls quote) "i";
     Pattern.description := str "Hardcoded secret detected";
     Pattern.fixDescription := str "Use environment variables";
     Pattern.correction := fun m => let parts0 := hd [] (split m 61) in
            Normal (parts0 ++ str "= process.env." ++ replaceAllSpace (toUpperCase (trim parts0)) (str "_"));
     Pattern.why := str "Hardcoding secrets exposes them in version control. Use environment variables or secret managers." |};
  {| Pattern.id := str "sql-injection";
     Pattern.type := str "Security Risk";
     Pattern.severity := Critical;
     Pattern.regex := literal (lit "=" ;; ws' ;; Cls quote ;; Star (NotCls quote) ;; (lit "SELECT" || lit "INSERT" || lit "UPDATE" || lit "DELETE" || lit "FROM" || lit "WHERE") ;; Star (NotCls quote) ;; Cls quote ;; ws' ;; lit "+" ;; ws' ;; wd1) "i";
     Pattern.description := str "Potential SQL injection vulnerability";
     Pattern.fixDescription := str "Use parameterized queries";
     Pattern.correction := fun m => Normal (str "/* SQL INJECTION RISK: " ++ m ++ str " */");
     Pattern.why := str "String concatenation in SQL queries allows attackers to inject malicious SQL code." |};
  {| Pattern.id := str "eval-usage";
     Pattern.type := str "Security Risk";
     Pattern.severity := Critical;
     Pattern.regex := literal (WordB ;; lit "eval" ;; ws' ;; lit "(") "";
     Pattern.description := str "eval() usage detected";
     Pattern.fixDescription := str "Avoid eval, use safer alternatives";
     Pattern.correction := fun m => Normal (str "// REMOVED: " ++ m);
     Pattern.why := str "eval() executes arbitrary code and is a major security vulnerability." |}
].

Definition RUNTIME_PATTERNS : list Pattern := [
  {| Pattern.id := str "infinite-loop";
     Pattern.type := str "Runtime Error";
     Pattern.severity := Critical;
     Pattern.regex := literal (lit "while" ;; ws' ;; lit "(" ;; (lit "true" || lit "1" || lit "True") ;; lit ")") "";
     Pattern.description := str "Potential infinite loop";
     Pattern.fixDescription := str "Ensure break condition exists";
     Pattern.correction := fun m => Normal m;
     Pattern.why := str "Infinite loops freeze the application, causing denial of service." |};
  {| Pattern.id := str "division-by-zero";
     Pattern.type := str "Runtime Error";
     Pattern.severity := Warning;
     Pattern.regex := literal (lit "/" ;; ws' ;; lit "0" ;; (NotCls (CUnion CDigit (oneOf ".")) || Eol)) "";
     Pattern.description := str "Potential division by zero";
     Pattern.fixDescription := str "Add zero check";
     Pattern.correction := fun m => Normal m;
     Pattern.why := str "Division by zero causes runtime errors or undefined behavior." |}
].

Definition QUALITY_PATTERNS : list Pattern := [
  {| Pattern.id := str "todo-comment";
     Pattern.type := str "Code Quality";
     Pattern.severity := Info;
     Pattern.regex := literal ((lit "//" || lit "#" || lit "/*") ;; ws' ;; (lit "TODO" || lit "FIXME" || lit "HACK" || lit "XXX" || lit "BUG") ;; Opt (lit ":")) "i";
     Pattern.description := str "Unresolved TODO/FIXME comment";
     Pattern.fixDescription := str "Address or remove";
     Pattern.correction := fun _ => Normal (str "");
     Pattern.why := str "Production code should not have unresolved tasks." |};
  {| Pattern.id := str "debug-code";
     Pattern.type := str "Code Quality";
     Pattern.severity := Info;
     Pattern.regex := literal (lit "debugger" || lit "console.debug" || lit "System.out.print" || lit "fmt.Print" || lit "println!") "";
     Pattern.description := str "Debug code left in production";
     Pattern.fixDescription := str "Remove debug statements";
     Pattern.correction := fun _ => Normal (str "");
     Pattern.why := str "Debug statements should be removed before production." |};
  {| Pattern.id := str "empty-catch";
     Pattern.type := str "Code Quality";
     Pattern.severity := Warning;
     Pattern.regex := literal (lit "catch" ;; ws' ;; lit "(" ;; Star (NotCls (oneOf ")")) ;; lit ")" ;; ws' ;; lit "{" ;; ws' ;; lit "}") "";
     Pattern.description := str "Empty catch block";
     Pattern.fixDescription := str "Handle or log the error";
     Pattern.correction := fun m => Normal (replace m (str "{}") (str "{ console.error(err); }"));
     Pattern.why := str "Empty catch blocks silently swallow errors, making debugging difficult." |}
].

Definition JS_TS_PATTERNS : list Pattern := [
  {| Pattern.id := str "hallucinated-isempty";
     Pattern.type := str "Hallucination";
     Pattern.severity := Critical;
     Pattern.regex := literal (lit "." ;; ws' ;; lit "isEmpty" ;; ws' ;; lit "(" ;; ws' ;; lit ")") "";
     Pattern.description := str "Array.isEmpty() does not exist in JS";
     Pattern.fixDescription := str "Use .length === 0";
     Pattern.correction := fun _ => Normal (str ".length === 0");
     Pattern.why := str "AI often hallucinates .isEmpty() from Java. In JS, use .length === 0." |};
  {| Pattern.id := str "hallucinated-contains";
     Pattern.type := str "Hallucination";
     Pattern.severity := Critical;
     Pattern.regex := literal (lit "." ;; ws' ;; lit "contains" ;; ws' ;; lit "(") "";
     Pattern.description := str "Array.contains() does not exist in JS";
     Pattern.fixDescription := str "Use .includes()";
     Pattern.correction := fun m => Normal (replace m (str "contains") (str "includes"));
     Pattern.why := str "Use .includes() for arrays or strings in JavaScript." |};
  {| Pattern.id := str "var-usage";
     Pattern.type := str "Deprecated";
     Pattern.severity := Warning;
     Pattern.regex := literal (WordB ;; lit "var" ;; ws1 ;; wd1) "";
     Pattern.description := str "Using var instead of let/const";
     Pattern.fixDescription := str "Use let or const";
     Pattern.correction := fun m => Normal (replace m (str "var") (str "const"));
     Pattern.why := str "var has function scope which leads to bugs. Use block-scoped let/const." |};
  {| Pattern.id := str "loose-equality";
     Pattern.type := str "Code Quality";
     Pattern.severity := Info;
     Pattern.regex := literal (NotCls (oneOf "!=") ;; lit "==" ;; Ahead false (lit "=")) "";
     Pattern.description := str "Loose equality (==)";
     Pattern.fixDescription := str "Use strict equality (===)";
     Pattern.correction := fun m => Normal (replace m (str "==") (str "==="));
     Pattern.why := str "Type coercion in == leads to unexpected comparisons." |};
  {| Pattern.id := str "console-log";
     Pattern.type := str "Code Quality";
     Pattern.severity := Info;
     Pattern.regex := literal (lit "console." ;; (lit "log" || lit "warn" || lit "error" || lit "info") ;; ws' ;; lit "(" ;; Star (NotCls (oneOf ";")) ;; lit ")" ;; Opt (lit ";")) "";
     Pattern.description := str "Console statement in code";
     Pattern.fixDescription := str "Comment out console statements";
     Pattern.correction := fun m => Normal (str "// " ++ m);
     Pattern.why := str "Console statements should be removed in production code." |};
  {| Pattern.id := str "promise-no-catch";
     Pattern.type := str "Missing Error Handling";
     Pattern.severity := Warning;
     Pattern.regex := literal (lit ".then" ;; ws' ;; lit "(" ;; Star (NotCls (oneOf ")")) ;; lit ")" ;; Ahead false (ws' ;; lit ".catch")) "";
     Pattern.description := str "Promise without .catch()";
     Pattern.fixDescription := str "Add .catch() handler";
     Pattern.correction := fun m => Normal (m ++ str ".catch(err => console.error(err))");
     Pattern.why := str "Unhandled promise rejections can crash the application." |};
  {| Pattern.id := str "async-no-try";
     Pattern.type := str "Missing Error Handling";
     Pattern.severity := Warning;
     Pattern.regex := literal (lit "async" ;; ws1 ;; (lit "function" ;; ws1 ;; wd1 || lit "(" ;; Star (NotCls (oneOf ")")) ;; lit ")" ;; ws' ;; lit "=>" || wd1 ;; ws' ;; lit "=>") ;; ws' ;; lit "{" ;; Ahead false (Star (NotCls (oneOf "}")) ;; lit "try")) "";
     Pattern.description := str "Async function without try-catch";
     Pattern.fixDescription := str "Wrap in try-catch";
     Pattern.correction := fun m => Normal m;
     Pattern.why := str "Async functions should handle errors with try-catch." |};
  {| Pattern.id := str "dangerously-set-html";
     Pattern.type := str "Security Risk";
     Pattern.severity := Critical;
     Pattern.regex := literal (lit "dangerouslySetInnerHTML") "";
     Pattern.description := str "dangerouslySetInnerHTML usage";
     Pattern.fixDescription := str "Sanitize HTML or avoid";
     Pattern.correction := fun m => Normal m;
     Pattern.why := str "Can lead to XSS attacks if HTML is not properly sanitized." |};
  {| Pattern.id := str "document-write";
     Pattern.type := str "Security Risk";
     Pattern.severity := Warning;
     Pattern.regex := literal (lit "document.write" ;; ws' ;; lit "(") "";
     Pattern.description := str "document.write() usage";
     Pattern.fixDescription := str "Use DOM manipulation";
     Pattern.correction := fun m => Normal m;
     Pattern.why := str "document.write() is outdated and can cause security/performance issues." |};
  {| Pattern.id := str "hallucinated-isnotempty";
     Pattern.type := str "Hallucination";
     Pattern.severity := Critical;
     Pattern.regex := literal (lit "." ;; ws' ;; lit "isNotEmpty" ;; ws' ;; lit "(" ;; ws' ;; lit ")") "";
     Pattern.description := str "Array.isNotEmpty() does not exist in JS";
     Pattern.fixDescription := str "Use .length > 0";
     Pattern.correction := fun _ => Normal (str ".length > 0");
     Pattern.why := str "AI hallucinates .isNotEmpty() from other languages. Use .length > 0." |};
  {| Pattern.id := str "hallucinated-remove";
     Pattern.type := str "Hallucination";
     Pattern.severity := Critical;
     Pattern.regex := literal (lit "." ;; ws' ;; lit "remove" ;; ws' ;; lit "(" ;; Plus (NotCls (oneOf ")")) ;; lit ")") "";
     Pattern.description := str "Array.remove() does not exist in JS";
     Pattern.fixDescription := str "Use .filter() or .splice()";
     Pattern.correction := fun m => Normal (replace m (str ".remove") (str ".filter"));
     Pattern.why := str "Use .filter() to create a new array without the element, or .splice() to modify in place." |};
  {| Pattern.id := str "hallucinated-clear";
     Pattern.type := str "Hallucination";
     Pattern.severity := Critical;
     Pattern.regex := literal (wd1 ;; lit "." ;; ws' ;; lit "clear" ;; ws' ;; lit "(" ;; ws' ;; lit ")") "";
     Pattern.description := str "Array.clear() does not exist in JS";
     Pattern.fixDescription := str "Use arr.length = 0";
     Pattern.correction := fun m => Normal (replace m (str ".clear()") (str ".length = 0"));
     Pattern.why := str "To clear an array in JS, set .length = 0 or reassign to []." |};
  {| Pattern.id := str "missing-await-json";
     Pattern.type := str "Runtime Error";
     Pattern.severity := Critical;
     Pattern.regex := literal (Behind false (lit "await" ;; ws1) ;; lit "response.json" ;; ws' ;; lit "(" ;; ws' ;; lit ")") "";
     Pattern.description := str "Missing await on .json()";
     Pattern.fixDescription := str "Add await keyword";
     Pattern.correction := fun m => Normal (str "await " ++ m);
     Pattern.why := str "response.json() returns a Promise. Without await, you get the Promise, not the data." |};
  {| Pattern.id := str "missing-await-text";
     Pattern.type := str "Runtime Error";
     Pattern.severity := Critical;
     Pattern.regex := literal (Behind false (lit "await" ;; ws1) ;; lit "response.text" ;; ws' ;; lit "(" ;; ws' ;; lit ")") "";
     Pattern.description := str "Missing await on .text()";
     Pattern.fixDescription := str "Add await keyword";
     Pattern.correction := fun m => Normal (str "await " ++ m);
     Pattern.why := str "response.text() returns a Promise. Without await, you get the Promise, not the text." |}
].

Definition PYTHON_PATTERNS : list Pattern := [
  {| Pattern.id := str "mutable-default";
     Pattern.type := str "Runtime Error";
     Pattern.severity := Critical;
     Pattern.regex := literal (lit "def" ;; ws1 ;; wd1 ;; ws' ;; lit "(" ;; Star (NotCls (oneOf ")")) ;; lit "=" ;; ws' ;; (lit "[]" || lit "{}" || ws ;; lit "et()") ;; Star (NotCls (oneOf ")")) ;; lit ")" ;; ws' ;; lit ":") "";
     Pattern.description := str "Mutable default argument";
     Pattern.fixDescription := str "Use None as default";
     Pattern.correction := fun m => Normal (replaceRegExp m (literal (lit "=" ;; ws' ;; (lit "[]" || lit "{}" || ws ;; lit "et()")) "") (str "=None"));
     Pattern.why := str "Mutable defaults are shared between calls, causing unexpected behavior." |};
  {| Pattern.id := str "bare-except";
     Pattern.type := str "Code Quality";
     Pattern.severity := Warning;
     Pattern.regex := literal (lit "except" ;; ws' ;; lit ":") "";
     Pattern.description := str "Bare except clause";
     Pattern.fixDescription := str "Specify exception type";
     Pattern.correction := fun _ => Normal (str "except Exception:");
     Pattern.why := str "Bare except catches all exceptions including KeyboardInterrupt." |};
  {| Pattern.id := str "is-literal";
     Pattern.type := str "Logic Error";
     Pattern.severity := Warning;
     Pattern.regex := literal (ws1 ;; lit "is" ;; ws1 ;; (Cls quote || Cls (CRange 48 57))) "";
     Pattern.description := (str "Using " ++ [DQ] ++ str "is" ++ [DQ] ++ str " with literals");
     Pattern.fixDescription := str "Use == for comparison";
     Pattern.correction := fun m => Normal (replace m (str " is ") (str " == "));
     Pattern.why := ([DQ] ++ str "is" ++ [DQ] ++ str " checks identity, not equality. Use == for value comparison.") |};
  {| Pattern.id := str "print-statement";
     Pattern.type := str "Code Quality";
     Pattern.severity := Info;
     Pattern.regex := literal (WordB ;; lit "print" ;; ws' ;; lit "(") "";
     Pattern.description := str "Print statement in code";
     Pattern.fixDescription := str "Use logging module";
     Pattern.correction := fun m => Normal m;
     Pattern.why := str "Use the logging module for production code." |};
  {| Pattern.id := str "deprecated-time-clock";
     Pattern.type := str "Deprecated";
     Pattern.severity := Warning;
     Pattern.regex := literal (lit "time.clock" ;; ws' ;; lit "(" ;; ws' ;; lit ")") "";
     Pattern.description := str "time.clock() is deprecated";
     Pattern.fixDescription := str "Use time.perf_counter()";
     Pattern.correction := fun _ => Normal (str "time.perf_counter()");
     Pattern.why := str "Removed in Python 3.8. Use perf_counter() or process_time()." |};
  {| Pattern.id := str "deprecated-os-popen";
     Pattern.type := str "Deprecated";
     Pattern.severity := Warning;
     Pattern.regex := literal (lit "os.popen" ;; ws' ;; lit "(") "";
     Pattern.description := str "os.popen() is deprecated";
     Pattern.fixDescription := str "Use subprocess.run()";
     Pattern.correction := fun _ => Normal (str "subprocess.run(");
     Pattern.why := str "os.popen is deprecated. Use subprocess for process handling." |};
  {| Pattern.id := str "hallucinated-tf";
     Pattern.type := str "Hallucination";
     Pattern.severity := Critical;
     Pattern.regex := literal (lit "import" ;; ws1 ;; lit "tensorflow." ;; (lit "advanced" || lit "extras" || lit "utilities")) "";
     Pattern.description := str "Hallucinated TensorFlow module";
     Pattern.fixDescription := str "Check TensorFlow API docs";
     Pattern.correction := fun _ => Normal (str "# Invalid import");
     Pattern.why := str "AI often invents non-existent TensorFlow submodules." |};
  {| Pattern.id := str "f-string-no-f";
     Pattern.type := str "Logic Error";
     Pattern.severity := Warning;
     Pattern.regex := literal (NotCls (oneOf "f") ;; Cls quote ;; Star dot ;; lit "{" ;; Plus (NotCls (oneOf "}")) ;; lit "}" ;; Star dot ;; Cls quote) "";
     Pattern.description := str "String with {} but no f-prefix";
     Pattern.fixDescription := str "Add f prefix for f-string";
     Pattern.correction := fun m => Normal (str "f" ++ m);
     Pattern.why := str "Curly braces without f-prefix are literal characters, not interpolation." |};
  {| Pattern.id := str "pandas-isempty";
     Pattern.type := str "Hallucination";
     Pattern.severity := Critical;
     Pattern.regex := literal (lit ".isEmpty" ;; ws' ;; lit "(" ;; ws' ;; lit ")") "";
     Pattern.description := str "DataFrame.isEmpty() does not exist";
     Pattern.fixDescription := str "Use .empty property";
     Pattern.correction := fun _ => Normal (str ".empty");
     Pattern.why := str "pandas DataFrames use .empty property, not .isEmpty() method." |};
  {| Pattern.id := str "missing-self";
     Pattern.type := str "Logic Error";
     Pattern.severity := Critical;
     Pattern.regex := literal (lit "def" ;; ws1 ;; wd1 ;; ws' ;; lit "(" ;; ws' ;; lit ")" ;; ws' ;; lit ":") "";
     Pattern.description := str "Method possibly missing self parameter";
     Pattern.fixDescription := str "Add self as first parameter";
     Pattern.correction := fun m => Normal (replace m (str "()") (str "(self)"));
     Pattern.why := str "Instance methods require self as the first parameter." |};
  {| Pattern.id := str "requests-no-try";
     Pattern.type := str "Missing Error Handling";
     Pattern.severity := Warning;
     Pattern.regex := literal (lit "requests." ;; (lit "get" || lit "post" || lit "put" || lit "delete" || lit "patch") ;; ws' ;; lit "(") "";
     Pattern.description := str "HTTP request without error handling";
     Pattern.fixDescription := str "Wrap in try/except";
     Pattern.correction := fun m => Normal m;
     Pattern.why := str "Network requests can fail. Handle requests.exceptions.RequestException." |}
].

Definition JAVA_PATTERNS : list Pattern := [
  {| Pattern.id := str "string-equals";
     Pattern.type := str "Logic Error";
     Pattern.severity := Critical;
     Pattern.regex := literal (lit "==" ;; ws' ;; Cls quote ;; Star (NotCls quote) ;; Cls quote) "";
     Pattern.description := str "String comparison with ==";
     Pattern.fixDescription := str "Use .equals()";
     Pattern.correction := fun m => Normal (replace m (str "==") (str ".equals("));
     Pattern.why := str "== compares references, not values. Use .equals() for strings." |};
  {| Pattern.id := str "raw-type";
     Pattern.type := str "Code Quality";
     Pattern.severity := Warning;
     Pattern.regex := literal ((lit "List" || lit "Map" || lit "Set" || lit "ArrayList" || lit "HashMap" || lit "HashSet") ;; ws1 ;; wd1 ;; ws' ;; lit "=") "";
     Pattern.description := str "Raw type without generics";
     Pattern.fixDescription := str "Add type parameters";
     Pattern.correction := fun m => Normal m;
     Pattern.why := str "Raw types bypass type safety. Use generics like List<String>." |};
  {| Pattern.id := str "system-exit";
     Pattern.type := str "Code Quality";
     Pattern.severity := Warning;
     Pattern.regex := literal (lit "System.exit" ;; ws' ;; lit "(") "";
     Pattern.description := str "System.exit() in code";
     Pattern.fixDescription := str "Throw exception instead";
     Pattern.correction := fun m => Normal m;
     Pattern.why := str "System.exit() prevents cleanup and is bad for testing." |};
  {| Pattern.id := str "printStackTrace";
     Pattern.type := str "Code Quality";
     Pattern.severity := Info;
     Pattern.regex := literal (lit ".printStackTrace" ;; ws' ;; lit "(" ;; ws' ;; lit ")") "";
     Pattern.description := str "printStackTrace() usage";
     Pattern.fixDescription := str "Use proper logging";
     Pattern.correction := fun m => Normal m;
     Pattern.why := str "Use a logging framework instead of printStackTrace()." |};
  {| Pattern.id := str "null-pointer-risk";
     Pattern.type := str "Runtime Error";
     Pattern.severity := Warning;
     Pattern.regex := literal (lit "." ;; wd1 ;; lit "()" ;; Ahead false (ws' ;; lit "!=" ;; ws' ;; lit "null")) "";
     Pattern.description := str "Potential null pointer";
     Pattern.fixDescription := str "Add null check";
     Pattern.correction := fun m => Normal m;
     Pattern.why := str "Method chains without null checks can throw NullPointerException." |};
  {| Pattern.id := str "generic-exception-catch";
     Pattern.type := str "Code Quality";
     Pattern.severity := Warning;
     Pattern.regex := literal (lit "catch" ;; ws' ;; lit "(" ;; ws' ;; lit "Exception" ;; ws1 ;; wd1 ;; ws' ;; lit ")") "";
     Pattern.description := str "Catching generic Exception";
     Pattern.fixDescription := str "Catch specific exception types";
     Pattern.correction := fun m => Normal m;
     Pattern.why := str "Catching the generic Exception type hides bugs and makes debugging harder." |};
  {| Pattern.id := str "resource-leak";
     Pattern.type := str "Runtime Error";
     Pattern.severity := Warning;
     Pattern.regex := literal (lit "new" ;; ws1 ;; (lit "FileInputStream" || lit "FileOutputStream" || lit "BufferedReader" || lit "BufferedWriter" || lit "FileReader" || lit "FileWriter") ;; ws' ;; lit "(") "";
     Pattern.description := str "Resource opened without try-with-resources";
     Pattern.fixDescription := str "Use try-with-resources";
     Pattern.correction := fun m => Normal m;
     Pattern.why := str "Streams should be closed with try-with-resources to prevent resource leaks." |};
  {| Pattern.id := str "string-concat-loop";
     Pattern.type := str "Code Quality";
     Pattern.severity := Warning;
     Pattern.regex := literal (lit "for" ;; ws' ;; lit "(" ;; Star (NotCls (oneOf ")")) ;; lit ")" ;; Star (NotCls (oneOf "}")) ;; lit "+=" ;; ws' ;; Cls quote) "";
     Pattern.description := str "String concatenation in loop";
     Pattern.fixDescription := str "Use StringBuilder";
     Pattern.correction := fun m => Normal m;
     Pattern.why := str "String concatenation in loops creates many temporary objects. Use StringBuilder." |}
].

Definition GO_PATTERNS : list Pattern := [
  {| Pattern.id := str "ignored-error";
     Pattern.type := str "Missing Error Handling";
     Pattern.severity := Critical;
     Pattern.regex := literal (lit "," ;; ws' ;; lit "_" ;; ws' ;; Opt (lit ":") ;; lit "=" ;; ws' ;; wd1 ;; lit "(" ;; Star (NotCls (oneOf ")")) ;; lit ")") "";
     Pattern.description := str "Error ignored with underscore";
     Pattern.fixDescription := str "Handle the error";
     Pattern.correction := fun m => Normal m;
     Pattern.why := str "Ignoring errors with _ is a common source of bugs in Go." |};
  {| Pattern.id := str "panic-usage";
     Pattern.type := str "Code Quality";
     Pattern.severity := Warning;
     Pattern.regex := literal (WordB ;; lit "panic" ;; ws' ;; lit "(") "";
     Pattern.description := str "panic() usage";
     Pattern.fixDescription := str "Return error instead";
     Pattern.correction := fun m => Normal m;
     Pattern.why := str "Prefer returning errors over panicking in library code." |};
  {| Pattern.id := str "fmt-print";
     Pattern.type := str "Code Quality";
     Pattern.severity := Info;
     Pattern.regex := literal (lit "fmt.Print" ;; Opt (lit "ln" || lit "f") ;; ws' ;; lit "(") "";
     Pattern.description := str "fmt.Print in production";
     Pattern.fixDescription := str "Use proper logging";
     Pattern.correction := fun m => Normal m;
     Pattern.why := str "Use log package or structured logging for production." |};
  {| Pattern.id := str "goroutine-leak";
     Pattern.type := str "Runtime Error";
     Pattern.severity := Warning;
     Pattern.regex := literal (lit "go" ;; ws1 ;; lit "func" ;; ws' ;; lit "(" ;; Star (NotCls (oneOf ")")) ;; lit ")" ;; ws' ;; lit "{" ;; Star (NotCls (oneOf "}")) ;; lit "for" ;; ws' ;; lit "{") "";
     Pattern.description := str "Potential goroutine leak";
     Pattern.fixDescription := str "Add cancellation context";
     Pattern.correction := fun m => Normal m;
     Pattern.why := str "Goroutines with infinite loops need proper cancellation." |};
  {| Pattern.id := str "try-catch-go";
     Pattern.type := str "Hallucination";
     Pattern.severity := Critical;
     Pattern.regex := literal (WordB ;; lit "try" ;; ws' ;; lit "{" || WordB ;; lit "catch" ;; ws' ;; lit "(") "";
     Pattern.description := str "try/catch does not exist in Go";
     Pattern.fixDescription := str "Use error returns and if err != nil";
     Pattern.correction := fun _ => Normal (str "// Use: if err != nil { return err }");
     Pattern.why := str "Go uses explicit error returns, not try/catch exceptions." |};
  {| Pattern.id := str "missing-defer-close";
     Pattern.type := str "Missing Error Handling";
     Pattern.severity := Warning;
     Pattern.regex := literal (lit "os.Open" ;; ws' ;; lit "(" ;; Star (NotCls (oneOf ")")) ;; lit ")" ;; Ahead false (Star anyUnit ;; lit "defer" ;; Star anyUnit ;; lit ".Close")) "";
     Pattern.description := str "File opened without defer Close()";
     Pattern.fixDescription := str "Add defer file.Close()";
     Pattern.correction := fun m => Normal m;
     Pattern.why := str "Files should be closed with defer to prevent resource leaks." |};
  {| Pattern.id := str "err-shadow";
     Pattern.type := str "Logic Error";
     Pattern.severity := Warning;
     Pattern.regex := literal (lit "err" ;; ws' ;; lit ":=" ;; Star dot ;; Chr LF ;; Star dot ;; lit "err" ;; ws' ;; lit ":=") "";
     Pattern.description := str "Error variable shadowing";
     Pattern.fixDescription := str "Use = instead of := for reassignment";
     Pattern.correction := fun m => Normal m;
     Pattern.why := str "Using := shadows the outer err variable, losing error information." |}
].

Definition RUST_PATTERNS : list Pattern := [
  {| Pattern.id := str "unwrap-usage";
     Pattern.type := str "Runtime Error";
     Pattern.severity := Warning;
     Pattern.regex := literal (lit ".unwrap" ;; ws' ;; lit "(" ;; ws' ;; lit ")") "";
     Pattern.description := str ".unwrap() can panic";
     Pattern.fixDescription := str "Use ? or match";
     Pattern.correction := fun m => Normal (replace m (str ".unwrap()") (str "?"));
     Pattern.why := str "unwrap() panics on None/Err. Use ? operator or pattern matching." |};
  {| Pattern.id := str "expect-usage";
     Pattern.type := str "Runtime Error";
     Pattern.severity := Info;
     Pattern.regex := literal (lit ".expect" ;; ws' ;; lit "(") "";
     Pattern.description := str ".expect() can panic";
     Pattern.fixDescription := str "Use ? or match";
     Pattern.correction := fun m => Normal m;
     Pattern.why := str "expect() panics with a message. Consider proper error handling." |};
  {| Pattern.id := str "clone-overuse";
     Pattern.type := str "Code Quality";
     Pattern.severity := Info;
     Pattern.regex := literal (lit ".clone" ;; ws' ;; lit "(" ;; ws' ;; lit ")") "";
     Pattern.description := str "Clone usage - performance impact";
     Pattern.fixDescription := str "Consider borrowing";
     Pattern.correction := fun m => Normal m;
     Pattern.why := str "Excessive cloning impacts performance. Consider borrowing instead." |};
  {| Pattern.id := str "unsafe-block";
     Pattern.type := str "Security Risk";
     Pattern.severity := Warning;
     Pattern.regex := literal (WordB ;; lit "unsafe" ;; ws' ;; lit "{") "";
     Pattern.description := str "Unsafe block detected";
     Pattern.fixDescription := str "Minimize unsafe code";
     Pattern.correction := fun m => Normal m;
     Pattern.why := str "Unsafe blocks bypass Rust safety guarantees. Use sparingly." |};
  {| Pattern.id := str "multiple-unwrap";
     Pattern.type := str "Code Quality";
     Pattern.severity := Warning;
     Pattern.regex := literal (lit ".unwrap()" ;; Star dot ;; lit ".unwrap()") "";
     Pattern.description := str "Multiple .unwrap() in chain";
     Pattern.fixDescription := str "Use ? operator with Result";
     Pattern.correction := fun m => Normal m;
     Pattern.why := str "Chained unwraps make debugging difficult. Use proper error propagation." |};
  {| Pattern.id := str "string-borrow";
     Pattern.type := str "Code Quality";
     Pattern.severity := Info;
     Pattern.regex := literal (lit "&String" ;; Ahead false (ws' ;; lit ",")) "";
     Pattern.description := str "Borrowing String instead of &str";
     Pattern.fixDescription := str "Use &str for string references";
     Pattern.correction := fun m => Normal (replace m (str "&String") (str "&str"));
     Pattern.why := str "&str is more flexible than &String for function parameters." |};
  {| Pattern.id := str "missing-lifetime";
     Pattern.type := str "Logic Error";
     Pattern.severity := Warning;
     Pattern.regex := literal (lit "fn" ;; ws1 ;; wd1 ;; ws' ;; lit "(" ;; Star (NotCls (oneOf ")")) ;; lit "&" ;; NotCls (CUnion (COneOf [SQ]) CSpace) ;; Star (NotCls (oneOf ")")) ;; lit ")" ;; ws' ;; lit "->" ;; ws' ;; lit "&") "";
     Pattern.description := str "Possible missing lifetime annotation";
     Pattern.fixDescription := str "Add lifetime parameter";
     Pattern.correction := fun m => Normal m;
     Pattern.why := str "Functions returning references usually need explicit lifetimes." |}
].

Definition CPP_PATTERNS : list Pattern := [
  {| Pattern.id := str "raw-pointer";
     Pattern.type := str "Code Quality";
     Pattern.severity := Warning;
     Pattern.regex := literal (wd1 ;; ws' ;; lit "*" ;; ws1 ;; wd1 ;; ws' ;; lit "=" ;; ws' ;; lit "new" ;; ws1) "";
     Pattern.description := str "Raw pointer with new";
     Pattern.fixDescription := str "Use smart pointers";
     Pattern.correction := fun m => Normal m;
     Pattern.why := str "Raw pointers cause memory leaks. Use unique_ptr or shared_ptr." |};
  {| Pattern.id := str "delete-mismatch";
     Pattern.type := str "Runtime Error";
     Pattern.severity := Critical;
     Pattern.regex := literal (lit "delete" ;; ws1 ;; wd1 ;; Ahead false (ws' ;; lit "[]")) "";
     Pattern.description := str "Single delete on array?";
     Pattern.fixDescription := str "Use delete[] for arrays";
     Pattern.correction := fun m => Normal m;
     Pattern.why := str "Using delete instead of delete[] on arrays causes undefined behavior." |};
  {| Pattern.id := str "printf-format";
     Pattern.type := str "Security Risk";
     Pattern.severity := Warning;
     Pattern.regex := literal (lit "printf" ;; ws' ;; lit "(" ;; ws' ;; wd1 ;; ws' ;; lit ")") "";
     Pattern.description := str "printf with variable format";
     Pattern.fixDescription := (str "Use " ++ [DQ] ++ str "%s" ++ [DQ] ++ str " format");
     Pattern.correction := fun m => Normal m;
     Pattern.why := str "Variable format strings enable format string attacks." |};
  {| Pattern.id := str "gets-usage";
     Pattern.type := str "Security Risk";
     Pattern.severity := Critical;
     Pattern.regex := literal (WordB ;; lit "gets" ;; ws' ;; lit "(") "";
     Pattern.description := str "gets() is dangerous";
     Pattern.fixDescription := str "Use fgets()";
     Pattern.correction := fun m => Normal (replace m (str "gets") (str "fgets"));
     Pattern.why := str "gets() has no bounds checking, causing buffer overflows." |};
  {| Pattern.id := str "strcpy-usage";
     Pattern.type := str "Security Risk";
     Pattern.severity := Warning;
     Pattern.regex := literal (WordB ;; lit "strcpy" ;; ws' ;; lit "(") "";
     Pattern.description := str "strcpy() is unsafe";
     Pattern.fixDescription := str "Use strncpy()";
     Pattern.correction := fun m => Normal (replace m (str "strcpy") (str "strncpy"));
     Pattern.why := str "strcpy() has no bounds checking. Use strncpy() or std::string." |};
  {| Pattern.id := str "cout-debug";
     Pattern.type := str "Code Quality";
     Pattern.severity := Info;
     Pattern.regex := literal (Opt (lit "std::") ;; lit "cout" ;; ws' ;; lit "<<") "";
     Pattern.description := str "cout in production code";
     Pattern.fixDescription := str "Use proper logging";
     Pattern.correction := fun m => Normal m;
     Pattern.why := str "Use a logging library instead of cout for production." |};
  {| Pattern.id := str "malloc-usage";
     Pattern.type := str "Code Quality";
     Pattern.severity := Warning;
     Pattern.regex := literal (WordB ;; lit "malloc" ;; ws' ;; lit "(") "";
     Pattern.description := str "Using malloc in C++";
     Pattern.fixDescription := str "Use new or smart pointers";
     Pattern.correction := fun m => Normal m;
     Pattern.why := str "In C++, prefer new/delete or smart pointers over malloc/free." |};
  {| Pattern.id := str "new-no-delete";
     Pattern.type := str "Runtime Error";
     Pattern.severity := Warning;
     Pattern.regex := literal (WordB ;; lit "new" ;; ws1 ;; wd1 ;; Ahead false (Star (NotCls (oneOf ";")) ;; lit "delete")) "";
     Pattern.description := str "new without corresponding delete";
     Pattern.fixDescription := str "Use smart pointers or add delete";
     Pattern.correction := fun m => Normal m;
     Pattern.why := str "Memory allocated with new must be freed to prevent leaks." |};
  {| Pattern.id := str "sprintf-usage";
     Pattern.type := str "Security Risk";
     Pattern.severity := Warning;
     Pattern.regex := literal (WordB ;; lit "sprintf" ;; ws' ;; lit "(") "";
     Pattern.description := str "sprintf() is unsafe";
     Pattern.fixDescription := str "Use snprintf() instead";
     Pattern.correction := fun m => Normal (replace m (str "sprintf") (str "snprintf"));
     Pattern.why := str "sprintf has no buffer size limit, causing potential overflows." |};
  {| Pattern.id := str "using-namespace-std";
     Pattern.type := str "Code Quality";
     Pattern.severity := Info;
     Pattern.regex := literal (lit "using" ;; ws1 ;; lit "namespace" ;; ws1 ;; lit "std" ;; ws' ;; lit ";") "";
     Pattern.description := str "using namespace std in header";
     Pattern.fixDescription := str "Use std:: prefix instead";
     Pattern.correction := fun m => Normal m;
     Pattern.why := str "Pollutes global namespace. Use explicit std:: prefix." |}
].

Module Tables.
(** The module-level rule objects a scan can reach. *)
Record t : Type := mk {
  SECURITY : list Pattern;
  RUNTIME : list Pattern;
  QUALITY : list Pattern;
  JS_TS : list Pattern;
  PYTHON : list Pattern;
  JAVA : list Pattern;
  GO : list Pattern;
  RUST : list Pattern;
  CPP : list Pattern
}.

Definition all (T : t) : list Pattern :=
  SECURITY T ++ RUNTIME T ++ QUALITY T ++ JS_TS T ++ PYTHON T
  ++ JAVA T ++ GO T ++ RUST T ++ CPP T.
End Tables.

(** The tables as the module defines them. *)
Definition library : Tables.t :=
  {| Tables.SECURITY := SECURITY_PATTERNS;
     Tables.RUNTIME := RUNTIME_PATTERNS;
     Tables.QUALITY := QUALITY_PATTERNS;
     Tables.JS_TS := JS_TS_PATTERNS;
     Tables.PYTHON := PYTHON_PATTERNS;
     Tables.JAVA := JAVA_PATTERNS;
     Tables.GO := GO_PATTERNS;
     Tables.RUST := RUST_PATTERNS;
     Tables.CPP := CPP_PATTERNS |}.

(* ================================================================== *)
(** * Helper functions                                                 *)
(* ================================================================== *)

Definition isJsOrTs (language : Language) : bool :=
  match language with javascript | typescript => true | _ => false end.

(** [code.substring(0, index).split('\n').length] *)
Definition getLineFromIndex (code : jsstring) (index : nat) : nat :=
  length (split (substring code 0 index) LF).

(** The lines of the text paired with their indices, as [forEach]
    presents them to its callback. *)
Definition indexedLines (code : jsstring) : list (jsstring * nat) :=
  let lines := split code LF in combine lines (seq 0 (length lines)).

(** ** The missing-return detector *)

(** [/function\s+(get|calculate|compute|create|find|fetch)\w*/i] *)
Definition getterHeader : RegExp :=
  literal (lit "function" ;; ws1 ;;
           (lit "get" || lit "calculate" || lit "compute" || lit "create"
            || lit "find" || lit "fetch") ;; wd') "i".

Definition missingReturnIssue (funcStart : nat) : Issue :=
  {| Issue.id := str "missing-return-" ++ decimal funcStart;
     Issue.line := funcStart + 1;
     Issue.type := str "Logic Error";
     Issue.severity := Warning;
     Issue.description := str "Function should return a value";
     Issue.fix_ := str "Add return statement";
     Issue.startIndex := 0;
     Issue.endIndex := 0;
     Issue.replacement := str "";
     Issue.why := str "Functions named get*/calculate*/find* typically should return something." |}.

(** The local variables of [checkMissingReturn]. *)
Record ReturnScan : Type := mkReturnScan {
  insideFunc : bool;
  expectedReturn : bool;
  funcStart : nat;
  braceCount : Z;
  found : list Issue
}.

(** One turn of the [forEach] callback. *)
Definition returnStep (st : ReturnScan) (entry : jsstring * nat) : ReturnScan :=
  let (line, i) := entry in
  let st1 :=
    if test getterHeader line
    then mkReturnScan true true i 0 (found st)
    else st in
  if insideFunc st1 then
    let bc := (braceCount st1 + Z.of_nat (countChar line 123)
               - Z.of_nat (countChar line 125))%Z in
    let expected :=
      if includes line (str "return ") then false else expectedReturn st1 in
    if Z.leb bc 0 && includes line (str "}") then
      mkReturnScan false false (funcStart st1) bc
        (if expected then found st1 ++ [missingReturnIssue (funcStart st1)]
         else found st1)
    else mkReturnScan true expected (funcStart st1) bc (found st1)
  else st1.

Definition checkMissingReturn (code : jsstring) (language : Language) : list Issue :=
  if negb (isJsOrTs language) then []
  else found (fold_left returnStep (indexedLines code)
                        (mkReturnScan false false 0 0 [])).

(** ** The missing-await detector *)

Definition missingAwaitIssue (line : jsstring) (idx : nat) : Issue :=
  {| Issue.id := str "missing-await-fetch-" ++ decimal idx;
     Issue.line := idx + 1;
     Issue.type := str "Runtime Error";
     Issue.severity := Critical;
     Issue.description := str "fetch() called without await";
     Issue.fix_ := str "Add await keyword";
     Issue.startIndex := 0;
     Issue.endIndex := 0;
     Issue.replacement := replace line (str "fetch(") (str "await fetch(");
     Issue.why := str "fetch() returns a Promise. Without await, you get Promise object, not response." |}.

Definition fetchWithoutAwait (line : jsstring) : bool :=
  includes line (str "fetch(") && negb (includes line (str "await "))
  && negb (includes line (str "return fetch")) && negb (includes line (str ".then")).

Definition checkMissingAwait (code : jsstring) (language : Language) : list Issue :=
  if negb (isJsOrTs language) then []
  else flat_map (fun entry : jsstring * nat =>
                   let (line, idx) := entry in
                   if fetchWithoutAwait line then [missingAwaitIssue line idx] else [])
                (indexedLines code).

(** ** The context filter *)

Definition slashComments (language : Language) : bool :=
  match language with
  | javascript | typescript | java | cpp | go | rust => true
  | python => false
  end.

Definition isInsideCommentOrString (code : jsstring) (index : nat)
           (language : Language) : bool :=
  let beforeMatch := substring code 0 index in
  let lineStart := Z.to_nat (lastIndexOf beforeMatch LF + 1) in
  let lineContent := substring code lineStart index in
  if slashComments language && includes lineContent (str "//") then true
  else if (match language with python => true | _ => false end)
          && includes lineContent (str "#") then true
  else if Nat.eqb (countChar lineContent DQ mod 2) 1 then true
  else if Nat.eqb (countChar lineContent SQ mod 2) 1 then true
  else false.

(* ================================================================== *)
(** * The scan loop                                                    *)
(* ================================================================== *)

(** How the body of the [try] block of one rule ends: the [while] loop
    runs out of matches, an exception leaves it (the [catch] clause
    swallows it), or the loop never ends.  The first two carry the
    shared [issues] array as the rule left it. *)
Inductive outcome : Type :=
| Finished (issues : list Issue)
| Threw (issues : list Issue)
| Hangs.

Definition alreadyReported (issues : list Issue) (pattern : Pattern) (index : nat) : bool :=
  existsb (fun i => Nat.eqb (Issue.startIndex i) index
                    && startsWith (Issue.id i) (Pattern.id pattern)) issues.

(** The object literal pushed for a match at [index] with text [m0],
    once the correction has returned [replacement]. *)
Definition newIssue (code : jsstring) (pattern : Pattern) (index : nat)
           (m0 replacement : jsstring) : Issue :=
  {| Issue.id := Pattern.id pattern ++ str "-" ++ decimal index;
     Issue.line := getLineFromIndex code index;
     Issue.type := Pattern.type pattern;
     Issue.severity := Pattern.severity pattern;
     Issue.description := Pattern.description pattern;
     Issue.fix_ := Pattern.fixDescription pattern;
     Issue.startIndex := index;
     Issue.endIndex := index + length m0;
     Issue.replacement := replacement;
     Issue.why := Pattern.why pattern |}.

(** [language && isInsideCommentOrString(code, m.index, language)] *)
Definition suppressed (code : jsstring) (index : nat) (language : option Language) : bool :=
  match language with
  | Some l => isInsideCommentOrString code index l
  | None => false
  end.

(** The [while ((match = globalRegex.exec(code)) !== null)] loop.  Each
    turn calls [exec] once; [fuel] bounds the number of turns.  The
    correction is called while the object literal is built, so a
    correction that throws leaves the array as it was. *)
Fixpoint matchLoop (fuel : nat) (code : jsstring) (pattern : Pattern)
         (language : option Language) (globalRegex : RegExp)
         (issues : list Issue) : outcome :=
  match fuel with
  | O => Hangs
  | S fuel' =>
      match exec globalRegex code with
      | (None, _) => Finished issues
      | (Some (index, m0), globalRegex') =>
          if suppressed code index language
          then matchLoop fuel' code pattern language globalRegex' issues
          else if alreadyReported issues pattern index
          then matchLoop fuel' code pattern language globalRegex' issues
          else
            match Pattern.correction pattern m0 with
            | Throw => Threw issues
            | Normal replacement =>
                matchLoop fuel' code pattern language globalRegex'
                  (issues ++ [newIssue code pattern index m0 replacement])
            end
      end
  end.

(** The body of the [try] block for one rule.  A loop whose matches are
    never empty ends within [length code + 1] calls of [exec]; a loop
    that meets an empty match sees it again on every later turn. *)
Definition scanPattern (code : jsstring) (pattern : Pattern)
           (language : option Language) (issues : list Issue) : outcome :=
  matchLoop (S (length code)) code pattern language
            (newRegExp (Pattern.regex pattern) "g") issues.

(** [patterns.forEach(pattern => { try { ... } catch (e) { } })] on the
    shared [issues] array; [None] when some rule never returns. *)
Fixpoint applyPatterns (code : jsstring) (patterns : list Pattern)
         (issues : list Issue) (language : option Language)
  : option (list Issue) :=
  match patterns with
  | [] => Some issues
  | pattern :: rest =>
      match scanPattern code pattern language issues with
      | Finished issues' => applyPatterns code rest issues' language
      | Threw issues' => applyPatterns code rest issues' language
      | Hangs => None
      end
  end.

(* ================================================================== *)
(** * Ranking                                                          *)
(* ================================================================== *)

Definition severityWeight (s : Severity) : Z :=
  match s with Critical => 3 | Warning => 2 | Info => 1 end.

(** The comparator handed to [sort]. *)
Definition compareIssues (a b : Issue) : Z :=
  let weightDiff :=
    (severityWeight (Issue.severity b) - severityWeight (Issue.severity a))%Z in
  if negb (Z.eqb weightDiff 0) then weightDiff
  else (Z.of_nat (Issue.line a) - Z.of_nat (Issue.line b))%Z.

Section Sort.
Variable A : Type.
Variable cmp : A -> A -> Z.

Fixpoint insertBy (x : A) (l : list A) : list A :=
  match l with
  | [] => [x]
  | y :: l' => if Z.ltb 0 (cmp x y) then y :: insertBy x l' else x :: l
  end.

(** [Array.prototype.sort(cmp)]: a stable sort.  An element goes in
    front of the elements that follow it in the input unless the
    comparator puts it strictly after them. *)
Definition sort (l : list A) : list A := fold_right insertBy [] l.
End Sort.

Definition MAX_ISSUES : nat := 20.

(** [Array.prototype.slice(0, n)] *)
Definition slice0 (A : Type) (l : list A) (n : nat) : list A := firstn n l.

(* ================================================================== *)
(** * The main analysis function                                       *)
(* ================================================================== *)

Definition andThen (A B : Type) (o : option A) (f : A -> option B) : option B :=
  match o with Some a => f a | None => None end.

Section Engine.

Variable T : Tables.t.

(** The statements of [analyzeCode] up to the sort: the [issues]
    array in discovery order. *)
Definition collectIssues (code : jsstring) (language : Language)
  : option (list Issue) :=
  let issues : list Issue := [] in
  (* 1. Universal Security Patterns *)
  andThen (applyPatterns code (Tables.SECURITY T) issues (Some language)) (fun issues =>
  (* 2. Universal Runtime Patterns *)
  andThen (applyPatterns code (Tables.RUNTIME T) issues (Some language)) (fun issues =>
  (* 3. Language-specific patterns *)
  andThen
    (match language with
     | javascript | typescript =>
         andThen (applyPatterns code (Tables.JS_TS T) issues (Some language)) (fun issues =>
         let issues := issues ++ checkMissingAwait code language in
         let issues := issues ++ checkMissingReturn code language in
         Some issues)
     | python => applyPatterns code (Tables.PYTHON T) issues (Some language)
     | java => applyPatterns code (Tables.JAVA T) issues (Some language)
     | go => applyPatterns code (Tables.GO T) issues (Some language)
     | rust => applyPatterns code (Tables.RUST T) issues (Some language)
     | cpp => applyPatterns code (Tables.CPP T) issues (Some language)
     end) (fun issues =>
  (* 4. Universal Quality Patterns *)
  applyPatterns code (Tables.QUALITY T) issues (Some language)))).

Definition analyzeCodeIn (code : jsstring) (language : Language)
  : option (list Issue) :=
  andThen (collectIssues code language) (fun issues =>
  let sorted := sort compareIssues issues in
  Some (slice0 sorted MAX_ISSUES)).

End Engine.

(** [analyzeCode] on the tables of the module; [None] stands for a call
    that never returns. *)
Definition analyzeCode (code : jsstring) (language : Language)
  : option (list Issue) :=
  analyzeCodeIn library code language.

(* ================================================================== *)
(** * Language detection                                               *)
(* ================================================================== *)

(** The conditions of the [if] statements of [detectLanguage], one
    definition per statement and in the order of the source. *)

(** [/\bdef\s+\w+\s*\([^)]*\)\s*:/] *)
Definition pyDef (code : jsstring) : bool :=
  test (literal (WordB ;; lit "def" ;; ws1 ;; wd1 ;; ws' ;; lit "(" ;; Star (NotCls (oneOf ")")) ;; lit ")" ;; ws' ;; lit ":") "") code.

(** [/^import\s+\w+|^from\s+\w+\s+import/m] *)
Definition pyImport (code : jsstring) : bool :=
  test (literal (Bol ;; lit "import" ;; ws1 ;; wd1 || Bol ;; lit "from" ;; ws1 ;; wd1 ;; ws1 ;; lit "import") "m") code.

(** [/^\s*class\s+\w+\s*:/m] *)
Definition pyClass (code : jsstring) : bool :=
  test (literal (Bol ;; ws' ;; lit "class" ;; ws1 ;; wd1 ;; ws' ;; lit ":") "m") code.

(** [/\bfn\s+\w+\s*[<(]/] *)
Definition rsFn (code : jsstring) : bool :=
  test (literal (WordB ;; lit "fn" ;; ws1 ;; wd1 ;; ws' ;; Cls (oneOf "<(")) "") code.

(** [/->\s*(?:Result|Option|Self|&|\w+)/] *)
Definition rsArrow (code : jsstring) : bool :=
  test (literal (lit "->" ;; ws' ;; (lit "Result" || lit "Option" || lit "Self" || lit "&" || wd1)) "") code.

(** [/\blet\s+mut\s+/] *)
Definition rsLetMut (code : jsstring) : bool :=
  test (literal (WordB ;; lit "let" ;; ws1 ;; lit "mut" ;; ws1) "") code.

(** [/\bimpl\s+\w+/] *)
Definition rsImpl (code : jsstring) : bool :=
  test (literal (WordB ;; lit "impl" ;; ws1 ;; wd1) "") code.

(** [/\buse\s+std::/] *)
Definition rsUseStd (code : jsstring) : bool :=
  test (literal (WordB ;; lit "use" ;; ws1 ;; lit "std::") "") code.

(** [/^package\s+\w+/m] *)
Definition goPackage (code : jsstring) : bool :=
  test (literal (Bol ;; lit "package" ;; ws1 ;; wd1) "m") code.

(** [/\bfunc\s+\w+\s*\(/] *)
Definition goFunc (code : jsstring) : bool :=
  test (literal (WordB ;; lit "func" ;; ws1 ;; wd1 ;; ws' ;; lit "(") "") code.

(** [/:=/ and /\bfmt\./] *)
Definition goShortFmt (code : jsstring) : bool :=
  test (literal (lit ":=") "") code && test (literal (WordB ;; lit "fmt.") "") code.

(** [/\bpublic\s+class\s+\w+/] *)
Definition javaPublicClass (code : jsstring) : bool :=
  test (literal (WordB ;; lit "public" ;; ws1 ;; lit "class" ;; ws1 ;; wd1) "") code.

(** [/\bprivate\s+\w+\s+\w+\s*\(/] *)
Definition javaPrivate (code : jsstring) : bool :=
  test (literal (WordB ;; lit "private" ;; ws1 ;; wd1 ;; ws1 ;; wd1 ;; ws' ;; lit "(") "") code.

(** [/System\.out\.print/] *)
Definition javaPrint (code : jsstring) : bool :=
  test (literal (lit "System.out.print") "") code.

(** [/#include\s*</] *)
Definition cppIncludeAngle (code : jsstring) : bool :=
  test (literal (lit "#include" ;; ws' ;; lit "<") "") code.

(** [/\bstd::/] *)
Definition cppStd (code : jsstring) : bool :=
  test (literal (WordB ;; lit "std::") "") code.

(** [/\bint\s+main\s*\(/ and /#include/] *)
Definition cppMain (code : jsstring) : bool :=
  test (literal (WordB ;; lit "int" ;; ws1 ;; lit "main" ;; ws' ;; lit "(") "") code && test (literal (lit "#include") "") code.

(** [/:\s*(string|number|boolean|any)\b/] *)
Definition tsAnnotation (code : jsstring) : bool :=
  test (literal (lit ":" ;; ws' ;; (lit "string" || lit "number" || lit "boolean" || lit "any") ;; WordB) "") code.

(** [/interface\s+\w+\s*\{/] *)
Definition tsInterface (code : jsstring) : bool :=
  test (literal (lit "interface" ;; ws1 ;; wd1 ;; ws' ;; lit "{") "") code.

(** [/\btype\s+\w+\s*=/] *)
Definition tsTypeAlias (code : jsstring) : bool :=
  test (literal (WordB ;; lit "type" ;; ws1 ;; wd1 ;; ws' ;; lit "=") "") code.

(** [/\b(?:const|let|var)\s+\w+\s*=/] *)
Definition jsDeclaration (code : jsstring) : bool :=
  test (literal (WordB ;; (lit "const" || lit "let" || lit "var") ;; ws1 ;; wd1 ;; ws' ;; lit "=") "") code.

(** [/\bfunction\s+\w+\s*\(/] *)
Definition jsFunction (code : jsstring) : bool :=
  test (literal (WordB ;; lit "function" ;; ws1 ;; wd1 ;; ws' ;; lit "(") "") code.

(** [/=>\s*\{/] *)
Definition jsArrow (code : jsstring) : bool :=
  test (literal (lit "=>" ;; ws' ;; lit "{") "") code.

Definition detectLanguage (code : jsstring) : Language :=
  (* Python detection *)
  if pyDef code then python
  else if pyImport code then python
  else if pyClass code then python
  (* Rust detection *)
  else if rsFn code then rust
  else if rsArrow code then rust
  else if rsLetMut code then rust
  else if rsImpl code then rust
  else if rsUseStd code then rust
  (* Go detection *)
  else if goPackage code then go
  else if goFunc code then go
  else if goShortFmt code then go
  (* Java detection *)
  else if javaPublicClass code then java
  else if javaPrivate code then java
  else if javaPrint code then java
  (* C++ detection *)
  else if cppIncludeAngle code then cpp
  else if cppStd code then cpp
  else if cppMain code then cpp
  (* TypeScript detection (before JS) *)
  else if tsAnnotation code then typescript
  else if tsInterface code then typescript
  else if tsTypeAlias code then typescript
  (* JavaScript detection *)
  else if jsDeclaration code then javascript
  else if jsFunction code then javascript
  else if jsArrow code then javascript
  else javascript. (* Default *)

(** The same conditions as a table, each with the language its
    statement returns. *)
Definition fingerprints : list ((jsstring -> bool) * Language) :=
  [(pyDef, python);
   (pyImport, python);
   (pyClass, python);
   (rsFn, rust);
   (rsArrow, rust);
   (rsLetMut, rust);
   (rsImpl, rust);
   (rsUseStd, rust);
   (goPackage, go);
   (goFunc, go);
   (goShortFmt, go);
   (javaPublicClass, java);
   (javaPrivate, java);
   (javaPrint, java);
   (cppIncludeAngle, cpp);
   (cppStd, cpp);
   (cppMain, cpp);
   (tsAnnotation, typescript);
   (tsInterface, typescript);
   (tsTypeAlias, typescript);
   (jsDeclaration, javascript);
   (jsFunction, javascript);
   (jsArrow, javascript)].

(* ================================================================== *)
(** * The health score of [runAnalysis] (App.tsx)                      *)
(* ================================================================== *)

(** The [forEach] that accumulates [deduct]. *)
Definition deduct (foundIssues : list Issue) : Z :=
  fold_left
    (fun deduct i =>
       let deduct := if Severity_eqb (Issue.severity i) Critical then deduct + 15 else deduct in
       let deduct := if Severity_eqb (Issue.severity i) Warning then deduct + 5 else deduct in
       if Severity_eqb (Issue.severity i) Info then deduct + 1 else deduct)%Z
    foundIssues 0%Z.

Definition finalScore (foundIssues : list Issue) : Z :=
  Z.max 0 (100 - deduct foundIssues).

(* ================================================================== *)
(** * The callers of the engine                                        *)
(* ================================================================== *)

(** ** The editor

    [code.split('\n').length], the line counter of the editor
    (CodeInput.tsx). *)
Definition lineCount (code : jsstring) : nat := length (split code LF).

(** [s.substring(a)]: from [a] to the end. *)
Definition substringFrom (s : jsstring) (a : nat) : jsstring :=
  substring s a (length s).

(** The text [applyFix] (App.tsx) hands to [setCode]. *)
Definition applyFix (code : jsstring) (issue : Issue) : jsstring :=
  let before := substring code 0 (Issue.startIndex issue) in
  let after := substringFrom code (Issue.endIndex issue) in
  before ++ Issue.replacement issue ++ after.

(** ** The helpers of [ResultsPanel] (ResultsPanel.tsx) *)

Definition getSeverityWeight (s : Severity) : Z :=
  match s with
  | Critical => 3
  | Warning => 2
  | Info => 1
  end.

(** The comparator of [sortedIssues]. *)
Definition comparePanel (a b : Issue) : Z :=
  let weightDiff :=
    (getSeverityWeight (Issue.severity b) - getSeverityWeight (Issue.severity a))%Z in
  if negb (Z.eqb weightDiff 0) then weightDiff
  else (Z.of_nat (Issue.line a) - Z.of_nat (Issue.line b))%Z.

(** [[...issues].sort(...)] *)
Definition sortedIssues (issues : list Issue) : list Issue :=
  sort comparePanel issues.

Definition criticalCount (issues : list Issue) : nat :=
  length (filter (fun i => Severity_eqb (Issue.severity i) Critical) issues).

Definition warningCount (issues : list Issue) : nat :=
  length (filter (fun i => Severity_eqb (Issue.severity i) Warning) issues).

Definition infoCount (issues : list Issue) : nat :=
  length (filter (fun i => Severity_eqb (Issue.severity i) Info) issues).

Definition getScoreColor (score : Z) : jsstring :=
  if Z.leb 90 score then str "var(--color-success)"
  else if Z.leb 70 score then str "var(--color-warning)"
  else str "var(--color-critical)".

(* ================================================================== *)
(** * Vocabulary of the specification                                  *)
(* ================================================================== *)

(** ** Rule ids *)

Fixpoint dropDigits (l : jsstring) : jsstring :=
  match l with
  | c :: l' => if isDigit c then dropDigits l' else l
  | [] => []
  end.

Definition dropHyphen (l : jsstring) : jsstring :=
  match l with
  | 45%N :: l' => l'
  | _ => l
  end.

(** Every Issue id of the source is a rule id, a hyphen and a decimal
    number.  The rule id of an Issue is its id without that suffix. *)
Definition ruleId (i : Issue) : jsstring :=
  rev (dropHyphen (dropDigits (rev (Issue.id i)))).

(** The rules of the two supplementary checks. *)
Definition supplementary (i : Issue) : Prop :=
  ruleId i = str "missing-await-fetch" \/ ruleId i = str "missing-return".

(** ** The ranking order *)

(** [a] may stand directly before [b] in a ranked result. *)
Definition rankLe (a b : Issue) : Prop :=
  (severityWeight (Issue.severity a) > severityWeight (Issue.severity b))%Z
  \/ (severityWeight (Issue.severity a) = severityWeight (Issue.severity b)
      /\ Issue.line a <= Issue.line b).

(** ** The ranking order in the words of the specification *)

(** The severity weights of the specification. *)
Definition specWeight (s : Severity) : nat :=
  match s with
  | Critical => 3
  | Warning => 2
  | Info => 1
  end.

(** [a] ranks at least as high as [b]: severity weight descending, then
    line ascending. *)
Definition ranksNoLower (a b : Issue) : Prop :=
  specWeight (Issue.severity b) < specWeight (Issue.severity a)
  \/ (specWeight (Issue.severity a) = specWeight (Issue.severity b)
      /\ Issue.line a <= Issue.line b).

(** Issues of one severity on one line. *)
Definition sameClass (sev : Severity) (ln : nat) (i : Issue) : bool :=
  Severity_eqb (Issue.severity i) sev && Nat.eqb (Issue.line i) ln.

Definition isPrefixOf (A : Type) (p l : list A) : Prop :=
  exists rest, l = p ++ rest.

(** ** The context filter in the words of the specification *)

(** The text of the line of offset [index], from the start of that
    line up to [index]: the last piece of the text before [index] when
    it is cut at the newlines. *)
Definition linePrefix (code : jsstring) (index : nat) : jsstring :=
  last (split (firstn index code) LF) [].

Definition contains (s marker : jsstring) : Prop :=
  exists before after, s = before ++ marker ++ after.

Definition suppressedAt (code : jsstring) (index : nat) (language : Language) : Prop :=
  let prefix := linePrefix code index in
  (language <> python /\ contains prefix (str "//"))
  \/ (language = python /\ contains prefix (str "#"))
  \/ Nat.Odd (count_occ N.eq_dec prefix DQ)
  \/ Nat.Odd (count_occ N.eq_dec prefix SQ).

(** ** Rules whose loop ends *)

(** A lower bound on the length of every match of a pattern. *)
Fixpoint minLen (r : regex) : nat :=
  match r with
  | Chr _ | Cls _ | NotCls _ => 1
  | Seq a b => minLen a + minLen b
  | Alt a b => Nat.min (minLen a) (minLen b)
  | Eps | Star _ | Ahead _ _ | Behind _ _ | WordB | Bol | Eol => 0
  end.

(** A matcher over the text [s] hands its continuation an offset at
    least [d] further on and still inside the text. *)
Definition advances (s : jsstring)
           (ma : nat -> (nat -> option nat) -> option nat) (d : nat) : Prop :=
  forall i k e, ma i k = Some e ->
    exists j, i + d <= j /\ (i <= length s -> j <= length s) /\ k j = Some e.

(** A rule whose pattern never matches the empty string. *)
Definition progressive (p : Pattern) : bool :=
  Nat.leb 1 (minLen (source (Pattern.regex p))).

Definition progressiveTables (T : Tables.t) : bool :=
  forallb progressive (Tables.all T).

(** ** The state of the rule objects *)

(** The rule [p] with the [lastIndex] slot of its RegExp object set to
    [n]: the one part of a rule object that calls of [exec] or [test]
    could have changed since the module was loaded. *)
Definition touch (n : nat) (p : Pattern) : Pattern :=
  {| Pattern.id := Pattern.id p;
     Pattern.type := Pattern.type p;
     Pattern.severity := Pattern.severity p;
     Pattern.regex := setLastIndex (Pattern.regex p) n;
     Pattern.description := Pattern.description p;
     Pattern.fixDescription := Pattern.fixDescription p;
     Pattern.correction := Pattern.correction p;
     Pattern.why := Pattern.why p |}.

(** The tables with the [lastIndex] of every rule object chosen by [st]. *)
Definition touchTables (st : Pattern -> nat) (T : Tables.t) : Tables.t :=
  let f := map (fun p => touch (st p) p) in
  {| Tables.SECURITY := f (Tables.SECURITY T);
     Tables.RUNTIME := f (Tables.RUNTIME T);
     Tables.QUALITY := f (Tables.QUALITY T);
     Tables.JS_TS := f (Tables.JS_TS T);
     Tables.PYTHON := f (Tables.PYTHON T);
     Tables.JAVA := f (Tables.JAVA T);
     Tables.GO := f (Tables.GO T);
     Tables.RUST := f (Tables.RUST T);
     Tables.CPP := f (Tables.CPP T) |}.

(** ** Counting severities *)

Definition countSeverity (sev : Severity) (l : list Issue) : Z :=
  Z.of_nat (length (filter (fun i => Severity_eqb (Issue.severity i) sev) l)).

(** ** Invariants of the scan loop *)

(** Pushing the Issue of a match that passed the context filter and
    the duplicate check keeps [P]. *)
Definition pushKeeps (code : jsstring) (language : option Language)
           (P : list Issue -> Prop) (pattern : Pattern) : Prop :=
  forall issues index m0 replacement,
    P issues ->
    suppressed code index language = false ->
    alreadyReported issues pattern index = false ->
    P (issues ++ [newIssue code pattern index m0 replacement]).

(** [P] holds of the array a rule leaves behind. *)
Definition holdsAfter (P : list Issue -> Prop) (o : outcome) : Prop :=
  match o with
  | Finished l | Threw l => P l
  | Hangs => True
  end.

(** Two Issues of one rule at one offset. *)
Definition clash (a b : Issue) : Prop :=
  ruleId a = ruleId b /\ Issue.startIndex a = Issue.startIndex b.

Definition apart (a b : Issue) : Prop := clash a b -> supplementary a.

(** The rule [eval-usage] with a correction that throws on every match. *)
Definition brokenRule : Pattern :=
  {| Pattern.id := str "eval-usage";
     Pattern.type := str "Security Risk";
     Pattern.severity := Critical;
     Pattern.regex := literal (WordB ;; lit "eval" ;; ws' ;; lit "(") "";
     Pattern.description := str "eval() usage detected";
     Pattern.fixDescription := str "Avoid eval, use safer alternatives";
     Pattern.correction := fun _ => Throw;
     Pattern.why := str "eval() executes arbitrary code and is a major security vulnerability." |}.

(** A matcher over the text [s] looks at its continuation only at
    offsets from its own up to the end of the text. *)
Definition local (s : jsstring)
           (ma : nat -> (nat -> option nat) -> option nat) : Prop :=
  forall i k k', i <= length s ->
    (forall j, i <= j <= length s -> k j = k' j) -> ma i k = ma i k'.

(** What a scenario looks at: id, line, severity, span and replacement
    of every Issue of a result. *)
Definition summary (o : option (list Issue))
  : option (list (jsstring * nat * Severity * (nat * nat) * jsstring)) :=
  option_map
    (map (fun i => (Issue.id i, Issue.line i, Issue.severity i,
                    (Issue.startIndex i, Issue.endIndex i), Issue.replacement i)))
    o.

(** The table [analyzeCode] applies in its [switch] statement. *)
Definition languageTable (T : Tables.t) (language : Language) : list Pattern :=
  match language with
  | javascript | typescript => Tables.JS_TS T
  | python => Tables.PYTHON T
  | java => Tables.JAVA T
  | go => Tables.GO T
  | rust => Tables.RUST T
  | cpp => Tables.CPP T
  end.

(** The rules [analyzeCode] applies under [language], in its order. *)
Definition applicable (T : Tables.t) (language : Language) : list Pattern :=
  Tables.SECURITY T ++ Tables.RUNTIME T ++ languageTable T language
  ++ Tables.QUALITY T.

(** [a] is the Issue the scan loop builds for rule [p] when the pattern
    of [p], case-sensitive and without the [m] flag, matches the text
    from [index] to [e], the context filter lets [index] pass and the
    correction returns. *)
Definition builtFrom (code : jsstring) (language : Language)
           (p : Pattern) (a : Issue) : Prop :=
  exists index e replacement,
    matchAt code false false (source (Pattern.regex p)) index = Some e
    /\ index + minLen (source (Pattern.regex p)) <= e
    /\ e <= length code
    /\ isInsideCommentOrString code index language = false
    /\ Pattern.correction p (substring code index e) = Normal replacement
    /\ a = newIssue code p index (substring code index e) replacement.

(** The match facts the scan loop has in hand when it pushes. *)
Definition pushKeepsMatched (code : jsstring) (language : option Language)
           (P : nat -> list Issue -> Prop) (pattern : Pattern) : Prop :=
  forall li issues index e replacement,
    P li issues ->
    li <= index ->
    suppressed code index language = false ->
    alreadyReported issues pattern index = false ->
    matchAt code false false (source (Pattern.regex pattern)) index = Some e ->
    index + minLen (source (Pattern.regex pattern)) <= e ->
    e <= length code ->
    Pattern.correction pattern (substring code index e) = Normal replacement ->
    P e (issues ++ [newIssue code pattern index (substring code index e) replacement]).

(** [P] does not depend on how far the loop has got. *)
Definition risesWith (P : nat -> list Issue -> Prop) : Prop :=
  forall li li' l, li <= li' -> P li l -> P li' l.

(** What [checkMissingReturn] knows after the lines before index [a] of
    the text with lines [lines]: every Issue found names a line that
    matches the header pattern, the Issues are in ascending line order,
    and a function that is open started at such a line after all the
    Issues found. *)
Definition returnScanInv (lines : list jsstring) (a : nat) (st : ReturnScan) : Prop :=
  Forall (fun x => exists n l, x = missingReturnIssue n /\ n < a
                               /\ nth_error lines n = Some l
                               /\ test getterHeader l = true) (found st)
  /\ StronglySorted lt (map Issue.line (found st))
  /\ (insideFunc st = true ->
      funcStart st < a
      /\ (exists l, nth_error lines (funcStart st) = Some l
                    /\ test getterHeader l = true)
      /\ Forall (fun x => Issue.line x <= funcStart st) (found st)).

(** The correction of the rule returns on every text. *)
Definition returns (p : Pattern) : Prop :=
  forall m, exists replacement, Pattern.correction p m = Normal replacement.

(** The id of an Issue of a rule table: rule id, hyphen, offset. *)
Definition tableShape (a : Issue) : Prop :=
  Issue.id a = ruleId a ++ str "-" ++ decimal (Issue.startIndex a).

(** No id occurs twice, and every Issue is one of a supplementary
    check or carries its offset in its id. *)
Definition distinctIds (l : list Issue) : Prop :=
  NoDup (map Issue.id l)
  /\ Forall (fun a => supplementary a \/ tableShape a) l.

(** The matches the [while] loop of [applyPatterns] meets, in order:
    what [exec] returns when it is called again and again on the same
    RegExp object, up to the first [null]. *)
Fixpoint occurrences (fuel : nat) (code : jsstring) (globalRegex : RegExp)
  : list (nat * jsstring) :=
  match fuel with
  | O => []
  | S fuel' =>
      match exec globalRegex code with
      | (None, _) => []
      | (Some (index, m0), globalRegex') =>
          (index, m0) :: occurrences fuel' code globalRegex'
      end
  end.

(** No Issue of the array has an id that starts with the id of [q]:
    the duplicate check of [q] finds nothing in it. *)
Definition unseen (q : Pattern) (issues : list Issue) : Prop :=
  forall a, In a issues -> startsWith (Issue.id a) (Pattern.id q) = false.

(** No id built from the rule id [a] starts with the rule id [b]. *)
Definition sepb (a b : jsstring) : bool :=
  negb (startsWith (a ++ str "-") b) && negb (startsWith b (a ++ str "-")).

(** Every rule id is separate from the ones after it. *)
Fixpoint separated (ids : list jsstring) : bool :=
  match ids with
  | [] => true
  | a :: rest => forallb (sepb a) rest && separated rest
  end.

(** Two Issues of one rule have spans that do not overlap. *)
Definition spansApart (a b : Issue) : Prop :=
  ruleId a = ruleId b ->
  Issue.endIndex a <= Issue.startIndex b \/ Issue.endIndex b <= Issue.startIndex a.

(** What a table [ps] adds to the array: Issues of its rules, with spans
    that do not overlap within a rule, one for every match of a rule
    that the context filter lets pass. *)
Definition reportsOf (code : jsstring) (language : option Language)
           (ps : list Pattern) (kept : list Issue) : Prop :=
  Forall (fun a => exists p n,
            In p ps /\ Issue.id a = Pattern.id p ++ str "-" ++ decimal n) kept
  /\ ForallOrdPairs spansApart kept
  /\ forall p index m0,
       In p ps ->
       In (index, m0)
          (occurrences (S (length code)) code (newRegExp (Pattern.regex p) "g")) ->
       suppressed code index language = false ->
       exists replacement,
         Pattern.correction p m0 = Normal replacement
         /\ In (newIssue code p index m0 replacement) kept.

(* ================================================================== *)
(** * Facts about the matcher                                          *)
(* ================================================================== *)

Section MatcherFacts.
Variable s : jsstring.
Variables ic ml : bool.

Lemma advances_weaken ma d d' : d' <= d -> advances s ma d -> advances s ma d'.
Proof.
  intros Hd H i k e E. destruct (H i k e E) as (j & ? & ? & ?).
  exists j. repeat split; auto; lia.
Qed.

Lemma starLoop_advances ma k :
  advances s ma 0 ->
  forall n i e, starLoop ma k n i = Some e ->
    exists j, i + 0 <= j /\ (i <= length s -> j <= length s) /\ k j = Some e.
Proof.
  intros Hma n. induction n as [|n IH]; intros i e H; simpl in H.
  - exists i. repeat split; auto; lia.
  - destruct (ma i _) as [e'|] eqn:E.
    + injection H as <-. apply Hma in E. destruct E as (j & Hj & Hb & Hk).
      destruct (Nat.ltb i j) eqn:L; [|discriminate].
      apply IH in Hk. destruct Hk as (j' & Hj' & Hb' & Hk').
      exists j'. repeat split; auto; lia.
    + exists i. repeat split; auto; lia.
Qed.

Lemma unitAt_lt i d : unitAt s i = Some d -> i < length s.
Proof. unfold unitAt. intros H. apply nth_error_Some. congruence. Qed.

Ltac stay_put H i :=
  exists i; split; [lia|]; split; [auto|];
  repeat match type of H with
         | (if ?c then _ else _) = _ => destruct c
         | match ?c with _ => _ end = _ => destruct c
         end; congruence.

Lemma mtch_advances r : advances s (mtch s ic ml r) (minLen r).
Proof.
  induction r; intros i k e H; simpl in H |- *.
  - exists i. repeat split; auto; lia.
  - destruct (unitAt s i) as [d|] eqn:U; [|discriminate].
    destruct (eqUnit ic c d); [|discriminate].
    apply unitAt_lt in U. exists (S i). repeat split; auto; lia.
  - destruct (unitAt s i) as [d|] eqn:U; [|discriminate].
    destruct (classUnit ic cs d); [|discriminate].
    apply unitAt_lt in U. exists (S i). repeat split; auto; lia.
  - destruct (unitAt s i) as [d|] eqn:U; [|discriminate].
    destruct (classUnit ic cs d); [discriminate|].
    apply unitAt_lt in U. exists (S i). repeat split; auto; lia.
  - apply IHr1 in H. destruct H as (j & Hj & Hb & Hk).
    apply IHr2 in Hk. destruct Hk as (j' & Hj' & Hb' & Hk').
    exists j'. repeat split; auto; lia.
  - destruct (mtch s ic ml r1 i k) as [e'|] eqn:E.
    + injection H as <-. apply IHr1 in E. destruct E as (j & ? & ? & ?).
      exists j. repeat split; auto; lia.
    + apply IHr2 in H. destruct H as (j & ? & ? & ?).
      exists j. repeat split; auto; lia.
  - apply starLoop_advances in H; auto.
    apply advances_weaken with (d := minLen r); [lia | exact IHr].
  - stay_put H i.
  - stay_put H i.
  - stay_put H i.
  - stay_put H i.
  - stay_put H i.
Qed.

Lemma matchAt_bounds r i e :
  matchAt s ic ml r i = Some e ->
  i + minLen r <= e /\ (i <= length s -> e <= length s).
Proof.
  unfold matchAt. intros H. apply mtch_advances in H.
  destruct H as (j & ? & ? & Hk). injection Hk as <-. auto.
Qed.

Lemma searchFrom_bounds r n i i' e :
  searchFrom s ic ml r n i = Some (i', e) ->
  i <= i' <= i + n /\ i' + minLen r <= e /\ (i + n <= length s -> e <= length s).
Proof.
  revert i. induction n as [|n IH]; intros i H; simpl in H.
  - destruct (matchAt s ic ml r i) as [e'|] eqn:E; [|discriminate].
    injection H as <- <-. apply matchAt_bounds in E. repeat split; try lia.
  - destruct (matchAt s ic ml r i) as [e'|] eqn:E.
    + injection H as <- <-. apply matchAt_bounds in E. repeat split; try lia.
    + apply IH in H. repeat split; try lia.
Qed.
End MatcherFacts.

(* ================================================================== *)
(** * Facts about the scan loop                                        *)
(* ================================================================== *)

(** ** [exec] under the [g] flag *)

Lemma exec_global_some re code i m re' :
  global re = true -> lastIndex re <= length code ->
  exec re code = (Some (i, m), re') ->
  exists e, re' = setLastIndex re e /\ lastIndex re <= i
            /\ i + minLen (source re) <= e /\ e <= length code
            /\ m = substring code i e.
Proof.
  intros G L. unfold exec. rewrite G.
  destruct (Nat.ltb (length code) (lastIndex re)) eqn:B.
  - apply Nat.ltb_lt in B. lia.
  - destruct (searchFrom _ _ _ _ _ _) as [[i0 e]|] eqn:S; [|discriminate].
    intros H. injection H as <- <- <-.
    apply searchFrom_bounds in S. exists e. repeat split; try lia.
Qed.

(** ** The loop of one rule ends *)

Lemma matchLoop_terminates code pattern language :
  forall fuel re issues,
    global re = true -> 1 <= minLen (source re) ->
    lastIndex re <= length code -> length code - lastIndex re < fuel ->
    matchLoop fuel code pattern language re issues <> Hangs.
Proof.
  induction fuel as [|fuel IH]; intros re issues G M L F; [lia|].
  simpl. destruct (exec re code) as [[[i m]|] re'] eqn:E; [|discriminate].
  destruct (exec_global_some _ _ G L E) as (e & -> & Hi & He & Hb & _).
  assert (Hrec : forall iss,
             matchLoop fuel code pattern language (setLastIndex re e) iss <> Hangs).
  { intros iss. apply IH; simpl; auto; lia. }
  destruct (suppressed code i language); [apply Hrec|].
  destruct (alreadyReported issues pattern i); [apply Hrec|].
  destruct (Pattern.correction pattern m); [apply Hrec | discriminate].
Qed.

Lemma scanPattern_terminates code pattern language issues :
  progressive pattern = true ->
  scanPattern code pattern language issues <> Hangs.
Proof.
  intros P. unfold scanPattern. apply matchLoop_terminates.
  - reflexivity.
  - apply Nat.leb_le. exact P.
  - simpl. lia.
  - simpl. lia.
Qed.

Lemma applyPatterns_total code patterns language :
  forallb progressive patterns = true ->
  forall issues, exists r, applyPatterns code patterns issues language = Some r.
Proof.
  induction patterns as [|p ps IH]; intros F issues; simpl.
  - eauto.
  - simpl in F. apply andb_true_iff in F. destruct F as [Fp Fps].
    pose proof (@scanPattern_terminates code p language issues Fp) as T.
    destruct (scanPattern code p language issues); try congruence; apply IH; auto.
Qed.

(** ** An invariant rule *)

Section ScanInvariant.
Variable code : jsstring.
Variable language : option Language.
Variable P : list Issue -> Prop.

Lemma matchLoop_invariant pattern :
  pushKeeps code language P pattern ->
  forall fuel re issues, P issues ->
    holdsAfter P (matchLoop fuel code pattern language re issues).
Proof.
  intros K. induction fuel as [|fuel IH]; intros re issues H; simpl; [exact I|].
  destruct (exec re code) as [[[i m]|] re']; [|exact H].
  destruct (suppressed code i language) eqn:S; [apply IH; exact H|].
  destruct (alreadyReported issues pattern i) eqn:A; [apply IH; exact H|].
  destruct (Pattern.correction pattern m) as [r|]; [|exact H].
  apply IH. apply K; assumption.
Qed.

Lemma applyPatterns_invariant patterns :
  (forall p, In p patterns -> pushKeeps code language P p) ->
  forall issues r, P issues ->
    applyPatterns code patterns issues language = Some r -> P r.
Proof.
  induction patterns as [|p ps IH]; intros K issues r H E; simpl in E.
  - injection E as <-. exact H.
  - assert (Hp : holdsAfter P (scanPattern code p language issues)).
    { apply matchLoop_invariant; [apply K; left; reflexivity | exact H]. }
    destruct (scanPattern code p language issues); simpl in Hp; try discriminate;
      (eapply IH; [intros; apply K; right; assumption | exact Hp | exact E]).
Qed.
End ScanInvariant.

(* ================================================================== *)
(** * The bounds of the model are no cut-offs                          *)
(* ================================================================== *)

Section StarBound.
Variable s : jsstring.
Variables ic ml : bool.

Lemma starLoop_local ma :
  local s ma -> forall k k' n i, i <= length s ->
    (forall j, i <= j <= length s -> k j = k' j) ->
    starLoop ma k n i = starLoop ma k' n i.
Proof.
  intros Hma k k' n. induction n as [|n IH]; intros i Hi E; simpl.
  - apply E. lia.
  - rewrite (Hma i _ (fun j => if Nat.ltb i j then starLoop ma k' n j else None) Hi).
    + rewrite (E i) by lia. reflexivity.
    + intros j Hj. destruct (Nat.ltb i j) eqn:L; [|reflexivity].
      apply Nat.ltb_lt in L. apply IH; [lia|]. intros j' Hj'. apply E. lia.
Qed.

Lemma mtch_local r : local s (mtch s ic ml r).
Proof.
  induction r; intros i k k' Hi E; simpl.
  - apply E. lia.
  - destruct (unitAt s i) as [d|] eqn:U; [|reflexivity].
    apply unitAt_lt in U. destruct (eqUnit ic c d); [apply E; lia | reflexivity].
  - destruct (unitAt s i) as [d|] eqn:U; [|reflexivity].
    apply unitAt_lt in U. destruct (classUnit ic cs d); [apply E; lia | reflexivity].
  - destruct (unitAt s i) as [d|] eqn:U; [|reflexivity].
    apply unitAt_lt in U. destruct (classUnit ic cs d); [reflexivity | apply E; lia].
  - apply IHr1; [exact Hi|]. intros j Hj. apply IHr2; [lia|].
    intros j' Hj'. apply E. lia.
  - rewrite (IHr1 i k k' Hi E), (IHr2 i k k' Hi E). reflexivity.
  - apply starLoop_local; assumption.
  - rewrite (E i) by lia. reflexivity.
  - rewrite (E i) by lia. reflexivity.
  - rewrite (E i) by lia. reflexivity.
  - rewrite (E i) by lia. reflexivity.
  - rewrite (E i) by lia. reflexivity.
Qed.

(** At the end of the text no further iteration of a star succeeds. *)
Lemma star_body_fails_at_end ma k n i :
  advances s ma 0 -> length s <= i -> i <= length s ->
  ma i (fun j => if Nat.ltb i j then starLoop ma k n j else None) = None.
Proof.
  intros A H1 H2.
  destruct (ma i _) as [e|] eqn:E; [|reflexivity].
  apply A in E. destruct E as (j & Hj & Hb & Hk).
  destruct (Nat.ltb i j) eqn:L; [|discriminate].
  apply Nat.ltb_lt in L. specialize (Hb H2). lia.
Qed.

(** Every bound on the iterations of a star from [length s - i] on
    gives the same result. *)
Lemma starLoop_bound_irrelevant ma k :
  local s ma -> advances s ma 0 ->
  forall n m i, i <= length s -> length s - i <= n -> length s - i <= m ->
    starLoop ma k n i = starLoop ma k m i.
Proof.
  intros Hl Ha n. induction n as [|n IH]; intros m i Hi Hn Hm.
  - destruct m as [|m]; [reflexivity|]. simpl.
    rewrite star_body_fails_at_end by (auto; lia). reflexivity.
  - destruct m as [|m]; simpl.
    + rewrite star_body_fails_at_end by (auto; lia). reflexivity.
    + rewrite (Hl i _ (fun j => if Nat.ltb i j then starLoop ma k m j else None) Hi);
        [reflexivity|].
      intros j Hj. destruct (Nat.ltb i j) eqn:L; [|reflexivity].
      apply Nat.ltb_lt in L. apply IH; lia.
Qed.

Lemma mtch_star_any_bound a i k n :
  i <= length s -> length s - i <= n ->
  mtch s ic ml (Star a) i k = starLoop (mtch s ic ml a) k n i.
Proof.
  intros Hi Hn. simpl. apply starLoop_bound_irrelevant; try lia.
  - apply mtch_local.
  - apply advances_weaken with (d := minLen a); [lia | apply mtch_advances].
Qed.
End StarBound.

(** More fuel does not change the outcome of a loop that ends. *)
Lemma matchLoop_more_fuel code pattern language extra :
  forall fuel re issues,
    matchLoop fuel code pattern language re issues <> Hangs ->
    matchLoop (fuel + extra) code pattern language re issues
    = matchLoop fuel code pattern language re issues.
Proof.
  induction fuel as [|fuel IH]; intros re issues H; simpl in *; [congruence|].
  destruct (exec re code) as [[[i m]|] re']; [|reflexivity].
  destruct (suppressed code i language); [apply IH; exact H|].
  destruct (alreadyReported issues pattern i); [apply IH; exact H|].
  destruct (Pattern.correction pattern m); [apply IH; exact H | reflexivity].
Qed.

(** The loop of a rule whose pattern cannot match the empty string has
    the same outcome under every bound from [length code + 1] on. *)
Lemma scanPattern_any_fuel code pattern language issues extra :
  progressive pattern = true ->
  matchLoop (S (length code) + extra) code pattern language
            (newRegExp (Pattern.regex pattern) "g") issues
  = scanPattern code pattern language issues.
Proof.
  intros P. unfold scanPattern. apply matchLoop_more_fuel.
  apply (@scanPattern_terminates code pattern language issues P).
Qed.

(* ================================================================== *)
(** * Facts about the ranker                                           *)
(* ================================================================== *)

Section SortFacts.
Variable A : Type.
Variable cmp : A -> A -> Z.

Lemma insertBy_perm x l : Permutation (insertBy cmp x l) (x :: l).
Proof.
  induction l as [|y l IH]; simpl; [reflexivity|].
  destruct (Z.ltb 0 (cmp x y)); [|reflexivity].
  rewrite IH. apply perm_swap.
Qed.

Lemma sort_perm l : Permutation (sort cmp l) l.
Proof.
  induction l as [|x l IH]; simpl; [reflexivity|].
  rewrite insertBy_perm. constructor. exact IH.
Qed.

(** The order the comparator induces, when the comparator is that of
    a total preorder [R]. *)
Variable R : A -> A -> Prop.
Hypothesis cmp_le : forall x y, (cmp x y <= 0)%Z -> R x y.
Hypothesis cmp_gt : forall x y, (0 < cmp x y)%Z -> R y x.
Hypothesis R_trans : forall x y z, R x y -> R y z -> R x z.

Lemma insertBy_sorted x l :
  StronglySorted R l -> StronglySorted R (insertBy cmp x l).
Proof.
  induction 1 as [|y l Hs IH Hy]; simpl.
  - repeat constructor.
  - destruct (Z.ltb 0 (cmp x y)) eqn:C.
    + apply Z.ltb_lt in C. constructor; [exact IH|].
      eapply Permutation_Forall; [symmetry; apply insertBy_perm|].
      constructor; [apply cmp_gt; exact C | exact Hy].
    + apply Z.ltb_ge in C. constructor; [constructor; assumption|].
      constructor; [apply cmp_le; exact C|].
      eapply Forall_impl; [|exact Hy]. intros z Hz.
      eapply R_trans; [apply cmp_le; exact C | exact Hz].
Qed.

Lemma sort_sorted l : StronglySorted R (sort cmp l).
Proof.
  induction l as [|x l IH]; simpl; [constructor|].
  apply insertBy_sorted. exact IH.
Qed.

(** Stability: elements the comparator cannot tell apart keep their
    order.  [c] selects one class of such elements. *)
Variable c : A -> bool.
Hypothesis class_tie : forall x y, c x = true -> c y = true -> cmp x y = 0%Z.

Lemma filter_insertBy x l :
  filter c (insertBy cmp x l) = filter c (x :: l).
Proof.
  induction l as [|y l IH]; [reflexivity|].
  simpl insertBy. destruct (Z.ltb 0 (cmp x y)) eqn:C; [|reflexivity].
  apply Z.ltb_lt in C. simpl in *. rewrite IH.
  destruct (c x) eqn:Cx; [|reflexivity].
  destruct (c y) eqn:Cy; [|reflexivity].
  rewrite (class_tie Cx Cy) in C. lia.
Qed.

Lemma sort_stable l : filter c (sort cmp l) = filter c l.
Proof.
  induction l as [|x l IH]; [reflexivity|].
  simpl sort. rewrite filter_insertBy. simpl. rewrite IH. reflexivity.
Qed.
End SortFacts.

Section SortedFacts.
Variable A : Type.
Variable R : A -> A -> Prop.

Lemma StronglySorted_firstn n (l : list A) :
  StronglySorted R l -> StronglySorted R (firstn n l).
Proof.
  intros H. revert n. induction H as [|x l Hs IH Hx]; intros [|n]; simpl;
    try constructor.
  - apply IH.
  - apply Forall_forall. intros y Hy.
    rewrite Forall_forall in Hx. apply Hx.
    rewrite <- (firstn_skipn n l). apply in_or_app. left. exact Hy.
Qed.

Lemma StronglySorted_adjacent (l : list A) :
  StronglySorted R l ->
  forall n a b, nth_error l n = Some a -> nth_error l (S n) = Some b -> R a b.
Proof.
  induction 1 as [|x l Hs IH Hx]; intros n a b Ha Hb.
  - destruct n; discriminate.
  - destruct n as [|n]; simpl in Ha, Hb.
    + injection Ha as <-. rewrite Forall_forall in Hx. apply Hx.
      destruct l; [discriminate|]. simpl in Hb. injection Hb as <-. left. reflexivity.
    + eapply IH; eassumption.
Qed.

Lemma StronglySorted_split n (l : list A) :
  StronglySorted R l ->
  forall a b, In a (firstn n l) -> In b (skipn n l) -> R a b.
Proof.
  intros H. revert n. induction H as [|x l Hs IH Hx]; intros [|n] a b Ha Hb;
    simpl in Ha, Hb; try contradiction.
  destruct Ha as [<-|Ha].
  - rewrite Forall_forall in Hx. apply Hx.
    rewrite <- (firstn_skipn n l). apply in_or_app. right. exact Hb.
  - eapply IH; eassumption.
Qed.
End SortedFacts.

Lemma filter_firstn_prefix (A : Type) (c : A -> bool) n (l : list A) :
  isPrefixOf (filter c (firstn n l)) (filter c l).
Proof.
  exists (filter c (skipn n l)). rewrite <- filter_app, firstn_skipn. reflexivity.
Qed.

(** ** The comparator of the source and the ranking order *)

Lemma severityWeight_inj a b : severityWeight a = severityWeight b -> a = b.
Proof. destruct a, b; simpl; intros H; congruence || lia. Qed.

Lemma compareIssues_le a b : (compareIssues a b <= 0)%Z -> rankLe a b.
Proof.
  unfold compareIssues, rankLe.
  destruct (Z.eqb _ 0) eqn:E; simpl.
  - apply Z.eqb_eq in E. intros H. right. split; lia.
  - apply Z.eqb_neq in E. intros H. left. lia.
Qed.

Lemma compareIssues_gt a b : (0 < compareIssues a b)%Z -> rankLe b a.
Proof.
  unfold compareIssues, rankLe.
  destruct (Z.eqb _ 0) eqn:E; simpl.
  - apply Z.eqb_eq in E. intros H. right. split; lia.
  - apply Z.eqb_neq in E. intros H. left. lia.
Qed.

Lemma rankLe_trans a b c : rankLe a b -> rankLe b c -> rankLe a c.
Proof. unfold rankLe. intros [?|[? ?]] [?|[? ?]]; [left|left|left|right]; lia. Qed.

Lemma sameClass_tie sev ln a b :
  sameClass sev ln a = true -> sameClass sev ln b = true -> compareIssues a b = 0%Z.
Proof.
  unfold sameClass, compareIssues. intros Ha Hb.
  apply andb_true_iff in Ha, Hb. destruct Ha as [Sa La], Hb as [Sb Lb].
  apply Nat.eqb_eq in La, Lb.
  assert (Issue.severity a = sev) by (destruct (Issue.severity a), sev; simpl in Sa; congruence).
  assert (Issue.severity b = sev) by (destruct (Issue.severity b), sev; simpl in Sb; congruence).
  replace (Issue.severity a) with sev. replace (Issue.severity b) with sev.
  rewrite Z.sub_diag. simpl. lia.
Qed.

Lemma ranked_sorted l : StronglySorted rankLe (sort compareIssues l).
Proof.
  apply sort_sorted.
  - exact compareIssues_le.
  - exact compareIssues_gt.
  - exact rankLe_trans.
Qed.

(* ================================================================== *)
(** * Facts about the collection phase                                 *)
(* ================================================================== *)

Lemma andThen_some (A B : Type) (o : option A) (f : A -> option B) r :
  andThen o f = Some r -> exists a, o = Some a /\ f a = Some r.
Proof. destruct o; simpl; [eauto | discriminate]. Qed.

Lemma progressiveTables_all T p :
  progressiveTables T = true -> In p (Tables.all T) -> progressive p = true.
Proof. unfold progressiveTables. rewrite forallb_forall. auto. Qed.

Lemma progressive_sub T ps :
  progressiveTables T = true -> incl ps (Tables.all T) ->
  forallb progressive ps = true.
Proof.
  intros H I. apply forallb_forall. intros p Hp.
  eapply progressiveTables_all; eauto.
Qed.

Ltac table_incl :=
  unfold Tables.all; intros ? ?; repeat (rewrite in_app_iff); tauto.

Lemma collectIssues_total T code language :
  progressiveTables T = true ->
  exists r, collectIssues T code language = Some r.
Proof.
  intros H. unfold collectIssues.
  assert (tot : forall ps, incl ps (Tables.all T) -> forall issues,
               exists r, applyPatterns code ps issues (Some language) = Some r).
  { intros ps I issues. apply applyPatterns_total. eapply progressive_sub; eauto. }
  destruct (tot (Tables.SECURITY T) ltac:(table_incl) []) as [i1 ->]. simpl.
  destruct (tot (Tables.RUNTIME T) ltac:(table_incl) i1) as [i2 ->]. simpl.
  assert (exists i3,
    match language with
    | javascript | typescript =>
        andThen (applyPatterns code (Tables.JS_TS T) i2 (Some language))
          (fun issues =>
             Some ((issues ++ checkMissingAwait code language)
                   ++ checkMissingReturn code language))
    | python => applyPatterns code (Tables.PYTHON T) i2 (Some language)
    | go => applyPatterns code (Tables.GO T) i2 (Some language)
    | rust => applyPatterns code (Tables.RUST T) i2 (Some language)
    | java => applyPatterns code (Tables.JAVA T) i2 (Some language)
    | cpp => applyPatterns code (Tables.CPP T) i2 (Some language)
    end = Some i3) as [i3 ->].
  { destruct language;
      try (destruct (tot (Tables.JS_TS T) ltac:(table_incl) i2) as [i3 ->]; simpl; eauto);
      apply tot; table_incl. }
  simpl. apply tot. table_incl.
Qed.

Lemma collectIssues_invariant T code language (P : list Issue -> Prop) :
  P [] ->
  (forall p, In p (Tables.all T) -> pushKeeps code (Some language) P p) ->
  (forall l, P l ->
             P ((l ++ checkMissingAwait code language)
                ++ checkMissingReturn code language)) ->
  forall r, collectIssues T code language = Some r -> P r.
Proof.
  intros H0 K S r. unfold collectIssues. intros E.
  assert (inv : forall ps issues r', incl ps (Tables.all T) -> P issues ->
               applyPatterns code ps issues (Some language) = Some r' -> P r').
  { intros ps issues r' I. apply applyPatterns_invariant. intros; apply K; auto. }
  apply andThen_some in E. destruct E as (i1 & E1 & E).
  apply andThen_some in E. destruct E as (i2 & E2 & E).
  apply andThen_some in E. destruct E as (i3 & E3 & E).
  apply (inv (Tables.SECURITY T) _ _ ltac:(table_incl) H0) in E1.
  apply (inv (Tables.RUNTIME T) _ _ ltac:(table_incl) E1) in E2.
  assert (P i3).
  { destruct language;
      try (eapply inv; [|eassumption|eassumption]; table_incl);
      apply andThen_some in E3; destruct E3 as (j & Ej & E3);
      injection E3 as <-; apply S;
      (eapply inv; [|eassumption|eassumption]; table_incl). }
  eapply inv; [|eassumption|eassumption]. table_incl.
Qed.

Lemma analyzeCodeIn_collect T code language cands :
  collectIssues T code language = Some cands ->
  analyzeCodeIn T code language
  = Some (firstn MAX_ISSUES (sort compareIssues cands)).
Proof. intros E. unfold analyzeCodeIn. rewrite E. reflexivity. Qed.

Lemma library_progressive : progressiveTables library = true.
Proof. vm_compute. reflexivity. Qed.

(* ================================================================== *)
(** * Ranking and the cap                                              *)
(* ================================================================== *)

(** The order of the comparator is the ranking order of the
    specification. *)
Lemma rankLe_ranksNoLower a b : rankLe a b <-> ranksNoLower a b.
Proof.
  unfold rankLe, ranksNoLower.
  destruct (Issue.severity a), (Issue.severity b); simpl; lia.
Qed.

Lemma ranked_sorted_spec l : StronglySorted ranksNoLower (sort compareIssues l).
Proof.
  pose proof (ranked_sorted l) as H.
  induction H as [|x r _ IH Hx]; constructor; [exact IH|].
  eapply Forall_impl; [|exact Hx]. intros b. apply rankLe_ranksNoLower.
Qed.

(** C3.  A scan returns at most 20 Issues, and they are the first 20
    of the candidates in the ranking order of the specification
    (severity weight 3, 2, 1 descending, then line ascending): the
    result is the 20-element prefix of the list that is a permutation
    of the candidates, is sorted in that order and keeps the discovery
    order inside each class of ties.  With more than 20 candidates the
    result has 20 Issues, and every Issue that was cut off ranks no
    higher than every Issue that was kept. *)
Theorem analyzeCode_cap_keeps_top_ranked :
  forall code language,
  exists cands ranked r,
    collectIssues library code language = Some cands
    /\ analyzeCode code language = Some r
    /\ length r <= 20
    /\ Permutation ranked cands
    /\ StronglySorted ranksNoLower ranked
    /\ (forall sev ln,
          filter (sameClass sev ln) ranked = filter (sameClass sev ln) cands)
    /\ r = firstn 20 ranked
    /\ (20 < length cands -> length r = 20)
    /\ (forall a b, In a r -> In b (skipn 20 ranked) -> ranksNoLower a b).
Proof.
  intros code language.
  destruct (@collectIssues_total library code language library_progressive)
    as [cands E].
  exists cands, (sort compareIssues cands), (firstn 20 (sort compareIssues cands)).
  assert (Hperm := sort_perm compareIssues cands).
  assert (Hsorted := ranked_sorted_spec cands).
  repeat split.
  - exact E.
  - unfold analyzeCode. rewrite (analyzeCodeIn_collect _ _ _ E). reflexivity.
  - apply firstn_le_length.
  - exact Hperm.
  - exact Hsorted.
  - intros sev ln. apply sort_stable. intros x y. apply sameClass_tie.
  - intros L. apply firstn_length_le.
    rewrite (Permutation_length Hperm). lia.
  - intros a b. apply StronglySorted_split. exact Hsorted.
Qed.

(** C4.  Adjacent Issues of a result are in ranking order, with the
    weights 3, 2 and 1, and the Issues of one severity on one line
    appear in the order in which the scan found them. *)
Theorem analyzeCode_result_is_ranked_and_stable :
  forall code language,
  exists cands r,
    collectIssues library code language = Some cands
    /\ analyzeCode code language = Some r
    /\ (forall n a b,
          nth_error r n = Some a -> nth_error r (S n) = Some b ->
          (severityWeight (Issue.severity a) > severityWeight (Issue.severity b))%Z
          \/ (severityWeight (Issue.severity a) = severityWeight (Issue.severity b)
              /\ Issue.line a <= Issue.line b))
    /\ (severityWeight Critical = 3 /\ severityWeight Warning = 2
        /\ severityWeight Info = 1)%Z
    /\ (forall sev ln,
          isPrefixOf (filter (sameClass sev ln) r) (filter (sameClass sev ln) cands)).
Proof.
  intros code language.
  destruct (@collectIssues_total library code language library_progressive)
    as [cands E].
  exists cands, (firstn MAX_ISSUES (sort compareIssues cands)).
  split; [exact E|]. split.
  { unfold analyzeCode. apply analyzeCodeIn_collect. exact E. }
  split.
  { intros n a b Ha Hb.
    change (rankLe a b).
    eapply StronglySorted_adjacent; [|exact Ha|exact Hb].
    apply StronglySorted_firstn. apply ranked_sorted. }
  split; [repeat split|].
  intros sev ln.
  rewrite <- (@sort_stable _ compareIssues (sameClass sev ln)
                (@sameClass_tie sev ln) cands).
  apply filter_firstn_prefix.
Qed.

(* ================================================================== *)
(** * The health score                                                 *)
(* ================================================================== *)

Lemma deduct_from (l : list Issue) (d0 : Z) :
  fold_left
    (fun deduct i =>
       let deduct := if Severity_eqb (Issue.severity i) Critical then deduct + 15 else deduct in
       let deduct := if Severity_eqb (Issue.severity i) Warning then deduct + 5 else deduct in
       if Severity_eqb (Issue.severity i) Info then deduct + 1 else deduct)%Z
    l d0
  = (d0 + 15 * countSeverity Critical l + 5 * countSeverity Warning l
     + 1 * countSeverity Info l)%Z.
Proof.
  revert d0. induction l as [|i l IH]; intros d0.
  - unfold countSeverity. simpl. lia.
  - simpl fold_left. rewrite IH. unfold countSeverity. simpl filter.
    destruct (Issue.severity i); simpl Severity_eqb; cbv iota; simpl length; lia.
Qed.

(** C8.  The health score is 100 minus 15 per Critical, 5 per Warning
    and 1 per Info Issue, clamped at 0. *)
Theorem finalScore_formula_and_clamp :
  forall foundIssues,
    finalScore foundIssues
    = Z.max 0 (100 - (15 * countSeverity Critical foundIssues
                      + 5 * countSeverity Warning foundIssues
                      + 1 * countSeverity Info foundIssues))
    /\ (0 <= finalScore foundIssues)%Z.
Proof.
  intros l. unfold finalScore, deduct. rewrite deduct_from. split.
  - f_equal; lia.
  - lia.
Qed.

(* ================================================================== *)
(** * The supplementary checks                                         *)
(* ================================================================== *)

Lemma in_combine_seq (A : Type) (l : list A) a x i :
  In (x, i) (combine l (seq a (length l))) <->
  (a <= i /\ nth_error l (i - a) = Some x).
Proof.
  revert a. induction l as [|y l IH]; intros a; simpl.
  - split; [contradiction|]. intros [_ H]. destruct (i - a); discriminate.
  - rewrite IH. split.
    + intros [H|[H1 H2]].
      * injection H as -> ->. rewrite Nat.sub_diag. auto.
      * split; [lia|]. replace (i - a) with (S (i - S a)) by lia. exact H2.
    + intros [H1 H2]. destruct (i - a) as [|k] eqn:E.
      * left. simpl in H2. injection H2 as ->. f_equal. lia.
      * right. split; [lia|]. replace (i - S a) with k by lia. exact H2.
Qed.

Lemma in_indexedLines code line idx :
  In (line, idx) (indexedLines code) <-> nth_error (split code LF) idx = Some line.
Proof.
  unfold indexedLines. rewrite in_combine_seq, Nat.sub_0_r.
  split; [tauto | split; [lia | assumption]].
Qed.

Lemma in_checkMissingAwait code language i :
  In i (checkMissingAwait code language) <->
  (isJsOrTs language = true /\
   exists line idx, nth_error (split code LF) idx = Some line
                    /\ fetchWithoutAwait line = true
                    /\ i = missingAwaitIssue line idx).
Proof.
  unfold checkMissingAwait. destruct (isJsOrTs language); simpl.
  - rewrite in_flat_map. split.
    + intros ([line idx] & Hin & Hi). split; [reflexivity|].
      apply in_indexedLines in Hin. exists line, idx.
      destruct (fetchWithoutAwait line); simpl in Hi; [|contradiction].
      destruct Hi as [<-|[]]. auto.
    + intros (_ & line & idx & Hn & Hf & ->). exists (line, idx).
      split; [apply in_indexedLines; exact Hn|]. rewrite Hf. left. reflexivity.
  - split; [contradiction | intros [? _]; discriminate].
Qed.

Lemma includes_indexOf s p : includes s p = true -> exists i, indexOf s p = Some i.
Proof. unfold includes. destruct (indexOf s p); [eauto | discriminate]. Qed.

Lemma replace_found_nonempty s p r :
  includes s p = true -> r <> [] -> replace s p r <> [].
Proof.
  intros H Hr. apply includes_indexOf in H. destruct H as [i H].
  unfold replace. rewrite H. intros E.
  apply app_eq_nil in E. destruct E as [_ E].
  apply app_eq_nil in E. destruct E as [E _]. contradiction.
Qed.

Lemma returnStep_found (Q : Issue -> Prop) st entry :
  (forall n, Q (missingReturnIssue n)) ->
  Forall Q (found st) -> Forall Q (found (returnStep st entry)).
Proof.
  intros HQ H. destruct entry as [line i]. unfold returnStep.
  destruct (test getterHeader line); simpl.
  - destruct (_ && _); simpl; [|exact H].
    destruct (includes line (str "return ")); simpl; [exact H|].
    apply Forall_app. split; [exact H | constructor; [apply HQ | constructor]].
  - destruct (insideFunc st); [|exact H].
    destruct (_ && _); simpl; [|exact H].
    destruct (if includes line (str "return ") then false else expectedReturn st);
      [|exact H].
    apply Forall_app. split; [exact H | constructor; [apply HQ | constructor]].
Qed.

Lemma checkMissingReturn_all (Q : Issue -> Prop) code language :
  (forall n, Q (missingReturnIssue n)) ->
  Forall Q (checkMissingReturn code language).
Proof.
  intros HQ. unfold checkMissingReturn.
  destruct (negb (isJsOrTs language)); [constructor|].
  assert (G : forall entries st,
             Forall Q (found st) -> Forall Q (found (fold_left returnStep entries st))).
  { induction entries as [|e es IH]; intros st H; simpl; [exact H|].
    apply IH. apply returnStep_found; assumption. }
  apply G. constructor.
Qed.



(* ================================================================== *)
(** * Language detection                                               *)
(* ================================================================== *)

(** C9.  [detectLanguage] returns one of the seven languages on every
    text; it returns the language of the first condition that holds,
    and [javascript] when none does; on the empty text it returns
    [javascript]. *)
Theorem detectLanguage_total_with_javascript_default :
  forall code,
    In (detectLanguage code) [javascript; typescript; python; go; rust; java; cpp]
    /\ detectLanguage code
       = match find (fun fp => fst fp code) fingerprints with
         | Some (_, language) => language
         | None => javascript
         end
    /\ ((forall fp, In fp fingerprints -> fst fp code = false) ->
        detectLanguage code = javascript)
    /\ detectLanguage (str "") = javascript.
Proof.
  intros code.
  assert (W : detectLanguage code
              = match find (fun fp => fst fp code) fingerprints with
                | Some (_, language) => language
                | None => javascript
                end).
  { unfold detectLanguage, fingerprints. cbn [find fst].
    repeat match goal with
           | |- context [if ?f code then _ else _] => destruct (f code); [reflexivity|]
           end.
    reflexivity. }
  split; [|split; [exact W|split]].
  - destruct (detectLanguage code); simpl; tauto.
  - intros H. rewrite W.
    destruct (find _ fingerprints) as [[f l]|] eqn:F; [|reflexivity].
    apply find_some in F. destruct F as [Hin Hf].
    rewrite (H _ Hin) in Hf. discriminate.
  - vm_compute. reflexivity.
Qed.

(* ================================================================== *)
(** * Deduplication                                                    *)
(* ================================================================== *)

(** ** Lists whose ordered pairs satisfy a relation *)

Section OrdPairs.
Variable A : Type.
Variable R : A -> A -> Prop.

Lemma FOP_app (l l' : list A) :
  ForallOrdPairs R l -> ForallOrdPairs R l' ->
  (forall a b, In a l -> In b l' -> R a b) ->
  ForallOrdPairs R (l ++ l').
Proof.
  induction 1 as [|x l Hx Hl IH]; intros H' X; simpl; [exact H'|].
  constructor.
  - apply Forall_app. split; [exact Hx|].
    apply Forall_forall. intros b Hb. apply X; [left; reflexivity | exact Hb].
  - apply IH; [exact H'|]. intros a b Ha Hb. apply X; [right; exact Ha | exact Hb].
Qed.

Lemma FOP_firstn n (l : list A) :
  ForallOrdPairs R l -> ForallOrdPairs R (firstn n l).
Proof.
  intros H. revert n. induction H as [|x l Hx Hl IH]; intros [|n]; simpl;
    try constructor.
  - apply Forall_forall. intros y Hy. rewrite Forall_forall in Hx. apply Hx.
    rewrite <- (firstn_skipn n l). apply in_or_app. left. exact Hy.
  - apply IH.
Qed.

Lemma FOP_nth (l : list A) :
  ForallOrdPairs R l ->
  forall p q a b, p < q -> nth_error l p = Some a -> nth_error l q = Some b -> R a b.
Proof.
  induction 1 as [|x l Hx Hl IH]; intros p q a b Hpq Ha Hb.
  - destruct p; discriminate.
  - destruct q as [|q]; [lia|]. simpl in Hb. destruct p as [|p]; simpl in Ha.
    + injection Ha as <-. rewrite Forall_forall in Hx. apply Hx.
      eapply nth_error_In. exact Hb.
    + apply (IH p q); [lia | exact Ha | exact Hb].
Qed.

Hypothesis R_sym : forall a b, R a b -> R b a.

Lemma FOP_perm (l l' : list A) :
  Permutation l l' -> ForallOrdPairs R l -> ForallOrdPairs R l'.
Proof.
  induction 1 as [|x l l' HP IH|x y l|l l' l'' _ IH1 _ IH2]; intros H.
  - exact H.
  - inversion H as [|? ? Hx Hl]; subst. constructor.
    + eapply Permutation_Forall; eassumption.
    + apply IH. exact Hl.
  - inversion H as [|? ? Hy Hl]; subst.
    inversion Hl as [|? ? Hx Hl']; subst.
    inversion Hy as [|? ? Hyx Hy']; subst.
    constructor; [constructor; [apply R_sym; exact Hyx | exact Hx]|].
    constructor; assumption.
  - auto.
Qed.
End OrdPairs.

(** ** Rule ids *)

Lemma startsWith_app p q : startsWith (p ++ q) p = true.
Proof.
  induction p as [|c p IH]; simpl; [destruct q; reflexivity|].
  rewrite N.eqb_refl. exact IH.
Qed.

Lemma dropDigits_suffix l : exists pre, l = pre ++ dropDigits l.
Proof.
  induction l as [|c l [pre IH]]; simpl.
  - exists []. reflexivity.
  - destruct (isDigit c).
    + exists (c :: pre). simpl. f_equal. exact IH.
    + exists []. reflexivity.
Qed.

Lemma dropHyphen_suffix l : exists pre, l = pre ++ dropHyphen l.
Proof.
  destruct l as [|c l]; [exists []; reflexivity|].
  destruct (N.eq_dec c 45) as [->|Hc].
  - exists [45%N]. reflexivity.
  - exists []. simpl. destruct c as [|p]; [reflexivity|].
    do 6 (destruct p as [p|p|]; try reflexivity). congruence.
Qed.

(** The rule id of an Issue is a prefix of its id. *)
Lemma ruleId_prefix i : startsWith (Issue.id i) (ruleId i) = true.
Proof.
  unfold ruleId.
  destruct (dropDigits_suffix (rev (Issue.id i))) as [p1 E1].
  destruct (dropHyphen_suffix (dropDigits (rev (Issue.id i)))) as [p2 E2].
  rewrite E2 in E1.
  assert (E : Issue.id i
              = rev (dropHyphen (dropDigits (rev (Issue.id i)))) ++ rev (p1 ++ p2)).
  { rewrite <- rev_app_distr, <- app_assoc, <- E1, rev_involutive. reflexivity. }
  rewrite E at 1. apply startsWith_app.
Qed.

Lemma digits_of_uint d : Forall (fun c => isDigit c = true) (str (NilEmpty.string_of_uint d)).
Proof. induction d; simpl; constructor; auto. Qed.

Lemma decimal_digits n : Forall (fun c => isDigit c = true) (decimal n).
Proof.
  unfold decimal, NilZero.string_of_uint.
  destruct (Nat.to_uint n) eqn:E; try (rewrite <- E; apply digits_of_uint).
  repeat constructor.
Qed.

Lemma dropDigits_app ds l :
  Forall (fun c => isDigit c = true) ds -> dropDigits (ds ++ l) = dropDigits l.
Proof. induction 1 as [|c ds Hc _ IH]; simpl; [reflexivity|]. rewrite Hc. exact IH. Qed.

(** The id built from a rule id, a hyphen and a number has that rule id. *)
Lemma ruleId_built i pid n :
  Issue.id i = pid ++ str "-" ++ decimal n -> ruleId i = pid.
Proof.
  intros E. unfold ruleId. rewrite E.
  rewrite rev_app_distr. simpl str. rewrite rev_app_distr. simpl rev at 2.
  rewrite <- app_assoc. rewrite dropDigits_app.
  - simpl. apply rev_involutive.
  - apply Forall_rev. apply decimal_digits.
Qed.

Lemma missingAwaitIssue_supplementary line idx :
  supplementary (missingAwaitIssue line idx).
Proof.
  left. apply ruleId_built with (n := idx). reflexivity.
Qed.

Lemma missingReturnIssue_supplementary n : supplementary (missingReturnIssue n).
Proof.
  right. apply ruleId_built with (n := n). reflexivity.
Qed.

(** ** The invariant of the scan *)

Lemma apart_sym a b : apart a b -> apart b a.
Proof.
  unfold apart, clash, supplementary. intros H [E1 E2].
  rewrite E1. apply H. split; congruence.
Qed.

Lemma alreadyReported_false issues pattern index :
  alreadyReported issues pattern index = false ->
  forall a, In a issues ->
            Issue.startIndex a = index ->
            startsWith (Issue.id a) (Pattern.id pattern) = false.
Proof.
  unfold alreadyReported. intros H a Ha Hs.
  assert (X : forall l, existsb (fun i => Nat.eqb (Issue.startIndex i) index
                               && startsWith (Issue.id i) (Pattern.id pattern)) l = false ->
              In a l -> Nat.eqb (Issue.startIndex a) index
                        && startsWith (Issue.id a) (Pattern.id pattern) = false).
  { induction l as [|x l IH]; simpl; [contradiction|].
    intros E [->|Hin]; apply orb_false_iff in E; destruct E; auto. }
  specialize (X issues H Ha). rewrite Hs, Nat.eqb_refl in X. exact X.
Qed.

Lemma push_keeps_apart code language pattern :
  pushKeeps code language (ForallOrdPairs apart) pattern.
Proof.
  intros issues index m0 replacement H _ A.
  apply FOP_app; [exact H | repeat constructor|].
  intros a b Ha [<-|[]] [E1 E2]. exfalso.
  simpl in E2.
  rewrite (@ruleId_built (newIssue code pattern index m0 replacement)
             (Pattern.id pattern) index eq_refl) in E1.
  pose proof (alreadyReported_false _ _ A a Ha E2) as F.
  rewrite <- E1, ruleId_prefix in F. discriminate.
Qed.

Lemma collected_apart T code language r :
  collectIssues T code language = Some r -> ForallOrdPairs apart r.
Proof.
  apply collectIssues_invariant.
  - constructor.
  - intros p _. apply push_keeps_apart.
  - intros l H.
    assert (S : forall b, In b (checkMissingAwait code language)
                          \/ In b (checkMissingReturn code language) ->
                          supplementary b).
    { intros b [Hb|Hb].
      - apply in_checkMissingAwait in Hb.
        destruct Hb as (_ & line & idx & _ & _ & ->).
        apply missingAwaitIssue_supplementary.
      - pose proof (@checkMissingReturn_all supplementary code language
                      missingReturnIssue_supplementary) as F.
        rewrite Forall_forall in F. auto. }
    assert (Sup : forall l', (forall b, In b l' -> supplementary b) ->
                             ForallOrdPairs apart l').
    { induction l' as [|x l' IH]; intros HS; constructor.
      - apply Forall_forall. intros y _ _. apply HS. left. reflexivity.
      - apply IH. intros; apply HS; right; assumption. }
    assert (Mix : forall l0 l', ForallOrdPairs apart l0 ->
                   (forall b, In b l' -> supplementary b) ->
                   ForallOrdPairs apart (l0 ++ l')).
    { intros l0 l' H0 HS. apply FOP_app; [exact H0 | apply Sup; exact HS|].
      intros a b _ Hb. apply apart_sym. intros _. apply HS. exact Hb. }
    apply Mix; [apply Mix; [exact H|] |]; intros b Hb; apply S; auto.
Qed.

(** No rule of the tables bears the id of a supplementary check. *)
Lemma library_ids_not_supplementary :
  Forall (fun id => id <> str "missing-await-fetch" /\ id <> str "missing-return")
         (map Pattern.id (Tables.all library)).
Proof. vm_compute. repeat constructor; intro; discriminate. Qed.

Lemma collected_supplementary_at_zero code language r :
  collectIssues library code language = Some r ->
  Forall (fun a => supplementary a -> Issue.startIndex a = 0) r.
Proof.
  apply collectIssues_invariant.
  - constructor.
  - intros p Hp issues index m0 replacement H _ _.
    apply Forall_app. split; [exact H|]. constructor; [|constructor].
    clear H. intros [S|S];
      rewrite (@ruleId_built (newIssue code p index m0 replacement)
                 (Pattern.id p) index eq_refl) in S;
      pose proof library_ids_not_supplementary as F;
      rewrite Forall_forall in F;
      destruct (F (Pattern.id p) (in_map Pattern.id _ _ Hp)); contradiction.
  - intros l H. rewrite <- app_assoc. apply Forall_app. split; [exact H|].
    apply Forall_app. split.
    + apply Forall_forall. intros a Ha _.
      apply in_checkMissingAwait in Ha.
      destruct Ha as (_ & line & idx & _ & _ & ->). reflexivity.
    + apply checkMissingReturn_all. reflexivity.
Qed.

(* ================================================================== *)
(** * The context filter                                               *)
(* ================================================================== *)

(** ** The filter of the source computes what the specification says *)

Lemma startsWith_true s p : startsWith s p = true <-> exists rest, s = p ++ rest.
Proof.
  revert s. induction p as [|c p IH]; intros s.
  - split; [exists s; reflexivity | destruct s; reflexivity].
  - destruct s as [|d s]; simpl.
    + split; [discriminate | intros [rest H]; discriminate].
    + rewrite andb_true_iff, N.eqb_eq, IH. split.
      * intros [-> [rest ->]]. exists rest. reflexivity.
      * intros [rest H]. injection H as -> ->. eauto.
Qed.

Lemma indexOf_nil p : indexOf [] p = if startsWith [] p then Some 0 else None.
Proof. reflexivity. Qed.

Lemma indexOf_cons d s p :
  indexOf (d :: s) p
  = if startsWith (d :: s) p then Some 0 else option_map S (indexOf s p).
Proof. reflexivity. Qed.

Lemma includes_contains s p : includes s p = true <-> contains s p.
Proof.
  unfold includes, contains. split.
  - assert (G : forall t i, indexOf t p = Some i ->
                            exists before after, t = before ++ p ++ after).
    { intros s0. induction s0 as [|d s0 IH]; intros i;
        [rewrite indexOf_nil | rewrite indexOf_cons].
      - destruct (startsWith [] p) eqn:E; [|discriminate].
        intros _. apply startsWith_true in E. destruct E as [rest E].
        exists [], rest. exact E.
      - destruct (startsWith (d :: s0) p) eqn:E.
        + intros _. apply startsWith_true in E. destruct E as [rest E].
          exists [], rest. exact E.
        + destruct (indexOf s0 p) as [j|] eqn:F; [|discriminate].
          intros _. destruct (IH j eq_refl) as (b & a & ->).
          exists (d :: b), a. reflexivity. }
    destruct (indexOf s p) as [i|] eqn:E; [|discriminate].
    intros _. eapply G. exact E.
  - intros (before & after & ->).
    assert (G : exists i, indexOf (before ++ p ++ after) p = Some i).
    { induction before as [|d before [i IH]]; simpl app.
      - assert (E : startsWith (p ++ after) p = true)
          by (apply startsWith_true; eauto).
        destruct (p ++ after); [rewrite indexOf_nil | rewrite indexOf_cons];
          rewrite E; eauto.
      - rewrite indexOf_cons.
        destruct (startsWith _ p); [eauto|]. rewrite IH. simpl. eauto. }
    destruct G as [i ->]. reflexivity.
Qed.

Lemma countChar_count_occ s c : countChar s c = count_occ N.eq_dec s c.
Proof.
  unfold countChar. induction s as [|d s IH]; simpl; [reflexivity|].
  destruct (N.eq_dec d c) as [->|Hn].
  - rewrite N.eqb_refl. simpl. f_equal. exact IH.
  - destruct (N.eqb c d) eqn:E; [apply N.eqb_eq in E; congruence | exact IH].
Qed.

Lemma mod2_is_1_Odd n : Nat.eqb (n mod 2) 1 = true <-> Nat.Odd n.
Proof.
  rewrite Nat.eqb_eq. split.
  - intros H. exists (n / 2). rewrite (Nat.div_mod_eq n 2) at 1. lia.
  - intros [m ->]. rewrite Nat.add_comm, Nat.mul_comm, Nat.Div0.mod_add. reflexivity.
Qed.

Lemma lastIndexOf_cons d s c :
  lastIndexOf (d :: s) c
  = if Z.ltb (lastIndexOf s c) 0
    then (if N.eqb d c then 0 else -1)%Z
    else (lastIndexOf s c + 1)%Z.
Proof. simpl. destruct (lastIndexOf s c); reflexivity. Qed.

Lemma skipn_succ_cons (d : N) s z :
  (0 <= z)%Z -> skipn (Z.to_nat (z + 1)) (d :: s) = skipn (Z.to_nat z) s.
Proof. intros H. replace (Z.to_nat (z + 1)) with (S (Z.to_nat z)) by lia. reflexivity. Qed.

Lemma lastIndexOf_split s c :
  (-1 <= lastIndexOf s c < Z.of_nat (length s))%Z
  /\ ((lastIndexOf s c < 0)%Z -> split s c = [s])
  /\ ((0 <= lastIndexOf s c)%Z -> 2 <= length (split s c))
  /\ skipn (Z.to_nat (lastIndexOf s c + 1)) s = last (split s c) [].
Proof.
  induction s as [|d s (R & Hneg & Hpos & Hlast)].
  - simpl. repeat split; try lia; reflexivity.
  - rewrite lastIndexOf_cons. simpl split. simpl length.
    destruct (Z.ltb (lastIndexOf s c) 0) eqn:L.
    + (* no separator in the tail *)
      apply Z.ltb_lt in L. rewrite (Hneg L).
      destruct (N.eqb d c); simpl; repeat split; try lia; reflexivity.
    + (* the last separator lies in the tail *)
      apply Z.ltb_ge in L. specialize (Hpos L).
      rewrite (@skipn_succ_cons d s (lastIndexOf s c + 1) ltac:(lia)), Hlast.
      destruct (split s c) as [|piece [|p2 rest]]; simpl in Hpos; try lia.
      destruct (N.eqb d c); simpl length; repeat split; try lia; reflexivity.
Qed.

Lemma substring_from_0 code index : substring code 0 index = firstn index code.
Proof. unfold substring. simpl. rewrite Nat.sub_0_r. reflexivity. Qed.

(** The [lineContent] of the source is the line prefix of the
    specification. *)
Lemma lineContent_is_linePrefix code index :
  substring code (Z.to_nat (lastIndexOf (substring code 0 index) LF + 1)) index
  = linePrefix code index.
Proof.
  rewrite substring_from_0. unfold linePrefix.
  destruct (lastIndexOf_split (firstn index code) LF) as (R & _ & _ & <-).
  set (ls := Z.to_nat (lastIndexOf (firstn index code) LF + 1)).
  assert (Hls : ls <= index).
  { pose proof (firstn_le_length index code). unfold ls. lia. }
  unfold substring. rewrite Nat.min_l, Nat.max_r by lia.
  symmetry. apply skipn_firstn_comm.
Qed.

Lemma isInsideCommentOrString_spec code index language :
  isInsideCommentOrString code index language = true
  <-> suppressedAt code index language.
Proof.
  unfold isInsideCommentOrString, suppressedAt.
  rewrite lineContent_is_linePrefix.
  set (prefix := linePrefix code index).
  rewrite <- !includes_contains, <- !mod2_is_1_Odd, <- !countChar_count_occ.
  destruct (includes prefix (str "//")) eqn:I1;
    destruct (includes prefix (str "#")) eqn:I2;
    destruct (Nat.eqb (countChar prefix DQ mod 2) 1) eqn:Q1;
    destruct (Nat.eqb (countChar prefix SQ mod 2) 1) eqn:Q2;
    destruct language; simpl;
      (split; [intros H; try discriminate H;
               first [ left; split; [discriminate | reflexivity]
                     | right; left; split; reflexivity
                     | right; right; left; reflexivity
                     | right; right; right; reflexivity ]
              | intros [[H1 H2]|[[H1 H2]|[H|H]]];
                try reflexivity; try discriminate; try congruence ]).
Qed.

(** ** No reported offset is suppressed *)

Lemma offset_0_not_suppressed code language :
  isInsideCommentOrString code 0 language = false.
Proof. destruct language; reflexivity. Qed.

Lemma collected_not_suppressed T code language r :
  collectIssues T code language = Some r ->
  Forall (fun a => isInsideCommentOrString code (Issue.startIndex a) language = false) r.
Proof.
  apply collectIssues_invariant.
  - constructor.
  - intros p _ issues index m0 replacement H S _.
    apply Forall_app. split; [exact H|]. constructor; [exact S | constructor].
  - intros l H. rewrite <- app_assoc. apply Forall_app. split; [exact H|].
    apply Forall_app. split.
    + apply Forall_forall. intros a Ha.
      apply in_checkMissingAwait in Ha.
      destruct Ha as (_ & line & idx & _ & _ & ->). apply offset_0_not_suppressed.
    + apply checkMissingReturn_all. intros n. apply offset_0_not_suppressed.
Qed.

(** C6.  When the prefix of the line of an offset, up to that offset,
    contains the comment marker of the language or an odd number of
    double or of single quotes, the result holds no Issue, of whatever
    rule, that starts at that offset. *)
Theorem suppressed_offsets_are_never_reported :
  forall code language index,
    suppressedAt code index language ->
    exists r,
      analyzeCode code language = Some r
      /\ forall a rule,
          In a r -> ~ (ruleId a = rule /\ Issue.startIndex a = index).
Proof.
  intros code language index S.
  destruct (@collectIssues_total library code language library_progressive)
    as [cands E].
  exists (firstn MAX_ISSUES (sort compareIssues cands)).
  split; [apply analyzeCodeIn_collect; exact E|].
  intros a rule Ha [_ Hi].
  pose proof (collected_not_suppressed _ _ _ E) as F.
  rewrite Forall_forall in F.
  assert (Hin : In a cands).
  { apply (Permutation_in a (sort_perm compareIssues cands)).
    rewrite <- (firstn_skipn MAX_ISSUES (sort compareIssues cands)).
    apply in_or_app. left. exact Ha. }
  apply F in Hin. rewrite Hi in Hin.
  apply isInsideCommentOrString_spec in S. congruence.
Qed.

Lemma suppressed_offsets_are_never_reported_witness :
  exists r,
    analyzeCode (str "// eval(x) is unsafe" ++ [LF] ++ str "eval(userInput);")
                javascript = Some r
    /\ forall a rule, In a r -> ~ (ruleId a = rule /\ Issue.startIndex a = 3).
Proof.
  apply suppressed_offsets_are_never_reported.
  left. split; [discriminate|]. exists [], (str " "). reflexivity.
Defined.

(* ================================================================== *)
(** * Totality and the isolation of failing rules                      *)
(* ================================================================== *)

Lemma applyPatterns_app code language before after :
  forall issues,
    applyPatterns code (before ++ after) issues language
    = andThen (applyPatterns code before issues language)
              (fun mid => applyPatterns code after mid language).
Proof.
  induction before as [|p ps IH]; intros issues; simpl; [reflexivity|].
  destruct (scanPattern code p language issues); auto.
Qed.

Lemma scanPattern_extends code pattern language issues :
  holdsAfter (fun l => exists kept, l = issues ++ kept)
             (scanPattern code pattern language issues).
Proof.
  apply matchLoop_invariant.
  - intros l index m0 replacement [kept ->] _ _.
    exists (kept ++ [newIssue code pattern index m0 replacement]).
    symmetry. apply app_assoc.
  - exists []. symmetry. apply app_nil_r.
Qed.

(** A rule whose correction always throws leaves the array as it found it. *)
Lemma matchLoop_always_throws code pattern language :
  (forall m, Pattern.correction pattern m = Throw) ->
  forall fuel re issues,
    match matchLoop fuel code pattern language re issues with
    | Finished l | Threw l => l = issues
    | Hangs => True
    end.
Proof.
  intros B. induction fuel as [|fuel IH]; intros re issues; simpl; [exact I|].
  destruct (exec re code) as [[[i m]|] re']; [|reflexivity].
  destruct (suppressed code i language); [apply IH|].
  destruct (alreadyReported issues pattern i); [apply IH|].
  rewrite B. reflexivity.
Qed.

Lemma analyzeCodeIn_total T code language :
  progressiveTables T = true ->
  exists r, analyzeCodeIn T code language = Some r.
Proof.
  intros H. destruct (@collectIssues_total T code language H) as [cands E].
  eexists. apply analyzeCodeIn_collect. exact E.
Qed.

(** C5.  A scan always returns a result: on the tables of the module,
    and on any tables whose patterns cannot match the empty string,
    whatever their corrections do.  When the correction of a rule
    throws, the Issues pushed so far stay, the rule pushes nothing
    more, and the remaining rules are applied to that array; a rule
    whose correction throws on every match is as good as absent. *)
Theorem analyzeCode_total_and_rule_failures_are_isolated :
  (forall code language, exists r, analyzeCode code language = Some r)
  /\ (forall T code language,
        progressiveTables T = true ->
        exists r, analyzeCodeIn T code language = Some r)
  /\ (forall code language before p after issues mid mid',
        applyPatterns code before issues language = Some mid ->
        scanPattern code p language mid = Threw mid' ->
        (exists kept, mid' = mid ++ kept)
        /\ applyPatterns code (before ++ p :: after) issues language
           = applyPatterns code after mid' language)
  /\ (forall code language before p after issues,
        progressive p = true ->
        (forall m, Pattern.correction p m = Throw) ->
        applyPatterns code (before ++ p :: after) issues language
        = applyPatterns code (before ++ after) issues language).
Proof.
  split; [|split; [|split]].
  - intros code language. apply analyzeCodeIn_total. exact library_progressive.
  - intros T code language. apply analyzeCodeIn_total.
  - intros code language before p after issues mid mid' E S. split.
    + pose proof (scanPattern_extends code p language mid) as X.
      rewrite S in X. exact X.
    + rewrite applyPatterns_app, E. simpl. rewrite S. reflexivity.
  - intros code language before p after issues Hp B.
    rewrite !applyPatterns_app.
    destruct (applyPatterns code before issues language) as [mid|]; [|reflexivity].
    simpl.
    pose proof (@matchLoop_always_throws code p language B (S (length code))
                  (newRegExp (Pattern.regex p) "g") mid) as X.
    fold (scanPattern code p language mid) in X.
    pose proof (@scanPattern_terminates code p language mid Hp) as Tm.
    destruct (scanPattern code p language mid); try congruence; subst; reflexivity.
Qed.

Lemma analyzeCode_total_and_rule_failures_are_isolated_witness :
  applyPatterns (str "eval(x); while(true)")
                ([] ++ brokenRule :: RUNTIME_PATTERNS) [] (Some javascript)
  = applyPatterns (str "eval(x); while(true)")
                  ([] ++ RUNTIME_PATTERNS) [] (Some javascript).
Proof.
  apply (proj2 (proj2 (proj2 analyzeCode_total_and_rule_failures_are_isolated))).
  - reflexivity.
  - intros m. reflexivity.
Defined.

(* ================================================================== *)
(** * Determinism                                                      *)
(* ================================================================== *)

Lemma matchLoop_touch n code pattern language :
  forall fuel re issues,
    matchLoop fuel code (touch n pattern) language re issues
    = matchLoop fuel code pattern language re issues.
Proof.
  induction fuel as [|fuel IH]; intros re issues; simpl; [reflexivity|].
  destruct (exec re code) as [[[i m]|] re']; [|reflexivity].
  destruct (suppressed code i language); [apply IH|].
  change (alreadyReported issues (touch n pattern) i)
    with (alreadyReported issues pattern i).
  destruct (alreadyReported issues pattern i); [apply IH|].
  destruct (Pattern.correction pattern m); [|reflexivity].
  apply IH.
Qed.

(** The loop runs on a fresh RegExp object built from the source of the
    rule, so the [lastIndex] of the rule object is never read. *)
Lemma scanPattern_touch n code pattern language issues :
  scanPattern code (touch n pattern) language issues
  = scanPattern code pattern language issues.
Proof. unfold scanPattern. apply matchLoop_touch. Qed.

Lemma applyPatterns_touch st code language patterns :
  forall issues,
    applyPatterns code (map (fun p => touch (st p) p) patterns) issues language
    = applyPatterns code patterns issues language.
Proof.
  induction patterns as [|p ps IH]; intros issues; simpl; [reflexivity|].
  rewrite scanPattern_touch.
  destruct (scanPattern code p language issues); auto.
Qed.

Lemma collectIssues_touch st T code language :
  collectIssues (touchTables st T) code language = collectIssues T code language.
Proof.
  unfold collectIssues, touchTables.
  cbn [Tables.SECURITY Tables.RUNTIME Tables.QUALITY Tables.JS_TS Tables.PYTHON
       Tables.JAVA Tables.GO Tables.RUST Tables.CPP].
  rewrite applyPatterns_touch.
  destruct (applyPatterns code (Tables.SECURITY T) [] (Some language)) as [i1|];
    [|reflexivity].
  cbn [andThen]. rewrite applyPatterns_touch.
  destruct (applyPatterns code (Tables.RUNTIME T) i1 (Some language)) as [i2|];
    [|reflexivity].
  cbn [andThen].
  assert (Q : forall i3,
             applyPatterns code (map (fun p => touch (st p) p) (Tables.QUALITY T))
                           i3 (Some language)
             = applyPatterns code (Tables.QUALITY T) i3 (Some language))
    by (intros; apply applyPatterns_touch).
  destruct language; rewrite applyPatterns_touch;
    match goal with
    | |- context [applyPatterns code ?ps i2 ?l] =>
        destruct (applyPatterns code ps i2 l) as [i3|]; [|reflexivity]
    end;
    cbn [andThen]; apply Q.
Qed.

(** C7.  The result of a scan is a function of the text and the
    language alone: whatever [lastIndex] the RegExp objects of the
    rules carry when the scan starts, the scan returns the sequence it
    returns on the tables as loaded, Issue by Issue and field by field;
    and the scan hands back no rule object, so a second call meets the
    tables the first one met. *)
Theorem analyzeCode_is_deterministic :
  forall (st st' : Pattern -> nat) code language,
    analyzeCodeIn (touchTables st library) code language
    = analyzeCodeIn (touchTables st' library) code language
    /\ analyzeCodeIn (touchTables st library) code language
       = analyzeCode code language.
Proof.
  assert (G : forall st code language,
             analyzeCodeIn (touchTables st library) code language
             = analyzeCode code language).
  { intros st code language. unfold analyzeCode, analyzeCodeIn.
    rewrite collectIssues_touch. reflexivity. }
  intros st st' code language. split; [rewrite !G; reflexivity | apply G].
Qed.

(* ================================================================== *)
(** * The scenarios of the specification                               *)
(* ================================================================== *)

Example scenario_isEmpty :
  summary (analyzeCode (str "const a = []; a.isEmpty();") javascript)
  = Some [(str "hallucinated-isempty-15", 1, Critical, (15, 25), str ".length === 0")].
Proof. vm_compute. reflexivity. Qed.

Example scenario_mutable_default :
  summary (analyzeCode
             (str "def process(items=[]):" ++ [LF] ++ str "    items.append(1)") python)
  = Some [(str "mutable-default-0", 1, Critical, (0, 22), str "def process(items=None):")].
Proof. vm_compute. reflexivity. Qed.

Example scenario_try_in_go :
  summary (analyzeCode
             (str "try {" ++ [LF] ++ str "  doSomething()" ++ [LF] ++ str "}") go)
  = Some [(str "try-catch-go-0", 1, Critical, (0, 5),
           str "// Use: if err != nil { return err }")].
Proof. vm_compute. reflexivity. Qed.

Example scenario_hardcoded_secret :
  summary (analyzeCode
             (str "const API_KEY = " ++ [DQ] ++ str "sk-12345abcdef" ++ [DQ]) javascript)
  = Some [(str "hardcoded-secrets-6", 1, Critical, (6, 32),
           str "API_KEY = process.env.API_KEY")].
Proof. vm_compute. reflexivity. Qed.

Example scenario_eval_in_comment :
  summary (analyzeCode
             (str "// eval(x) is unsafe" ++ [LF] ++ str "eval(userInput);") javascript)
  = Some [(str "eval-usage-21", 2, Critical, (21, 26), str "// REMOVED: eval(")].
Proof. vm_compute. reflexivity. Qed.

(** The [i] flag of a table entry does not reach the scan loop, which
    rebuilds the pattern with the [g] flag alone: a lower-case marker
    is not reported by the rule [todo-comment]. *)
Example scan_is_case_sensitive :
  summary (analyzeCode (str "// todo: later") javascript) = Some []
  /\ summary (analyzeCode (str "// TODO: later") javascript)
     = Some [(str "todo-comment-0", 1, Info, (0, 8), str "")].
Proof. split; vm_compute; reflexivity. Qed.

Example detectLanguage_scenarios :
  detectLanguage (str "def my_func():" ++ [LF] ++ str "    pass") = python
  /\ detectLanguage (str "fn main() -> Result<(), Error> {") = rust
  /\ detectLanguage (str "const x: number = 1") = typescript
  /\ detectLanguage (str "let y = 2") = javascript.
Proof. repeat split; vm_compute; reflexivity. Qed.

(* ================================================================== *)
(** * The theorems at concrete inputs                                  *)
(* ================================================================== *)

Lemma analyzeCode_cap_keeps_top_ranked_witness :
  exists cands ranked r,
    collectIssues library
      (concat (repeat (str "var a = 1;" ++ [LF]) 21) ++ str "fetch(u)")
      javascript = Some cands
    /\ analyzeCode
         (concat (repeat (str "var a = 1;" ++ [LF]) 21) ++ str "fetch(u)")
         javascript = Some r
    /\ length cands = 22
    /\ length r = 20
    /\ r = firstn 20 ranked
    /\ (forall a b, In a r -> In b (skipn 20 ranked) -> ranksNoLower a b)
    /\ nth_error cands 21 = Some (missingAwaitIssue (str "fetch(u)") 21)
    /\ nth_error r 0 = Some (missingAwaitIssue (str "fetch(u)") 21).
Proof.
  destruct (analyzeCode_cap_keeps_top_ranked
              (concat (repeat (str "var a = 1;" ++ [LF]) 21) ++ str "fetch(u)")
              javascript)
    as (cands & ranked & r & E & Er & _ & _ & _ & _ & Ef & Hfull & Hcut).
  assert (Lc : option_map (@length Issue)
                 (collectIssues library
                    (concat (repeat (str "var a = 1;" ++ [LF]) 21) ++ str "fetch(u)")
                    javascript) = Some 22)
    by (vm_compute; reflexivity).
  assert (Nc : option_map (fun l => nth_error l 21)
                 (collectIssues library
                    (concat (repeat (str "var a = 1;" ++ [LF]) 21) ++ str "fetch(u)")
                    javascript)
               = Some (Some (missingAwaitIssue (str "fetch(u)") 21)))
    by (vm_compute; reflexivity).
  assert (Nr : option_map (fun l => nth_error l 0)
                 (analyzeCode
                    (concat (repeat (str "var a = 1;" ++ [LF]) 21) ++ str "fetch(u)")
                    javascript)
               = Some (Some (missingAwaitIssue (str "fetch(u)") 21)))
    by (vm_compute; reflexivity).
  rewrite E in Lc, Nc. rewrite Er in Nr.
  injection Lc as Lc. injection Nc as Nc. injection Nr as Nr.
  exists cands, ranked, r.
  split; [exact E|]. split; [exact Er|]. split; [exact Lc|].
  split; [apply Hfull; rewrite Lc; lia|].
  split; [exact Ef|]. split; [exact Hcut|]. split; [exact Nc | exact Nr].
Defined.

Lemma analyzeCode_result_is_ranked_and_stable_witness :
  exists cands r,
    collectIssues library (str "x / 0; a.isEmpty();") javascript = Some cands
    /\ analyzeCode (str "x / 0; a.isEmpty();") javascript = Some r
    /\ (forall n a b,
          nth_error r n = Some a -> nth_error r (S n) = Some b ->
          (severityWeight (Issue.severity a) > severityWeight (Issue.severity b))%Z
          \/ (severityWeight (Issue.severity a) = severityWeight (Issue.severity b)
              /\ Issue.line a <= Issue.line b))
    /\ (severityWeight Critical = 3 /\ severityWeight Warning = 2
        /\ severityWeight Info = 1)%Z
    /\ (forall sev ln,
          isPrefixOf (filter (sameClass sev ln) r) (filter (sameClass sev ln) cands)).
Proof.
  apply (analyzeCode_result_is_ranked_and_stable (str "x / 0; a.isEmpty();") javascript).
Defined.

Lemma detectLanguage_total_with_javascript_default_witness :
  detectLanguage (str "x + y") = javascript.
Proof.
  apply (proj1 (proj2 (proj2 (detectLanguage_total_with_javascript_default (str "x + y"))))).
  intros fp H. simpl in H.
  repeat (destruct H as [<-|H]; [vm_compute; reflexivity|]).
  contradiction.
Defined.

(* ================================================================== *)
(** * Line numbers                                                     *)
(* ================================================================== *)

Lemma length_split s c : length (split s c) = S (countChar s c).
Proof.
  unfold countChar. induction s as [|d s IH]; [reflexivity|].
  simpl split. simpl filter. rewrite (N.eqb_sym c d).
  destruct (N.eqb d c); simpl length.
  - rewrite IH. reflexivity.
  - destruct (split s c) as [|piece rest]; simpl in *; lia.
Qed.

Lemma countChar_app s t c : countChar (s ++ t) c = countChar s c + countChar t c.
Proof. unfold countChar. rewrite filter_app, length_app. reflexivity. Qed.

Lemma countChar_firstn_le n s c : countChar (firstn n s) c <= countChar s c.
Proof.
  rewrite <- (firstn_skipn n s) at 2. rewrite countChar_app. lia.
Qed.

Lemma getLineFromIndex_eq code index :
  getLineFromIndex code index = S (countChar (firstn index code) LF).
Proof. unfold getLineFromIndex. rewrite substring_from_0. apply length_split. Qed.

(** X1.  The line of an offset is one more than the number of newlines
    before it.  It grows with the offset, starts at 1, and never
    exceeds the number of lines of the text, also for an offset past
    the end. *)
Theorem getLineFromIndex_counts_newlines :
  forall code index,
    getLineFromIndex code index = S (countChar (firstn index code) LF)
    /\ 1 <= getLineFromIndex code index <= length (split code LF)
    /\ (forall index', index <= index' ->
                       getLineFromIndex code index <= getLineFromIndex code index').
Proof.
  intros code index.
  split; [apply getLineFromIndex_eq|]. split.
  - rewrite getLineFromIndex_eq, length_split.
    pose proof (countChar_firstn_le index code LF). lia.
  - intros index' H. rewrite !getLineFromIndex_eq.
    replace (firstn index code) with (firstn index (firstn index' code)).
    + pose proof (countChar_firstn_le index (firstn index' code) LF). lia.
    + rewrite firstn_firstn. f_equal. lia.
Qed.

(* ================================================================== *)
(** * Where the Issues of a scan come from                             *)
(* ================================================================== *)

Lemma searchFrom_matchAt s ic ml r n i i' e :
  searchFrom s ic ml r n i = Some (i', e) -> matchAt s ic ml r i' = Some e.
Proof.
  revert i. induction n as [|n IH]; intros i; simpl;
    destruct (matchAt s ic ml r i) eqn:E; try discriminate.
  - intros H. injection H as <- <-. exact E.
  - intros H. injection H as <- <-. exact E.
  - apply IH.
Qed.

Lemma exec_global_match re code i m re' :
  global re = true -> lastIndex re <= length code ->
  exec re code = (Some (i, m), re') ->
  exists e, re' = setLastIndex re e /\ lastIndex re <= i
            /\ matchAt code (ignoreCase re) (multiline re) (source re) i = Some e
            /\ i + minLen (source re) <= e /\ e <= length code
            /\ m = substring code i e.
Proof.
  intros G L. unfold exec. rewrite G.
  destruct (Nat.ltb (length code) (lastIndex re)) eqn:B.
  - apply Nat.ltb_lt in B. lia.
  - destruct (searchFrom _ _ _ _ _ _) as [[i0 e]|] eqn:S; [|discriminate].
    intros H. injection H as <- <- <-.
    pose proof (searchFrom_matchAt _ _ _ _ _ _ S) as M.
    apply searchFrom_bounds in S. exists e. repeat split; auto; lia.
Qed.

Section ScanMatched.
Variable code : jsstring.
Variable language : option Language.
Variable pattern : Pattern.
Variable P : nat -> list Issue -> Prop.
Hypothesis P_rises : risesWith P.
Hypothesis P_push : pushKeepsMatched code language P pattern.

Lemma matchLoop_invariant_matched :
  forall fuel re issues,
    global re = true -> ignoreCase re = false -> multiline re = false ->
    source re = source (Pattern.regex pattern) ->
    lastIndex re <= length code ->
    P (lastIndex re) issues ->
    holdsAfter (fun l => exists li, P li l)
               (matchLoop fuel code pattern language re issues).
Proof.
  induction fuel as [|fuel IH]; intros re issues G IC ML SRC L H; simpl; [exact I|].
  destruct (exec re code) as [[[i m]|] re'] eqn:E; [|exists (lastIndex re); exact H].
  destruct (exec_global_match _ _ G L E) as (e & -> & Hi & Hm & He & Hb & ->).
  rewrite IC, ML, SRC in Hm. rewrite SRC in He.
  assert (Hnext : forall l, P e l ->
             holdsAfter (fun l => exists li, P li l)
               (matchLoop fuel code pattern language (setLastIndex re e) l)).
  { intros l Hl. apply IH; auto. }
  assert (Hskip : P e issues).
  { apply P_rises with (li := lastIndex re); [lia | exact H]. }
  destruct (suppressed code i language) eqn:S; [apply Hnext; exact Hskip|].
  destruct (alreadyReported issues pattern i) eqn:A; [apply Hnext; exact Hskip|].
  destruct (Pattern.correction pattern (substring code i e)) as [r|] eqn:C.
  - apply Hnext. apply (P_push (li := lastIndex re)); assumption.
  - exists (lastIndex re). exact H.
Qed.

Lemma scanPattern_invariant_matched issues :
  P 0 issues ->
  holdsAfter (fun l => exists li, P li l) (scanPattern code pattern language issues).
Proof.
  intros H. unfold scanPattern. apply matchLoop_invariant_matched; auto.
  simpl. lia.
Qed.
End ScanMatched.

Lemma applyPatterns_invariant_matched code language (Q : list Issue -> Prop) patterns :
  (forall p, In p patterns -> pushKeepsMatched code language (fun _ => Q) p) ->
  forall issues r, Q issues ->
    applyPatterns code patterns issues language = Some r -> Q r.
Proof.
  induction patterns as [|p ps IH]; intros K issues r H E; simpl in E.
  - injection E as <-. exact H.
  - assert (Hp : holdsAfter (fun l => exists li : nat, Q l)
                   (scanPattern code p language issues)).
    { apply scanPattern_invariant_matched with (P := fun _ => Q); auto.
      - intros li li' l _ X. exact X.
      - apply K. left. reflexivity. }
    destruct (scanPattern code p language issues); simpl in Hp; try discriminate;
      destruct Hp as [_ Hp];
      (eapply IH; [intros; apply K; right; assumption | exact Hp | exact E]).
Qed.

Lemma collectIssues_invariant_matched T code language (Q : list Issue -> Prop) :
  Q [] ->
  (forall p, In p (applicable T language) ->
             pushKeepsMatched code (Some language) (fun _ => Q) p) ->
  (forall l, Q l ->
             Q ((l ++ checkMissingAwait code language)
                ++ checkMissingReturn code language)) ->
  forall r, collectIssues T code language = Some r -> Q r.
Proof.
  intros H0 K S r. unfold collectIssues. intros E.
  assert (inv : forall ps issues r', incl ps (applicable T language) -> Q issues ->
               applyPatterns code ps issues (Some language) = Some r' -> Q r').
  { intros ps issues r' I. apply applyPatterns_invariant_matched.
    intros; apply K; auto. }
  assert (I1 : incl (Tables.SECURITY T) (applicable T language))
    by (unfold applicable; intros ? ?; repeat rewrite in_app_iff; tauto).
  assert (I2 : incl (Tables.RUNTIME T) (applicable T language))
    by (unfold applicable; intros ? ?; repeat rewrite in_app_iff; tauto).
  assert (I3 : incl (languageTable T language) (applicable T language))
    by (unfold applicable; intros ? ?; repeat rewrite in_app_iff; tauto).
  assert (I4 : incl (Tables.QUALITY T) (applicable T language))
    by (unfold applicable; intros ? ?; repeat rewrite in_app_iff; tauto).
  apply andThen_some in E. destruct E as (i1 & E1 & E).
  apply andThen_some in E. destruct E as (i2 & E2 & E).
  apply andThen_some in E. destruct E as (i3 & E3 & E).
  apply (inv _ _ _ I1 H0) in E1.
  apply (inv _ _ _ I2 E1) in E2.
  assert (Q i3).
  { destruct language; try (eapply (inv _ _ _ I3); eassumption);
      apply andThen_some in E3; destruct E3 as (j & Ej & E3);
      injection E3 as <-; apply S; eapply (inv _ _ _ I3); eassumption. }
  eapply (inv _ _ _ I4); eassumption.
Qed.

Lemma in_result_in_candidates (l : list Issue) n a :
  In a (firstn n (sort compareIssues l)) -> In a l.
Proof.
  intros H. apply (Permutation_in a (sort_perm compareIssues l)).
  rewrite <- (firstn_skipn n (sort compareIssues l)).
  apply in_or_app. left. exact H.
Qed.

Lemma collected_built T code language r :
  collectIssues T code language = Some r ->
  Forall (fun a => In a (checkMissingAwait code language)
                   \/ In a (checkMissingReturn code language)
                   \/ exists p, In p (applicable T language)
                                /\ builtFrom code language p a) r.
Proof.
  apply collectIssues_invariant_matched.
  - constructor.
  - intros p Hp li issues index e replacement H _ Sp _ M B1 B2 C.
    apply Forall_app. split; [exact H|]. constructor; [|constructor].
    right. right. exists p. split; [exact Hp|].
    exists index, e, replacement. repeat split; auto.
  - intros l H. rewrite <- app_assoc. apply Forall_app. split; [exact H|].
    apply Forall_app. split; apply Forall_forall; intros a Ha; tauto.
Qed.

(** X2.  A scan fabricates nothing.  Every Issue it returns is an Issue
    of one of the two supplementary checks or was built for a rule the
    scan applies under that language, at an offset where the pattern
    of the rule matches, which the context filter lets pass, with the
    fields copied from the rule and the replacement computed by the
    correction of the rule from the matched text. *)
Theorem analyzeCode_issues_come_from_matches :
  forall code language,
  exists r,
    analyzeCode code language = Some r
    /\ Forall (fun a => In a (checkMissingAwait code language)
                        \/ In a (checkMissingReturn code language)
                        \/ exists p, In p (applicable library language)
                                     /\ builtFrom code language p a) r.
Proof.
  intros code language.
  destruct (@collectIssues_total library code language library_progressive)
    as [cands E].
  exists (firstn MAX_ISSUES (sort compareIssues cands)).
  split; [apply analyzeCodeIn_collect; exact E|].
  pose proof (collected_built _ _ _ E) as F.
  rewrite Forall_forall in F |- *.
  intros a Ha. apply F. eapply in_result_in_candidates. exact Ha.
Qed.

(* ================================================================== *)
(** * The structure of the supplementary checks                        *)
(* ================================================================== *)

Lemma StronglySorted_snoc (A : Type) (R : A -> A -> Prop) l x :
  StronglySorted R l -> Forall (fun y => R y x) l -> StronglySorted R (l ++ [x]).
Proof.
  induction 1 as [|y l Hs IH Hy]; intros F; simpl.
  - repeat constructor.
  - inversion F as [|? ? Hyx F']; subst. constructor; [apply IH; exact F'|].
    apply Forall_app. split; [exact Hy | constructor; [exact Hyx | constructor]].
Qed.

Lemma returnScan_push lines a st n l :
  returnScanInv lines a st ->
  n <= a -> nth_error lines n = Some l -> test getterHeader l = true ->
  Forall (fun x => Issue.line x <= n) (found st) ->
  forall expected bc,
    returnScanInv lines (S a)
      (mkReturnScan false expected n bc (found st ++ [missingReturnIssue n])).
Proof.
  intros (F & S & _) Hn Hl Ht Hle expected bc.
  split; [|split].
  - simpl. apply Forall_app. split.
    + eapply Forall_impl; [|exact F]. intros x (m & l' & -> & Hm & X1 & X2).
      exists m, l'. split; [reflexivity|]. split; [lia|]. split; assumption.
    + constructor; [|constructor]. exists n, l.
      split; [reflexivity|]. split; [lia|]. split; assumption.
  - simpl. rewrite map_app. apply StronglySorted_snoc; [exact S|].
    apply Forall_map. eapply Forall_impl; [|exact Hle].
    intros x Hx. cbv beta in Hx. simpl. lia.
  - simpl. discriminate.
Qed.

Lemma returnScan_keep lines a st inside expected fs bc :
  returnScanInv lines a st ->
  (inside = true ->
   fs <= a /\ (exists l, nth_error lines fs = Some l /\ test getterHeader l = true)
   /\ Forall (fun x => Issue.line x <= fs) (found st)) ->
  returnScanInv lines (S a) (mkReturnScan inside expected fs bc (found st)).
Proof.
  intros (F & S & _) H. split; [|split]; simpl.
  - eapply Forall_impl; [|exact F]. intros x (m & l' & -> & Hm & X1 & X2).
    exists m, l'. split; [reflexivity|]. split; [lia|]. split; assumption.
  - exact S.
  - intros E. destruct (H E) as (H1 & H2 & H3). repeat split; auto. lia.
Qed.

Lemma returnStep_inv lines a st line :
  returnScanInv lines a st -> nth_error lines a = Some line ->
  returnScanInv lines (S a) (returnStep st (line, a)).
Proof.
  intros Inv Hl. pose proof Inv as (F & S & I).
  assert (Below : Forall (fun x => Issue.line x <= a) (found st)).
  { eapply Forall_impl; [|exact F]. intros x (m & l' & -> & Hm & _). simpl. lia. }
  unfold returnStep.
  destruct (test getterHeader line) eqn:T;
    cbn [insideFunc found funcStart braceCount expectedReturn].
  - (* a header on this line *)
    destruct (_ && _).
    + destruct (includes line (str "return ")); cbn iota.
      * apply returnScan_keep; [exact Inv | discriminate].
      * apply (returnScan_push Inv (le_n a) Hl T Below).
    + apply returnScan_keep; [exact Inv|]. intros _. repeat split; eauto.
  - destruct (insideFunc st) eqn:In.
    + destruct (I eq_refl) as (Hfs & (l & Hh & Ht) & Hle).
      destruct (_ && _).
      * destruct (if includes line (str "return ") then false else expectedReturn st).
        -- apply (returnScan_push Inv (n := funcStart st) ltac:(lia) Hh Ht Hle).
        -- apply returnScan_keep; [exact Inv | discriminate].
      * apply returnScan_keep; [exact Inv|]. intros _.
        repeat split; eauto. lia.
    + destruct st as [i e fs bc f]. simpl in *. subst i.
      apply returnScan_keep with (st := mkReturnScan false e fs bc f);
        [exact Inv | discriminate].
Qed.

Lemma returnFold_inv lines :
  forall todo a st,
    (forall k l, nth_error todo k = Some l -> nth_error lines (a + k) = Some l) ->
    returnScanInv lines a st ->
    returnScanInv lines (a + length todo)
                  (fold_left returnStep (combine todo (seq a (length todo))) st).
Proof.
  induction todo as [|line todo IH]; intros a st H Inv; simpl.
  - rewrite Nat.add_0_r. exact Inv.
  - replace (a + S (length todo)) with (S a + length todo) by lia.
    apply IH.
    + intros k l Hk. replace (S a + k) with (a + S k) by lia. apply H. exact Hk.
    + apply returnStep_inv; [exact Inv|].
      specialize (H 0 line eq_refl). rewrite Nat.add_0_r in H. exact H.
Qed.

Lemma in_checkMissingReturn code language x :
  In x (checkMissingReturn code language) ->
  exists n l, x = missingReturnIssue n /\ nth_error (split code LF) n = Some l
              /\ test getterHeader l = true.
Proof.
  unfold checkMissingReturn.
  destruct (negb (isJsOrTs language)); [contradiction|].
  unfold indexedLines. intros H.
  destruct (@returnFold_inv (split code LF) (split code LF) 0
              (mkReturnScan false false 0 0 [])) as (F & _).
  - intros k l Hk. exact Hk.
  - split; [constructor | split; [constructor | discriminate]].
  - rewrite Forall_forall in F. destruct (F x H) as (n & l & -> & _ & Hn & Ht).
    eauto.
Qed.

(** X3.  Every Issue of the missing-return check names a line of the
    text that matches the function-header pattern, and the Issues come
    in strictly ascending line order, so no line is reported twice. *)
Theorem checkMissingReturn_reports_header_lines :
  forall code language,
    Forall (fun x => exists n l,
                x = missingReturnIssue n
                /\ nth_error (split code LF) n = Some l
                /\ test getterHeader l = true)
           (checkMissingReturn code language)
    /\ StronglySorted lt (map Issue.line (checkMissingReturn code language)).
Proof.
  intros code language. unfold checkMissingReturn.
  destruct (negb (isJsOrTs language)); [split; constructor|].
  unfold indexedLines.
  destruct (@returnFold_inv (split code LF) (split code LF) 0
              (mkReturnScan false false 0 0 [])) as (F & S & _).
  - intros k l H. exact H.
  - split; [constructor | split; [constructor | discriminate]].
  - split; [|exact S].
    eapply Forall_impl; [|exact F]. intros x (n & l & -> & _ & Hn & Ht). eauto.
Qed.

Lemma flat_map_lines_sorted (f : jsstring -> bool) :
  forall (ls : list jsstring) a,
    StronglySorted lt
      (map Issue.line
           (flat_map (fun entry : jsstring * nat =>
                        let (line, idx) := entry in
                        if f line then [missingAwaitIssue line idx] else [])
                     (combine ls (seq a (length ls)))))
    /\ Forall (fun x => a < Issue.line x)
         (flat_map (fun entry : jsstring * nat =>
                      let (line, idx) := entry in
                      if f line then [missingAwaitIssue line idx] else [])
                   (combine ls (seq a (length ls)))).
Proof.
  induction ls as [|l ls IH]; intros a; simpl; [split; constructor|].
  destruct (IH (S a)) as [Hs F].
  assert (F' : Forall (fun x => a < Issue.line x)
                 (flat_map (fun entry : jsstring * nat =>
                      let (line, idx) := entry in
                      if f line then [missingAwaitIssue line idx] else [])
                   (combine ls (seq (S a) (length ls))))).
  { eapply Forall_impl; [|exact F]. intros x Hx. simpl in Hx. lia. }
  destruct (f l); simpl.
  - split; constructor; auto.
    + apply Forall_map. eapply Forall_impl; [|exact F].
      intros x Hx. cbv beta in Hx. simpl in *. lia.
    + simpl. lia.
  - split; assumption.
Qed.

(** X4.  The missing-await check reports its Issues in strictly
    ascending line order, at most one for a line, each for a line of
    the text that contains [fetch(]. *)
Theorem checkMissingAwait_reports_each_line_once :
  forall code language,
    StronglySorted lt (map Issue.line (checkMissingAwait code language))
    /\ Forall (fun x => exists line idx,
                   nth_error (split code LF) idx = Some line
                   /\ includes line (str "fetch(") = true
                   /\ x = missingAwaitIssue line idx)
              (checkMissingAwait code language).
Proof.
  intros code language. split.
  - unfold checkMissingAwait. destruct (negb (isJsOrTs language)); [constructor|].
    apply (flat_map_lines_sorted fetchWithoutAwait (split code LF) 0).
  - apply Forall_forall. intros x Hx. apply in_checkMissingAwait in Hx.
    destruct Hx as (_ & line & idx & Hn & Hf & ->). exists line, idx.
    repeat split; auto. unfold fetchWithoutAwait in Hf.
    repeat (apply andb_true_iff in Hf; destruct Hf as [Hf _]). exact Hf.
Qed.

(* ================================================================== *)
(** * Spans, line numbers and the fix of an Issue                      *)
(* ================================================================== *)

Lemma substring_within (s : jsstring) i e :
  i <= e -> e <= length s ->
  length (substring s i e) = e - i
  /\ firstn i s ++ substring s i e ++ skipn e s = s.
Proof.
  intros H1 H2. unfold substring. rewrite Nat.min_l, Nat.max_r by lia. split.
  - rewrite length_firstn, length_skipn. lia.
  - rewrite <- (firstn_skipn i s) at 4.
    f_equal. rewrite <- (firstn_skipn (e - i) (skipn i s)) at 2. f_equal.
    rewrite skipn_skipn. f_equal. lia.
Qed.

Lemma substringFrom_skipn s a : substringFrom s a = skipn a s.
Proof.
  unfold substringFrom, substring.
  destruct (Nat.le_gt_cases a (length s)) as [H|H].
  - rewrite Nat.min_l, Nat.max_r by lia.
    apply firstn_all2. rewrite length_skipn. lia.
  - rewrite Nat.min_r, Nat.max_l by lia.
    rewrite (skipn_all2 s) by lia.
    rewrite skipn_all2 by lia. apply firstn_nil.
Qed.

Lemma builtFrom_span code language p a :
  builtFrom code language p a ->
  exists index e,
    Issue.startIndex a = index /\ Issue.endIndex a = e
    /\ index + minLen (source (Pattern.regex p)) <= e /\ e <= length code
    /\ Issue.line a = getLineFromIndex code index
    /\ Pattern.correction p (substring code index e) = Normal (Issue.replacement a).
Proof.
  intros (index & e & replacement & _ & H1 & H2 & _ & C & ->).
  exists index, e. simpl.
  destruct (@substring_within code index e ltac:(lia) H2) as [L _].
  repeat split; auto. lia.
Qed.

Lemma applicable_in_all T language p :
  In p (applicable T language) -> In p (Tables.all T).
Proof.
  unfold applicable, Tables.all, languageTable.
  repeat rewrite in_app_iff. destruct language; tauto.
Qed.

(** X5.  Every Issue of a result has a span inside the text: either the
    empty span at offset 0 of a supplementary check, or a non-empty
    span that ends at or before the end of the text; and its line lies
    between 1 and the number of lines the editor shows. *)
Theorem analyzeCode_spans_and_lines_lie_in_the_text :
  forall code language,
  exists r,
    analyzeCode code language = Some r
    /\ Forall (fun a =>
                 ((Issue.startIndex a = 0 /\ Issue.endIndex a = 0)
                  \/ Issue.startIndex a < Issue.endIndex a)
                 /\ Issue.endIndex a <= length code
                 /\ 1 <= Issue.line a <= lineCount code) r.
Proof.
  intros code language.
  destruct (@collectIssues_total library code language library_progressive)
    as [cands E].
  exists (firstn MAX_ISSUES (sort compareIssues cands)).
  split; [apply analyzeCodeIn_collect; exact E|].
  pose proof (collected_built _ _ _ E) as F.
  rewrite Forall_forall in F |- *. intros a Ha.
  apply in_result_in_candidates in Ha.
  assert (Idx : forall n (l : jsstring),
             nth_error (split code LF) n = Some l -> n + 1 <= lineCount code).
  { intros n l Hn. unfold lineCount.
    assert (n < length (split code LF)) by (apply nth_error_Some; congruence).
    lia. }
  destruct (F a Ha) as [H|[H|(p & Hp & H)]].
  - apply in_checkMissingAwait in H. destruct H as (_ & line & idx & Hn & _ & ->).
    apply Idx in Hn. simpl.
    split; [left; split; reflexivity|]. split; lia.
  - apply in_checkMissingReturn in H. destruct H as (n & l & -> & Hn & _).
    apply Idx in Hn. simpl.
    split; [left; split; reflexivity|]. split; lia.
  - destruct (builtFrom_span H) as (index & e & -> & -> & H1 & H2 & -> & _).
    assert (P : progressive p = true).
    { eapply progressiveTables_all; [exact library_progressive|].
      eapply applicable_in_all. exact Hp. }
    apply Nat.leb_le in P.
    split; [right; lia|]. split; [exact H2|].
    rewrite getLineFromIndex_eq. unfold lineCount. rewrite length_split.
    pose proof (countChar_firstn_le index code LF). lia.
Qed.

(** X6.  Applying the fix of an Issue built from a match replaces the
    matched text by the replacement and leaves the rest of the text as
    it is; when the correction of the rule returns its argument, as
    [(match) => match] does, the text comes back unchanged. *)
Theorem applyFix_replaces_the_matched_span :
  forall code language p a,
    builtFrom code language p a ->
    applyFix code a
    = firstn (Issue.startIndex a) code ++ Issue.replacement a
      ++ skipn (Issue.endIndex a) code
    /\ length (applyFix code a) + (Issue.endIndex a - Issue.startIndex a)
       = length code + length (Issue.replacement a)
    /\ ((forall m, Pattern.correction p m = Normal m) -> applyFix code a = code).
Proof.
  intros code language p a B.
  destruct (builtFrom_span B) as (index & e & Hs & He & H1 & H2 & _ & C).
  assert (E : applyFix code a
              = firstn (Issue.startIndex a) code ++ Issue.replacement a
                ++ skipn (Issue.endIndex a) code).
  { unfold applyFix. rewrite substring_from_0, substringFrom_skipn. reflexivity. }
  split; [exact E|]. rewrite E, Hs, He. split.
  - rewrite !length_app, length_firstn, length_skipn. lia.
  - intros Id. rewrite Id in C. injection C as <-.
    apply substring_within; lia.
Qed.

Lemma applyFix_replaces_the_matched_span_witness :
  applyFix (str "while(true) {}")
           (newIssue (str "while(true) {}")
                     (nth 0 RUNTIME_PATTERNS brokenRule) 0
                     (str "while(true)") (str "while(true)"))
  = str "while(true) {}".
Proof.
  apply (proj2 (proj2
          (@applyFix_replaces_the_matched_span
             (str "while(true) {}") javascript (nth 0 RUNTIME_PATTERNS brokenRule)
             (newIssue (str "while(true) {}") (nth 0 RUNTIME_PATTERNS brokenRule)
                       0 (str "while(true)") (str "while(true)"))
             ltac:(exists 0, 11, (str "while(true)"); repeat split;
                   vm_compute; try reflexivity; lia)))).
  intros m. reflexivity.
Defined.

(** X7.  The Issues of the supplementary checks carry the span 0 to 0,
    so applying the fix of a missing-await Issue puts the corrected
    line in front of the whole text, which keeps the offending line,
    and applying the fix of a missing-return Issue changes nothing. *)
Theorem applyFix_of_supplementary_issues :
  forall code language,
    Forall (fun a => applyFix code a = Issue.replacement a ++ code
                     /\ length code < length (applyFix code a))
           (checkMissingAwait code language)
    /\ Forall (fun a => applyFix code a = code) (checkMissingReturn code language).
Proof.
  intros code language.
  assert (Z : forall a, Issue.startIndex a = 0 -> Issue.endIndex a = 0 ->
                        applyFix code a = Issue.replacement a ++ code).
  { intros a Hs He. unfold applyFix.
    rewrite Hs, He, substring_from_0, substringFrom_skipn. reflexivity. }
  split.
  - apply Forall_forall. intros a Ha. apply in_checkMissingAwait in Ha.
    destruct Ha as (_ & line & idx & _ & Hf & ->).
    rewrite Z by reflexivity. split; [reflexivity|].
    rewrite length_app.
    assert (N : Issue.replacement (missingAwaitIssue line idx) <> []).
    { simpl. apply replace_found_nonempty; [|discriminate].
      unfold fetchWithoutAwait in Hf.
      repeat (apply andb_true_iff in Hf; destruct Hf as [Hf _]). exact Hf. }
    destruct (Issue.replacement (missingAwaitIssue line idx));
      [contradiction | simpl; lia].
  - apply checkMissingReturn_all. intros n. rewrite Z by reflexivity. reflexivity.
Qed.

(* ================================================================== *)
(** * The results panel                                                *)
(* ================================================================== *)

Lemma rankLe_compareIssues a b : rankLe a b -> (compareIssues a b <= 0)%Z.
Proof.
  unfold rankLe, compareIssues. intros H.
  destruct (Z.eqb _ 0) eqn:E; simpl.
  - apply Z.eqb_eq in E. lia.
  - lia.
Qed.

Lemma sort_of_sorted (A : Type) (cmp : A -> A -> Z) (R : A -> A -> Prop) l :
  (forall x y, R x y -> (cmp x y <= 0)%Z) ->
  StronglySorted R l -> sort cmp l = l.
Proof.
  intros H. induction 1 as [|x l Hs IH Hx]; [reflexivity|].
  simpl. rewrite IH. destruct l as [|y l]; [reflexivity|]. simpl.
  inversion Hx as [|? ? Hxy _]; subst.
  apply H in Hxy. destruct (Z.ltb 0 (cmp x y)) eqn:C; [|reflexivity].
  apply Z.ltb_lt in C. lia.
Qed.

Lemma counts_cover (issues : list Issue) :
  criticalCount issues + warningCount issues + infoCount issues = length issues.
Proof.
  unfold criticalCount, warningCount, infoCount.
  induction issues as [|i l IH]; [reflexivity|]. simpl.
  destruct (Issue.severity i); simpl; lia.
Qed.

(** X8.  The results panel sorts the Issues it is given with the order
    of the scan, so on the result of a scan its sort changes nothing;
    and its three badges add up to the number of Issues. *)
Theorem results_panel_keeps_the_order_of_a_scan :
  forall code language,
  exists r,
    analyzeCode code language = Some r
    /\ sortedIssues r = r
    /\ criticalCount r + warningCount r + infoCount r = length r.
Proof.
  intros code language.
  destruct (@collectIssues_total library code language library_progressive)
    as [cands E].
  exists (firstn MAX_ISSUES (sort compareIssues cands)).
  split; [apply analyzeCodeIn_collect; exact E|].
  split; [|apply counts_cover].
  unfold sortedIssues.
  apply sort_of_sorted with (R := rankLe).
  - intros x y H. change (comparePanel x y) with (compareIssues x y).
    apply rankLe_compareIssues. exact H.
  - apply StronglySorted_firstn. apply ranked_sorted.
Qed.

(* ================================================================== *)
(** * What the health score tells                                      *)
(* ================================================================== *)

Lemma finalScore_formula l :
  finalScore l
  = Z.max 0 (100 - (15 * countSeverity Critical l + 5 * countSeverity Warning l
                    + 1 * countSeverity Info l)).
Proof. unfold finalScore, deduct. rewrite deduct_from. f_equal; lia. Qed.

Lemma countSeverity_app sev l l' :
  countSeverity sev (l ++ l') = (countSeverity sev l + countSeverity sev l')%Z.
Proof. unfold countSeverity. rewrite filter_app, length_app. lia. Qed.

Lemma countSeverity_nonneg sev l : (0 <= countSeverity sev l)%Z.
Proof. unfold countSeverity. lia. Qed.

Lemma countSeverity_total l :
  (countSeverity Critical l + countSeverity Warning l + countSeverity Info l
   = Z.of_nat (length l))%Z.
Proof.
  unfold countSeverity. induction l as [|i l IH]; [reflexivity|].
  cbn [filter]. destruct (Issue.severity i); cbn [Severity_eqb length];
    rewrite ?Nat2Z.inj_succ; lia.
Qed.

(** X9.  The health score is 100 exactly when there is no Issue, it is
    never above 100, and more Issues never raise it. *)
Theorem finalScore_is_100_only_without_issues :
  forall foundIssues,
    (finalScore foundIssues = 100%Z <-> foundIssues = [])
    /\ (finalScore foundIssues <= 100)%Z
    /\ (forall more, (finalScore (foundIssues ++ more) <= finalScore foundIssues)%Z).
Proof.
  intros l.
  pose proof (countSeverity_nonneg Critical l).
  pose proof (countSeverity_nonneg Warning l).
  pose proof (countSeverity_nonneg Info l).
  pose proof (countSeverity_total l) as Tot.
  split; [|split].
  - rewrite finalScore_formula. split.
    + intros E. destruct l; [reflexivity|]. simpl length in Tot. lia.
    + intros ->. reflexivity.
  - rewrite finalScore_formula. lia.
  - intros more. rewrite !finalScore_formula, !countSeverity_app.
    pose proof (countSeverity_nonneg Critical more).
    pose proof (countSeverity_nonneg Warning more).
    pose proof (countSeverity_nonneg Info more). lia.
Qed.

(** X10.  The colour of the score follows from the counts: green when
    the Issues deduct at most 10, amber when they deduct more than 10
    and at most 30, red beyond; so a single Critical Issue is enough
    to lose the green. *)
Theorem score_colour_from_the_counts :
  forall foundIssues,
    let d := (15 * countSeverity Critical foundIssues
              + 5 * countSeverity Warning foundIssues
              + 1 * countSeverity Info foundIssues)%Z in
    getScoreColor (finalScore foundIssues)
    = (if Z.leb d 10 then str "var(--color-success)"
       else if Z.leb d 30 then str "var(--color-warning)"
       else str "var(--color-critical)")
    /\ ((1 <= countSeverity Critical foundIssues)%Z ->
        getScoreColor (finalScore foundIssues) <> str "var(--color-success)").
Proof.
  intros l d.
  pose proof (countSeverity_nonneg Critical l).
  pose proof (countSeverity_nonneg Warning l).
  pose proof (countSeverity_nonneg Info l).
  assert (E : getScoreColor (finalScore l)
              = (if Z.leb d 10 then str "var(--color-success)"
                 else if Z.leb d 30 then str "var(--color-warning)"
                 else str "var(--color-critical)")).
  { rewrite finalScore_formula. fold d. unfold getScoreColor.
    destruct (Z.leb d 10) eqn:A; destruct (Z.leb d 30) eqn:B;
      destruct (Z.leb 90 (Z.max 0 (100 - d))) eqn:C;
      destruct (Z.leb 70 (Z.max 0 (100 - d))) eqn:D; try reflexivity;
      rewrite ?Z.leb_le, ?Z.leb_gt in *; lia. }
  split; [exact E|].
  intros Hc. rewrite E.
  destruct (Z.leb d 10) eqn:A; [|destruct (Z.leb d 30); discriminate].
  apply Z.leb_le in A. unfold d in A. lia.
Qed.

(* ================================================================== *)
(** * The context filter looks at one line                             *)
(* ================================================================== *)

Lemma split_not_nil s c : split s c <> [].
Proof.
  destruct s as [|d s]; simpl; [discriminate|].
  destruct (N.eqb d c); [discriminate|].
  destruct (split s c); discriminate.
Qed.

Lemma last_cons_nonempty (A : Type) (x : A) l d : l <> [] -> last (x :: l) d = last l d.
Proof. destruct l; [congruence | reflexivity]. Qed.

(** The last piece of a text after a separator is the last piece of
    what follows the separator. *)
Lemma last_split_after_sep a b c :
  last (split (a ++ c :: b) c) [] = last (split b c) [].
Proof.
  induction a as [|d a IH]; simpl.
  - rewrite N.eqb_refl. apply last_cons_nonempty, split_not_nil.
  - destruct (N.eqb d c).
    + rewrite last_cons_nonempty by apply split_not_nil. exact IH.
    + pose proof (length_split (a ++ c :: b) c) as L.
      rewrite countChar_app in L. unfold countChar in L at 2. simpl in L.
      rewrite N.eqb_refl in L. simpl in L.
      destruct (split (a ++ c :: b) c) as [|piece [|r rest]];
        simpl in L; try lia.
      rewrite <- IH. reflexivity.
Qed.

(** A text without the separator is one piece, and appending such a
    text lengthens the last piece. *)
Lemma last_split_append a m c :
  countChar m c = 0 ->
  last (split (a ++ m) c) [] = last (split a c) [] ++ m.
Proof.
  intros Hm.
  assert (M : split m c = [m]).
  { clear a. induction m as [|d m IH]; [reflexivity|].
    unfold countChar in Hm. simpl in Hm. simpl.
    rewrite (N.eqb_sym d c). destruct (N.eqb c d); [discriminate|].
    rewrite IH by exact Hm. reflexivity. }
  induction a as [|d a IH]; simpl.
  - rewrite M. reflexivity.
  - destruct (N.eqb d c).
    + rewrite !last_cons_nonempty by apply split_not_nil. exact IH.
    + pose proof (length_split (a ++ m) c) as L.
      pose proof (length_split a c) as L'.
      rewrite countChar_app, Hm, Nat.add_0_r in L.
      destruct (split (a ++ m) c) as [|p [|r rest]];
        destruct (split a c) as [|p' [|r' rest']]; simpl in L, L'; try lia.
      * simpl in IH. simpl. rewrite IH. reflexivity.
      * exact IH.
Qed.

Lemma linePrefix_of_next_line pre rest k :
  linePrefix (pre ++ LF :: rest) (length pre + 1 + k) = linePrefix rest k.
Proof.
  unfold linePrefix.
  replace (pre ++ LF :: rest) with ((pre ++ [LF]) ++ rest)
    by (rewrite <- app_assoc; reflexivity).
  replace (length pre + 1 + k) with (length (pre ++ [LF]) + k)
    by (rewrite length_app; reflexivity).
  rewrite firstn_app_2, <- app_assoc. simpl.
  apply last_split_after_sep.
Qed.

Lemma isInsideCommentOrString_by_linePrefix code index code' index' language :
  linePrefix code index = linePrefix code' index' ->
  isInsideCommentOrString code index language
  = isInsideCommentOrString code' index' language.
Proof.
  intros E.
  pose proof (isInsideCommentOrString_spec code index language) as A.
  pose proof (isInsideCommentOrString_spec code' index' language) as B.
  unfold suppressedAt in A, B. rewrite E in A. rewrite <- B in A.
  destruct (isInsideCommentOrString code index language);
    destruct (isInsideCommentOrString code' index' language);
    try reflexivity.
  - symmetry. apply A. reflexivity.
  - apply A. reflexivity.
Qed.

(** X11.  The context filter looks at the line of the offset only, and
    there only at the text before the offset: what follows the offset
    and what stands on earlier lines does not change its answer.  So an
    offset at the start of a line is never suppressed, whatever was
    opened on the lines before. *)
Theorem isInsideCommentOrString_depends_on_the_line_only :
  forall pre rest k language,
    isInsideCommentOrString (pre ++ LF :: rest) (length pre + 1 + k) language
    = isInsideCommentOrString rest k language
    /\ isInsideCommentOrString rest k language
       = isInsideCommentOrString (firstn k rest) k language
    /\ isInsideCommentOrString (pre ++ LF :: rest) (length pre + 1) language
       = false.
Proof.
  intros pre rest k language. split; [|split].
  - apply isInsideCommentOrString_by_linePrefix, linePrefix_of_next_line.
  - apply isInsideCommentOrString_by_linePrefix.
    unfold linePrefix. rewrite firstn_firstn, Nat.min_id. reflexivity.
  - rewrite <- (offset_0_not_suppressed rest language).
    apply isInsideCommentOrString_by_linePrefix.
    rewrite <- (Nat.add_0_r (length pre + 1)). apply linePrefix_of_next_line.
Qed.

Lemma contains_app_l (s t marker : jsstring) :
  contains (s ++ marker ++ t) marker.
Proof. exists s, t. reflexivity. Qed.

Lemma countChar_not_in m c : ~ In c m -> countChar m c = 0.
Proof.
  unfold countChar. induction m as [|d m IH]; intros H; [reflexivity|].
  simpl. destruct (N.eqb c d) eqn:E.
  - apply N.eqb_eq in E. subst. exfalso. apply H. left. reflexivity.
  - apply IH. intros Hin. apply H. right. exact Hin.
Qed.

(** X12.  A comment marker suppresses every later offset of its line:
    after two slashes (a hash sign under [python]), wherever they
    stand, no offset up to the end of the line is reported. *)
Theorem comment_marker_suppresses_the_rest_of_the_line :
  forall pre mid post language,
    ~ In LF mid ->
    (language <> python ->
     isInsideCommentOrString (pre ++ str "//" ++ mid ++ post)
                             (length pre + 2 + length mid) language = true)
    /\ (language = python ->
        isInsideCommentOrString (pre ++ str "#" ++ mid ++ post)
                                (length pre + 1 + length mid) language = true).
Proof.
  intros pre mid post language Hmid.
  assert (P : forall marker,
            ~ In LF marker ->
            contains (linePrefix (pre ++ marker ++ mid ++ post)
                                 (length pre + length marker + length mid))
                     marker).
  { intros marker Hm. unfold linePrefix.
    replace (pre ++ marker ++ mid ++ post)
      with ((pre ++ marker ++ mid) ++ post)
      by (rewrite <- !app_assoc; reflexivity).
    replace (length pre + length marker + length mid)
      with (length (pre ++ marker ++ mid) + 0)
      by (rewrite !length_app; lia).
    rewrite firstn_app_2. simpl firstn. rewrite app_nil_r.
    rewrite last_split_append.
    - apply contains_app_l.
    - rewrite countChar_app, !countChar_not_in by assumption. reflexivity. }
  split; intros HL; apply isInsideCommentOrString_spec; unfold suppressedAt.
  - left. split; [exact HL|].
    apply (P (str "//")). simpl. intros [H|[H|[]]]; discriminate.
  - right. left. split; [exact HL|].
    apply (P (str "#")). simpl. intros [H|[]]; discriminate.
Qed.

Lemma comment_marker_suppresses_the_rest_of_the_line_witness :
  isInsideCommentOrString (str "see http://host/eval(x) here") 22 javascript = true.
Proof.
  apply (@comment_marker_suppresses_the_rest_of_the_line
           (str "see http:") (str "host/eval(x") (str ") here") javascript).
  - simpl. intros H. repeat (destruct H as [H|H]; [discriminate|]). exact H.
  - discriminate.
Defined.

(* ================================================================== *)
(** * The rules of the library never fail                              *)
(* ================================================================== *)

Lemma matchLoop_finishes code pattern language :
  returns pattern ->
  forall fuel re issues,
    global re = true -> 1 <= minLen (source re) ->
    lastIndex re <= length code -> length code - lastIndex re < fuel ->
    exists issues', matchLoop fuel code pattern language re issues = Finished issues'.
Proof.
  intros R. induction fuel as [|fuel IH]; intros re issues G M L F; [lia|].
  simpl. destruct (exec re code) as [[[i m]|] re'] eqn:E; [|eauto].
  destruct (exec_global_some _ _ G L E) as (e & -> & Hi & He & Hb & _).
  assert (Hrec : forall iss, exists issues',
             matchLoop fuel code pattern language (setLastIndex re e) iss
             = Finished issues').
  { intros iss. apply IH; simpl; auto; lia. }
  destruct (suppressed code i language); [apply Hrec|].
  destruct (alreadyReported issues pattern i); [apply Hrec|].
  destruct (R m) as [r ->]. apply Hrec.
Qed.

Ltac all_return :=
  repeat (apply Forall_cons; [intros m; eexists; reflexivity|]); apply Forall_nil.

Lemma library_corrections_return : Forall returns (Tables.all library).
Proof.
  unfold Tables.all, library. cbn [Tables.SECURITY Tables.RUNTIME Tables.QUALITY
    Tables.JS_TS Tables.PYTHON Tables.JAVA Tables.GO Tables.RUST Tables.CPP].
  repeat (apply Forall_app; split).
  - unfold SECURITY_PATTERNS. all_return.
  - unfold RUNTIME_PATTERNS. all_return.
  - unfold QUALITY_PATTERNS. all_return.
  - unfold JS_TS_PATTERNS. all_return.
  - unfold PYTHON_PATTERNS. all_return.
  - unfold JAVA_PATTERNS. all_return.
  - unfold GO_PATTERNS. all_return.
  - unfold RUST_PATTERNS. all_return.
  - unfold CPP_PATTERNS. all_return.
Qed.

(** X13.  No rule of the library fails: its correction returns on every
    text, and its loop over the matches ends normally on every text and
    every array of Issues, so the [catch] clause of [applyPatterns] is
    never entered. *)
Theorem library_rules_end_normally :
  forall p, In p (Tables.all library) ->
    (forall m, Pattern.correction p m <> Throw)
    /\ forall code language issues,
         exists issues', scanPattern code p language issues = Finished issues'.
Proof.
  intros p Hp.
  pose proof library_corrections_return as R.
  rewrite Forall_forall in R. specialize (R p Hp).
  split.
  - intros m. destruct (R m) as [r ->]. discriminate.
  - intros code language issues. unfold scanPattern.
    apply matchLoop_finishes.
    + exact R.
    + reflexivity.
    + apply Nat.leb_le.
      exact (@progressiveTables_all library p library_progressive Hp).
    + simpl. lia.
    + simpl. lia.
Qed.

Lemma library_rules_end_normally_witness :
  exists issues',
    scanPattern (str "x = eval(y)") (nth 2 SECURITY_PATTERNS brokenRule)
                (Some javascript) [] = Finished issues'.
Proof.
  apply (@library_rules_end_normally (nth 2 SECURITY_PATTERNS brokenRule)).
  apply in_or_app. left. right. right. left. reflexivity.
Defined.

(* ================================================================== *)
(** * Every Issue of a result has an id of its own                     *)
(* ================================================================== *)

(** ** The two stages of the collection *)

Lemma collectIssues_stages T code language r :
  collectIssues T code language = Some r ->
  exists l,
    applyPatterns code
      (Tables.SECURITY T ++ Tables.RUNTIME T ++ languageTable T language)
      [] (Some language) = Some l
    /\ applyPatterns code (Tables.QUALITY T)
         (l ++ checkMissingAwait code language ++ checkMissingReturn code language)
         (Some language) = Some r.
Proof.
  unfold collectIssues. intros E.
  apply andThen_some in E. destruct E as (i1 & E1 & E).
  apply andThen_some in E. destruct E as (i2 & E2 & E).
  apply andThen_some in E. destruct E as (i3 & E3 & E).
  rewrite applyPatterns_app, E1. cbn [andThen].
  rewrite applyPatterns_app, E2. cbn [andThen].
  destruct language; cbn [languageTable];
    try (exists i3; split; [exact E3|];
         unfold checkMissingAwait, checkMissingReturn; cbn [isJsOrTs negb];
         rewrite app_nil_r; exact E);
    apply andThen_some in E3; destruct E3 as (j & Ej & E3);
    injection E3 as <-; exists j; (split; [exact Ej|]);
    rewrite app_assoc; exact E.
Qed.

(** ** Decimal numerals *)

Lemma str_inj s s' : str s = str s' -> s = s'.
Proof.
  unfold str. intros E.
  rewrite <- (string_of_list_ascii_of_string s),
          <- (string_of_list_ascii_of_string s').
  f_equal.
  revert E. generalize (list_ascii_of_string s) (list_ascii_of_string s').
  induction l as [|a l IH]; intros [|b l'] E; try discriminate; [reflexivity|].
  simpl in E. injection E as E1 E2. f_equal; [|apply IH; exact E2].
  rewrite <- (ascii_N_embedding a), <- (ascii_N_embedding b), E1. reflexivity.
Qed.

Lemma to_uint_not_nil n : Nat.to_uint n <> Decimal.Nil.
Proof.
  intros E. pose proof (Unsigned.of_to n) as H. rewrite E in H.
  pose proof (Unsigned.to_of (Nat.to_uint n)) as H'.
  rewrite Unsigned.of_to in H'. rewrite E in H'. discriminate H'.
Qed.

Lemma decimal_inj n m : decimal n = decimal m -> n = m.
Proof.
  unfold decimal. intros E. apply str_inj in E.
  assert (S : Some (Nat.to_uint n) = Some (Nat.to_uint m)).
  { rewrite <- (NilZero.usu _ (to_uint_not_nil n)),
            <- (NilZero.usu _ (to_uint_not_nil m)), E. reflexivity. }
  injection S as S.
  rewrite <- (Unsigned.of_to n), <- (Unsigned.of_to m), S. reflexivity.
Qed.

(** Two ids built from a rule id and a number are equal only when the
    rule ids and the numbers are. *)
Lemma built_id_inj (a b : Issue) pid pid' n n' :
  Issue.id a = pid ++ str "-" ++ decimal n ->
  Issue.id b = pid' ++ str "-" ++ decimal n' ->
  Issue.id a = Issue.id b -> pid = pid' /\ n = n'.
Proof.
  intros Ea Eb E.
  pose proof (@ruleId_built a _ _ Ea) as Ra.
  pose proof (@ruleId_built b _ _ Eb) as Rb.
  assert (R : ruleId a = ruleId b) by (unfold ruleId; rewrite E; reflexivity).
  assert (Hp : pid = pid') by congruence. split; [exact Hp|].
  rewrite Ea, Eb, Hp in E. apply app_inv_head in E. apply app_inv_head in E.
  apply decimal_inj. exact E.
Qed.

Lemma supplementary_by_id a b :
  Issue.id a = Issue.id b -> supplementary a -> supplementary b.
Proof. unfold supplementary, ruleId. intros ->. auto. Qed.

(** ** What a push keeps *)

Lemma push_keeps_distinctIds code language p :
  Pattern.id p <> str "missing-await-fetch" ->
  Pattern.id p <> str "missing-return" ->
  pushKeeps code language
    (fun l => distinctIds l) p
  /\ pushKeeps code language
       (fun l => distinctIds l /\ Forall (fun a => ~ supplementary a) l) p.
Proof.
  intros N1 N2.
  assert (New : forall index m0 replacement,
            let x := newIssue code p index m0 replacement in
            Issue.id x = Pattern.id p ++ str "-" ++ decimal index
            /\ ruleId x = Pattern.id p
            /\ ~ supplementary x /\ tableShape x).
  { intros index m0 replacement x.
    assert (Ex : Issue.id x = Pattern.id p ++ str "-" ++ decimal index)
      by reflexivity.
    pose proof (@ruleId_built x _ _ Ex) as Rx.
    split; [exact Ex|]. split; [exact Rx|]. split.
    - unfold supplementary. rewrite Rx. tauto.
    - unfold tableShape. rewrite Rx. exact Ex. }
  assert (K : pushKeeps code language (fun l => distinctIds l) p).
  { intros issues index m0 replacement [ND Sh] _ A.
    destruct (New index m0 replacement) as (Ex & Rx & Sx & Tx).
    split.
    - rewrite map_app. apply NoDup_app; [exact ND | repeat constructor; auto|].
      intros i Hi [<-|[]]. apply in_map_iff in Hi.
      destruct Hi as (a & Ea & Ha).
      rewrite Forall_forall in Sh. destruct (Sh a Ha) as [Sa|Ta].
      + apply Sx. apply (@supplementary_by_id a); assumption.
      + unfold tableShape in Ta.
        destruct (@built_id_inj a _ _ _ _ _ Ta Ex Ea) as [Hr Hs].
        pose proof (alreadyReported_false _ _ A a Ha Hs) as F.
        rewrite <- Hr, ruleId_prefix in F. discriminate.
    - apply Forall_app. split; [exact Sh|]. constructor; [right; exact Tx|constructor]. }
  split; [exact K|].
  intros issues index m0 replacement [D NS] Hs A. split.
  - apply K; assumption.
  - apply Forall_app. split; [exact NS|].
    constructor; [|constructor]. apply New.
Qed.

(** ** The ids of the supplementary checks *)

Lemma NoDup_map_by (A B C : Type) (f : A -> B) (g : A -> C) l :
  (forall x y, In x l -> In y l -> g x = g y -> f x = f y) ->
  NoDup (map f l) -> NoDup (map g l).
Proof.
  induction l as [|x l IH]; intros H ND; simpl; [constructor|].
  inversion ND as [|? ? Hx Hl]; subst. constructor.
  - intros Hin. apply in_map_iff in Hin. destruct Hin as (y & Ey & Hy).
    apply Hx. apply in_map_iff. exists y. split; [|exact Hy].
    apply H; [right; exact Hy | left; reflexivity | exact Ey].
  - apply IH; [|exact Hl]. intros a b Ha Hb. apply H; right; assumption.
Qed.

Lemma sorted_lines_NoDup (l : list nat) : StronglySorted lt l -> NoDup l.
Proof.
  induction 1 as [|x l _ IH Hx]; constructor; [|exact IH].
  intros Hin. rewrite Forall_forall in Hx. specialize (Hx x Hin). lia.
Qed.

Lemma checkMissingAwait_lines_sorted code language :
  StronglySorted lt (map Issue.line (checkMissingAwait code language)).
Proof.
  unfold checkMissingAwait. destruct (negb (isJsOrTs language)); [constructor|].
  apply (flat_map_lines_sorted fetchWithoutAwait (split code LF) 0).
Qed.

Lemma checkMissingReturn_lines_sorted code language :
  StronglySorted lt (map Issue.line (checkMissingReturn code language)).
Proof.
  unfold checkMissingReturn.
  destruct (negb (isJsOrTs language)); [constructor|].
  unfold indexedLines.
  destruct (@returnFold_inv (split code LF) (split code LF) 0
              (mkReturnScan false false 0 0 [])) as (_ & Hs & _).
  - intros k l H. exact H.
  - split; [constructor | split; [constructor | discriminate]].
  - exact Hs.
Qed.

Lemma supplementary_ids_distinct code language :
  NoDup (map Issue.id
             (checkMissingAwait code language ++ checkMissingReturn code language))
  /\ Forall supplementary
       (checkMissingAwait code language ++ checkMissingReturn code language).
Proof.
  assert (A : forall x, In x (checkMissingAwait code language) ->
                        exists line idx, x = missingAwaitIssue line idx).
  { intros x Hx. apply in_checkMissingAwait in Hx.
    destruct Hx as (_ & line & idx & _ & _ & ->). eauto. }
  assert (R : forall x, In x (checkMissingReturn code language) ->
                        exists n, x = missingReturnIssue n).
  { intros x Hx. apply in_checkMissingReturn in Hx.
    destruct Hx as (n & _ & -> & _). eauto. }
  split.
  - rewrite map_app. apply NoDup_app.
    + apply NoDup_map_by with (f := Issue.line);
        [|apply sorted_lines_NoDup, checkMissingAwait_lines_sorted].
      intros x y Hx Hy E.
      destruct (A x Hx) as (l1 & i1 & ->). destruct (A y Hy) as (l2 & i2 & ->).
      destruct (@built_id_inj (missingAwaitIssue l1 i1) (missingAwaitIssue l2 i2)
                  (str "missing-await-fetch") (str "missing-await-fetch") i1 i2
                  eq_refl eq_refl E) as [_ ->].
      reflexivity.
    + apply NoDup_map_by with (f := Issue.line);
        [|apply sorted_lines_NoDup, checkMissingReturn_lines_sorted].
      intros x y Hx Hy E.
      destruct (R x Hx) as (n1 & ->). destruct (R y Hy) as (n2 & ->).
      destruct (@built_id_inj (missingReturnIssue n1) (missingReturnIssue n2)
                  (str "missing-return") (str "missing-return") n1 n2
                  eq_refl eq_refl E) as [_ ->].
      reflexivity.
    + intros i Hi Hi'. apply in_map_iff in Hi. apply in_map_iff in Hi'.
      destruct Hi as (x & Ex & Hx). destruct Hi' as (y & Ey & Hy).
      destruct (A x Hx) as (l1 & i1 & ->). destruct (R y Hy) as (n2 & ->).
      destruct (@built_id_inj (missingAwaitIssue l1 i1) (missingReturnIssue n2)
                  (str "missing-await-fetch") (str "missing-return") i1 n2
                  eq_refl eq_refl) as [Hd _]; [congruence | discriminate Hd].
  - apply Forall_app. split; apply Forall_forall; intros x Hx.
    + destruct (A x Hx) as (l1 & i1 & ->). apply missingAwaitIssue_supplementary.
    + destruct (R x Hx) as (n & ->). apply missingReturnIssue_supplementary.
Qed.

Lemma NoDup_firstn (A : Type) n (l : list A) : NoDup l -> NoDup (firstn n l).
Proof.
  intros H. rewrite <- (firstn_skipn n l) in H.
  apply NoDup_app_remove_r in H. exact H.
Qed.

Lemma collected_distinctIds code language r :
  collectIssues library code language = Some r -> distinctIds r.
Proof.
  intros E. apply collectIssues_stages in E. destruct E as (l & E1 & E2).
  pose proof library_ids_not_supplementary as NS.
  rewrite Forall_forall in NS.
  assert (K : forall p, In p (Tables.all library) ->
                Pattern.id p <> str "missing-await-fetch"
                /\ Pattern.id p <> str "missing-return").
  { intros p Hp. apply NS. apply in_map. exact Hp. }
  assert (I : incl (Tables.SECURITY library ++ Tables.RUNTIME library
                    ++ languageTable library language) (Tables.all library)).
  { unfold Tables.all. intros p. rewrite !in_app_iff.
    destruct language; cbn [languageTable]; tauto. }
  assert (IQ : incl (Tables.QUALITY library) (Tables.all library)).
  { unfold Tables.all. intros p. rewrite !in_app_iff. tauto. }
  assert (S1 : distinctIds l /\ Forall (fun a => ~ supplementary a) l).
  { revert E1.
    apply (@applyPatterns_invariant code (Some language)
             (fun l => distinctIds l /\ Forall (fun a => ~ supplementary a) l)).
    - intros p Hp. destruct (K p (I p Hp)) as [N1 N2].
      apply push_keeps_distinctIds; assumption.
    - split; [split|]; constructor. }
  destruct S1 as [[ND Sh] NSl].
  destruct (supplementary_ids_distinct code language) as [NDs Ss].
  revert E2.
  apply (@applyPatterns_invariant code (Some language) (fun l => distinctIds l)).
  - intros p Hp. destruct (K p (IQ p Hp)) as [N1 N2].
    apply push_keeps_distinctIds; assumption.
  - split.
    + rewrite map_app. apply NoDup_app; [exact ND | exact NDs|].
      intros i Hi Hi'. apply in_map_iff in Hi. apply in_map_iff in Hi'.
      destruct Hi as (x & Ex & Hx). destruct Hi' as (y & Ey & Hy).
      rewrite Forall_forall in NSl, Ss.
      apply (NSl x Hx). apply (@supplementary_by_id y); [congruence|].
      apply Ss. exact Hy.
    + apply Forall_app. split; [exact Sh|].
      eapply Forall_impl; [|exact Ss]. intros a Ha. left. exact Ha.
Qed.

(** X14.  No two Issues of a result have the same id, the key under
    which the results panel lists an Issue and remembers which one is
    expanded. *)
Theorem analyzeCode_ids_are_distinct :
  forall code language,
  exists r,
    analyzeCode code language = Some r /\ NoDup (map Issue.id r).
Proof.
  intros code language.
  destruct (@collectIssues_total library code language library_progressive)
    as [cands E].
  exists (firstn MAX_ISSUES (sort compareIssues cands)).
  split; [apply analyzeCodeIn_collect; exact E|].
  rewrite <- firstn_map. apply NoDup_firstn.
  apply (Permutation_NoDup (l := map Issue.id cands)).
  - apply Permutation_map. symmetry. apply sort_perm.
  - apply collected_distinctIds in E. apply E.
Qed.

(* ================================================================== *)
(** * The JavaScript conditions of the language detection              *)
(* ================================================================== *)

(** X15.  [detectLanguage] answers [javascript] exactly when none of
    the conditions for the six other languages holds: its three
    JavaScript conditions never change the answer. *)
Theorem detectLanguage_javascript_is_the_absence_of_the_others :
  forall code,
    detectLanguage code = javascript
    <-> (forall fp, In fp fingerprints -> snd fp <> javascript ->
                    fst fp code = false).
Proof.
  intros code. unfold detectLanguage.
  repeat match goal with
  | |- (if ?f code then javascript else _) = javascript <-> _ => fail 1
  | |- (if ?f code then ?l else _) = javascript <-> _ =>
      destruct (f code) eqn:?;
      [ split; [discriminate|];
        intros H; specialize (H (f, l)); cbn [fst snd] in H;
        rewrite H in *; [discriminate | unfold fingerprints; simpl; tauto | discriminate]
      | ]
  end.
  split.
  - intros _ fp Hin Hl. unfold fingerprints in Hin. simpl in Hin.
    repeat (destruct Hin as [<-|Hin];
            [first [assumption | exfalso; apply Hl; reflexivity]|]).
    contradiction.
  - intros _. destruct (jsDeclaration code), (jsFunction code), (jsArrow code);
      reflexivity.
Qed.

(* ================================================================== *)
(** * No occurrence is lost                                            *)
(* ================================================================== *)

Lemma startsWith_app_split x y q :
  startsWith (x ++ y) q = true ->
  startsWith x q = true \/ startsWith q x = true.
Proof.
  revert q. induction x as [|c x IH]; intros q H.
  - right. destruct q; reflexivity.
  - destruct q as [|d q]; [left; reflexivity|].
    simpl in H. apply andb_true_iff in H. destruct H as [E H].
    apply N.eqb_eq in E. subst d. simpl. rewrite N.eqb_refl. simpl.
    apply IH. exact H.
Qed.

Lemma sepb_unseen a b ds :
  sepb a b = true -> startsWith (a ++ str "-" ++ ds) b = false.
Proof.
  unfold sepb. intros H. apply andb_true_iff in H. destruct H as [H1 H2].
  apply negb_true_iff in H1. apply negb_true_iff in H2.
  destruct (startsWith (a ++ str "-" ++ ds) b) eqn:E; [|reflexivity].
  rewrite app_assoc in E. apply startsWith_app_split in E.
  destruct E; congruence.
Qed.

Lemma separated_app l1 l2 :
  separated (l1 ++ l2) = true ->
  separated l1 = true /\ separated l2 = true
  /\ forall a b, In a l1 -> In b l2 -> sepb a b = true.
Proof.
  induction l1 as [|x l1 IH]; simpl; intros H.
  - split; [reflexivity|]. split; [exact H|]. intros a b [].
  - apply andb_true_iff in H. destruct H as [F H].
    destruct (IH H) as (S1 & S2 & X).
    rewrite forallb_app in F. apply andb_true_iff in F. destruct F as [F1 F2].
    rewrite F1, S1. split; [reflexivity|]. split; [exact S2|].
    intros a b [<-|Ha] Hb; [|apply X; assumption].
    rewrite forallb_forall in F2. apply F2. exact Hb.
Qed.

Lemma sepb_neq a b : sepb a b = true -> a <> b.
Proof.
  unfold sepb. intros H ->. rewrite startsWith_app in H. discriminate.
Qed.

Lemma sorted_spans_apart (l : list Issue) :
  StronglySorted (fun a b => Issue.endIndex a <= Issue.startIndex b) l ->
  ForallOrdPairs spansApart l.
Proof.
  induction 1 as [|x l _ IH Hx]; constructor; [|exact IH].
  eapply Forall_impl; [|exact Hx]. intros b Hb _. left. exact Hb.
Qed.

(** ** One rule *)

Lemma matchLoop_reports code pattern language :
  returns pattern ->
  forall fuel re issues,
    global re = true -> 1 <= minLen (source re) ->
    lastIndex re <= length code -> length code - lastIndex re < fuel ->
    (forall a, In a issues ->
               startsWith (Issue.id a) (Pattern.id pattern) = true ->
               Issue.startIndex a < lastIndex re) ->
    exists kept,
      matchLoop fuel code pattern language re issues = Finished (issues ++ kept)
      /\ Forall (fun a => (exists n,
                   Issue.id a = Pattern.id pattern ++ str "-" ++ decimal n)
                   /\ lastIndex re <= Issue.startIndex a) kept
      /\ StronglySorted (fun a b => Issue.endIndex a <= Issue.startIndex b) kept
      /\ forall index m0,
           In (index, m0) (occurrences fuel code re) ->
           suppressed code index language = false ->
           exists replacement,
             Pattern.correction pattern m0 = Normal replacement
             /\ In (newIssue code pattern index m0 replacement) kept.
Proof.
  intros R. induction fuel as [|fuel IH]; intros re issues G M L F Inv; [lia|].
  simpl. destruct (exec re code) as [[[i m]|] re'] eqn:E.
  2:{ exists []. rewrite app_nil_r. split; [reflexivity|].
      split; [constructor|]. split; [constructor|]. intros index m0 []. }
  destruct (exec_global_some _ _ G L E) as (e & -> & Hi & He & Hb & Hm).
  assert (Lm : i + length m = e).
  { subst m. destruct (@substring_within code i e ltac:(lia) Hb) as [Lm _]. lia. }
  specialize (IH (setLastIndex re e)). cbn [setLastIndex global source lastIndex] in IH.
  assert (Old : forall a, In a issues ->
                  startsWith (Issue.id a) (Pattern.id pattern) = true ->
                  Issue.startIndex a < e).
  { intros a Ha Hp. specialize (Inv a Ha Hp). lia. }
  destruct (suppressed code i language) eqn:Sp.
  - destruct (IH issues G M Hb ltac:(lia) Old) as (kept & Ek & Sh & Hs & Occ).
    exists kept. split; [exact Ek|]. split; [|split; [exact Hs|]].
    + eapply Forall_impl; [|exact Sh]. intros a [Ha1 Ha2]. split; [exact Ha1 | lia].
    + intros index m0 [Hh|Hin] Hs'; [|apply Occ; assumption].
      injection Hh as <- <-. congruence.
  - assert (A : alreadyReported issues pattern i = false).
    { destruct (alreadyReported issues pattern i) eqn:A; [|reflexivity].
      unfold alreadyReported in A. apply existsb_exists in A.
      destruct A as (a & Ha & Hc). apply andb_true_iff in Hc.
      destruct Hc as [H1 H2]. apply Nat.eqb_eq in H1.
      specialize (Inv a Ha H2). lia. }
    rewrite A. destruct (R m) as [r Er]. rewrite Er.
    destruct (IH (issues ++ [newIssue code pattern i m r]) G M Hb ltac:(lia))
      as (kept & Ek & Sh & Hs & Occ).
    { intros a Ha Hp. apply in_app_or in Ha. destruct Ha as [Ha|[<-|[]]].
      - apply Old; assumption.
      - simpl. lia. }
    exists (newIssue code pattern i m r :: kept).
    split; [rewrite Ek, <- app_assoc; reflexivity|]. split; [|split].
    + constructor; [split; [exists i; reflexivity | exact Hi]|].
      eapply Forall_impl; [|exact Sh]. intros a [Ha1 Ha2]. split; [exact Ha1 | lia].
    + constructor; [exact Hs|].
      eapply Forall_impl; [|exact Sh]. intros a [_ Ha2]. simpl. lia.
    + intros index m0 [Hh|Hin] Hs'.
      * injection Hh as <- <-. exists r. split; [exact Er | left; reflexivity].
      * destruct (Occ index m0 Hin Hs') as (r' & Er' & Hr').
        exists r'. split; [exact Er' | right; exact Hr'].
Qed.

(** ** A table *)

Lemma applyPatterns_reports code language :
  forall ps issues,
    separated (map Pattern.id ps) = true ->
    (forall p, In p ps -> returns p /\ progressive p = true) ->
    (forall q, In q ps -> unseen q issues) ->
    exists kept,
      applyPatterns code ps issues language = Some (issues ++ kept)
      /\ reportsOf code language ps kept.
Proof.
  induction ps as [|p ps IH]; intros issues Sep Ok Un.
  - exists []. simpl. rewrite app_nil_r. split; [reflexivity|].
    split; [constructor|]. split; [constructor|]. intros p index m0 [].
  - simpl in Sep. apply andb_true_iff in Sep. destruct Sep as [Sp Sep].
    rewrite forallb_forall in Sp.
    destruct (Ok p (or_introl eq_refl)) as [Rp Pp].
    destruct (@matchLoop_reports code p language Rp (S (length code))
                (newRegExp (Pattern.regex p) "g") issues)
      as (k1 & E1 & Sh1 & Hs1 & Occ1).
    + reflexivity.
    + apply Nat.leb_le. exact Pp.
    + simpl. lia.
    + simpl. lia.
    + intros a Ha Hp. rewrite (Un p (or_introl eq_refl) a Ha) in Hp. discriminate.
    + rewrite Forall_forall in Sh1.
      destruct (IH (issues ++ k1) Sep) as (k2 & E2 & Sh2 & Hs2 & Occ2).
      * intros q Hq. apply Ok. right. exact Hq.
      * intros q Hq a Ha. apply in_app_or in Ha. destruct Ha as [Ha|Ha].
        -- apply (Un q (or_intror Hq)). exact Ha.
        -- destruct (Sh1 a Ha) as [[n ->] _].
           apply sepb_unseen. apply Sp. apply in_map. exact Hq.
      * exists (k1 ++ k2). simpl. unfold scanPattern. rewrite E1, E2.
        split; [rewrite app_assoc; reflexivity|]. split; [|split].
        -- apply Forall_app. split.
           ++ apply Forall_forall. intros a Ha. destruct (Sh1 a Ha) as [[n Hn] _].
              exists p, n. split; [left; reflexivity | exact Hn].
           ++ eapply Forall_impl; [|exact Sh2]. intros a (q & n & Hq & Hn).
              exists q, n. split; [right; exact Hq | exact Hn].
        -- apply FOP_app; [apply sorted_spans_apart; exact Hs1 | exact Hs2|].
           intros a b Ha Hb Hr. exfalso.
           destruct (Sh1 a Ha) as [[n Hn] _].
           rewrite Forall_forall in Sh2. destruct (Sh2 b Hb) as (q & n' & Hq & Hn').
           rewrite (@ruleId_built a _ _ Hn), (@ruleId_built b _ _ Hn') in Hr.
           apply (@sepb_neq (Pattern.id p) (Pattern.id q)); [|exact Hr].
           apply Sp. apply in_map. exact Hq.
        -- intros q index m0 [<-|Hq] Hin Hs.
           ++ destruct (Occ1 index m0 Hin Hs) as (r & Er & Hr).
              exists r. split; [exact Er | apply in_or_app; left; exact Hr].
           ++ destruct (Occ2 q index m0 Hq Hin Hs) as (r & Er & Hr).
              exists r. split; [exact Er | apply in_or_app; right; exact Hr].
Qed.

(** ** The library *)

Lemma library_separated language :
  separated (map Pattern.id (Tables.SECURITY library ++ Tables.RUNTIME library
                             ++ languageTable library language)
             ++ [str "missing-await-fetch"; str "missing-return"]
             ++ map Pattern.id (Tables.QUALITY library)) = true.
Proof. destruct language; vm_compute; reflexivity. Qed.

(** The array of a scan, piece by piece: what the tables before the
    supplementary checks add, the Issues of the two checks, and what
    the quality table adds. *)
Lemma collected_decomposed code language :
  exists k1 k2,
    collectIssues library code language
    = Some ((k1 ++ checkMissingAwait code language
                ++ checkMissingReturn code language) ++ k2)
    /\ reportsOf code (Some language)
         (Tables.SECURITY library ++ Tables.RUNTIME library
          ++ languageTable library language) k1
    /\ reportsOf code (Some language) (Tables.QUALITY library) k2
    /\ forall a b,
         In a (k1 ++ checkMissingAwait code language
                  ++ checkMissingReturn code language) ->
         In b k2 -> ruleId a <> ruleId b.
Proof.
  destruct (@collectIssues_total library code language library_progressive)
    as [cands E].
  pose proof E as St. apply collectIssues_stages in St.
  destruct St as (l & E1 & E2).
  set (ps1 := Tables.SECURITY library ++ Tables.RUNTIME library
              ++ languageTable library language) in *.
  assert (I1 : incl ps1 (Tables.all library)).
  { unfold ps1, Tables.all. intros q. rewrite !in_app_iff.
    destruct language; cbn [languageTable]; tauto. }
  assert (IQ : incl (Tables.QUALITY library) (Tables.all library)).
  { unfold Tables.all. intros q. rewrite !in_app_iff. tauto. }
  assert (Ok : forall q, In q (Tables.all library) ->
                         returns q /\ progressive q = true).
  { intros q Hq. split.
    - pose proof library_corrections_return as R.
      rewrite Forall_forall in R. apply R. exact Hq.
    - exact (@progressiveTables_all library q library_progressive Hq). }
  pose proof (library_separated language) as Sep. fold ps1 in Sep.
  apply separated_app in Sep. destruct Sep as (Sep1 & Sep & X1).
  apply separated_app in Sep. destruct Sep as (_ & SepQ & XS).
  destruct (@applyPatterns_reports code (Some language) ps1 [] Sep1)
    as (k1 & E1' & R1).
  { intros q Hq. apply Ok, I1, Hq. }
  { intros q _ a []. }
  change ([] ++ k1) with k1 in E1'. rewrite E1 in E1'. injection E1' as ->.
  assert (Ids : forall a,
            In a (k1 ++ checkMissingAwait code language
                     ++ checkMissingReturn code language) ->
            exists pid n,
              Issue.id a = pid ++ str "-" ++ decimal n
              /\ forall q, In q (Tables.QUALITY library) ->
                           sepb pid (Pattern.id q) = true).
  { intros a Ha.
    apply in_app_or in Ha. destruct Ha as [Ha|Ha]; [|apply in_app_or in Ha;
                                                     destruct Ha as [Ha|Ha]].
    - destruct R1 as (Sh1 & _). rewrite Forall_forall in Sh1.
      destruct (Sh1 a Ha) as (p1 & n & Hp1 & Hn).
      exists (Pattern.id p1), n. split; [exact Hn|]. intros q Hq.
      apply X1; [apply in_map; exact Hp1|].
      apply in_or_app. right. apply in_map. exact Hq.
    - apply in_checkMissingAwait in Ha.
      destruct Ha as (_ & line & idx & _ & _ & ->).
      exists (str "missing-await-fetch"), idx. split; [reflexivity|].
      intros q Hq. apply XS; [left; reflexivity | apply in_map; exact Hq].
    - apply in_checkMissingReturn in Ha. destruct Ha as (n & _ & -> & _).
      exists (str "missing-return"), n. split; [reflexivity|].
      intros q Hq. apply XS; [right; left; reflexivity | apply in_map; exact Hq]. }
  destruct (@applyPatterns_reports code (Some language) (Tables.QUALITY library)
              (k1 ++ checkMissingAwait code language
                  ++ checkMissingReturn code language) SepQ)
    as (k2 & E2' & R2).
  { intros q Hq. apply Ok, IQ, Hq. }
  { intros q Hq a Ha. destruct (Ids a Ha) as (pid & n & -> & Hsep).
    apply sepb_unseen. apply Hsep. exact Hq. }
  rewrite E2 in E2'. injection E2' as ->.
  exists k1, k2. split; [exact E|]. split; [exact R1|]. split; [exact R2|].
  intros a b Ha Hb Hr.
  destruct (Ids a Ha) as (pid & n & Hn & Hsep).
  destruct R2 as (Sh2 & _). rewrite Forall_forall in Sh2.
  destruct (Sh2 b Hb) as (q & n' & Hq & Hn').
  rewrite (@ruleId_built a _ _ Hn), (@ruleId_built b _ _ Hn') in Hr.
  apply (@sepb_neq pid (Pattern.id q)); [apply Hsep; exact Hq | exact Hr].
Qed.

Lemma sort_length (A : Type) (cmp : A -> A -> Z) l : length (sort cmp l) = length l.
Proof. apply Permutation_length, sort_perm. Qed.

(** X16.  No occurrence is lost.  For every rule the scan applies under
    the language, every match the loop of the rule meets at an offset
    the context filter lets pass yields an Issue in the array the scan
    collects: the duplicate check never discards one.  That Issue is in
    the result, unless the result is full and every Issue in it ranks
    at least as high. *)
Theorem analyzeCode_reports_every_open_occurrence :
  forall code language p index m0,
    In p (applicable library language) ->
    In (index, m0)
       (occurrences (S (length code)) code (newRegExp (Pattern.regex p) "g")) ->
    isInsideCommentOrString code index language = false ->
    exists replacement cands r,
      Pattern.correction p m0 = Normal replacement
      /\ collectIssues library code language = Some cands
      /\ In (newIssue code p index m0 replacement) cands
      /\ analyzeCode code language = Some r
      /\ (In (newIssue code p index m0 replacement) r
          \/ (length r = MAX_ISSUES
              /\ MAX_ISSUES < length cands
              /\ forall a, In a r ->
                   ranksNoLower a (newIssue code p index m0 replacement))).
Proof.
  intros code language p index m0 Hp Hocc Hs.
  destruct (collected_decomposed code language)
    as (k1 & k2 & E & (_ & _ & Occ1) & (_ & _ & Occ2) & _).
  assert (Hin : exists replacement,
             Pattern.correction p m0 = Normal replacement
             /\ In (newIssue code p index m0 replacement)
                   ((k1 ++ checkMissingAwait code language
                        ++ checkMissingReturn code language) ++ k2)).
  { unfold applicable in Hp. rewrite !in_app_iff in Hp.
    assert (Hp' : In p (Tables.SECURITY library ++ Tables.RUNTIME library
                        ++ languageTable library language)
                  \/ In p (Tables.QUALITY library))
      by (rewrite !in_app_iff; tauto).
    destruct Hp' as [Hp1|HpQ].
    - destruct (Occ1 p index m0 Hp1 Hocc Hs) as (r & Er & Hr).
      exists r. split; [exact Er|].
      apply in_or_app. left. apply in_or_app. left. exact Hr.
    - destruct (Occ2 p index m0 HpQ Hocc Hs) as (r & Er & Hr).
      exists r. split; [exact Er|]. apply in_or_app. right. exact Hr. }
  destruct Hin as (replacement & Er & Hin).
  set (cands := (k1 ++ checkMissingAwait code language
                    ++ checkMissingReturn code language) ++ k2) in *.
  exists replacement, cands, (firstn MAX_ISSUES (sort compareIssues cands)).
  split; [exact Er|]. split; [exact E|]. split; [exact Hin|].
  split; [apply analyzeCodeIn_collect; exact E|].
  assert (Hs' : In (newIssue code p index m0 replacement) (sort compareIssues cands)).
  { apply (Permutation_in _ (Permutation_sym (sort_perm compareIssues cands))).
    exact Hin. }
  rewrite <- (firstn_skipn MAX_ISSUES (sort compareIssues cands)) in Hs'.
  apply in_app_or in Hs'. destruct Hs' as [Hk|Hd]; [left; exact Hk|].
  right.
  assert (L : MAX_ISSUES < length cands).
  { rewrite <- (sort_length compareIssues cands).
    destruct (Nat.le_gt_cases (length (sort compareIssues cands)) MAX_ISSUES)
      as [Hle|Hgt]; [|exact Hgt].
    rewrite skipn_all2 in Hd by exact Hle. destruct Hd. }
  split; [rewrite length_firstn, sort_length; lia|]. split; [exact L|].
  intros a Ha.
  apply (@StronglySorted_split _ ranksNoLower MAX_ISSUES (sort compareIssues cands)
           (ranked_sorted_spec cands) a _ Ha Hd).
Qed.

Lemma analyzeCode_reports_every_open_occurrence_witness :
  exists replacement cands r,
    Pattern.correction (nth 2 SECURITY_PATTERNS brokenRule) (str "eval(")
    = Normal replacement
    /\ collectIssues library (str "x = eval(y)") javascript = Some cands
    /\ In (newIssue (str "x = eval(y)") (nth 2 SECURITY_PATTERNS brokenRule)
                    4 (str "eval(") replacement) cands
    /\ analyzeCode (str "x = eval(y)") javascript = Some r
    /\ (In (newIssue (str "x = eval(y)") (nth 2 SECURITY_PATTERNS brokenRule)
                     4 (str "eval(") replacement) r
        \/ (length r = MAX_ISSUES
            /\ MAX_ISSUES < length cands
            /\ forall a, In a r ->
                 ranksNoLower a
                   (newIssue (str "x = eval(y)")
                             (nth 2 SECURITY_PATTERNS brokenRule)
                             4 (str "eval(") replacement))).
Proof.
  apply (@analyzeCode_reports_every_open_occurrence
           (str "x = eval(y)") javascript (nth 2 SECURITY_PATTERNS brokenRule)
           4 (str "eval(")).
  - apply in_or_app. left. right. right. left. reflexivity.
  - vm_compute. left. reflexivity.
  - vm_compute. reflexivity.
Defined.

Lemma spansApart_sym a b : spansApart a b -> spansApart b a.
Proof. unfold spansApart. intros H E. symmetry in E. destruct (H E); auto. Qed.

Lemma supplementary_spans_apart code language :
  ForallOrdPairs spansApart
    (checkMissingAwait code language ++ checkMissingReturn code language).
Proof.
  assert (Z0 : forall a,
            In a (checkMissingAwait code language
                  ++ checkMissingReturn code language) ->
            Issue.startIndex a = 0 /\ Issue.endIndex a = 0).
  { intros a Ha. apply in_app_or in Ha. destruct Ha as [Ha|Ha].
    - apply in_checkMissingAwait in Ha.
      destruct Ha as (_ & line & idx & _ & _ & ->). split; reflexivity.
    - apply in_checkMissingReturn in Ha. destruct Ha as (n & _ & -> & _).
      split; reflexivity. }
  revert Z0.
  generalize (checkMissingAwait code language ++ checkMissingReturn code language).
  induction l as [|x l IH]; intros Z0; constructor.
  - apply Forall_forall. intros b Hb _. left.
    destruct (Z0 x (or_introl eq_refl)) as [_ ->]. lia.
  - apply IH. intros a Ha. apply Z0. right. exact Ha.
Qed.

(** X17.  Two Issues of one rule in a result never overlap: the span of
    one ends before the span of the other starts. *)
Theorem issues_of_one_rule_do_not_overlap :
  forall code language,
  exists r,
    analyzeCode code language = Some r
    /\ forall i j a b,
         i < j -> nth_error r i = Some a -> nth_error r j = Some b ->
         ruleId a = ruleId b ->
         Issue.endIndex a <= Issue.startIndex b
         \/ Issue.endIndex b <= Issue.startIndex a.
Proof.
  intros code language.
  destruct (collected_decomposed code language)
    as (k1 & k2 & E & (Sh1 & Hs1 & _) & (_ & Hs2 & _) & X).
  set (cands := (k1 ++ checkMissingAwait code language
                    ++ checkMissingReturn code language) ++ k2) in *.
  exists (firstn MAX_ISSUES (sort compareIssues cands)).
  split; [apply analyzeCodeIn_collect; exact E|].
  assert (F : ForallOrdPairs spansApart cands).
  { unfold cands. apply FOP_app; [|exact Hs2|].
    - apply FOP_app; [exact Hs1 | apply supplementary_spans_apart|].
      intros a b Ha Hb Hr. exfalso.
      rewrite Forall_forall in Sh1. destruct (Sh1 a Ha) as (p & n & Hp & Hn).
      rewrite (@ruleId_built a _ _ Hn) in Hr.
      assert (Sb : supplementary b).
      { apply in_app_or in Hb. destruct Hb as [Hb|Hb].
        - apply in_checkMissingAwait in Hb.
          destruct Hb as (_ & line & idx & _ & _ & ->).
          apply missingAwaitIssue_supplementary.
        - apply in_checkMissingReturn in Hb. destruct Hb as (m & _ & -> & _).
          apply missingReturnIssue_supplementary. }
      pose proof library_ids_not_supplementary as NS.
      rewrite Forall_forall in NS.
      assert (Hall : In p (Tables.all library)).
      { unfold Tables.all. rewrite !in_app_iff in Hp. rewrite !in_app_iff.
        destruct language; cbn [languageTable] in Hp; tauto. }
      destruct (NS _ (in_map Pattern.id _ _ Hall)) as [N1 N2].
      destruct Sb as [Sb|Sb]; rewrite <- Hr in Sb; congruence.
    - intros a b Ha Hb Hr. exfalso. exact (X a b Ha Hb Hr). }
  intros i j a b Hij Ha Hb.
  apply (@FOP_nth _ spansApart (firstn MAX_ISSUES (sort compareIssues cands)))
    with (p := i) (q := j); try assumption.
  apply FOP_firstn.
  apply (@FOP_perm _ spansApart spansApart_sym cands).
  - symmetry. apply sort_perm.
  - exact F.
Qed.

(* ================================================================== *)
(** * What the missing-return check finds                              *)
(* ================================================================== *)

Lemma returnStep_extends st entry :
  exists more, found (returnStep st entry) = found st ++ more.
Proof.
  destruct entry as [line i]. unfold returnStep.
  destruct (test getterHeader line); cbn [insideFunc found braceCount
                                          expectedReturn funcStart];
    [|destruct (insideFunc st)];
    try (destruct (_ && _);
         [destruct (if includes line (str "return ") then false else _)|];
         cbn [found]; eauto using app_nil_r);
    exists []; symmetry; apply app_nil_r.
Qed.

Lemma returnFold_extends entries :
  forall st, exists more,
    found (fold_left returnStep entries st) = found st ++ more.
Proof.
  induction entries as [|e es IH]; intros st; simpl.
  - exists []. symmetry. apply app_nil_r.
  - destruct (IH (returnStep st e)) as [m2 E2].
    destruct (returnStep_extends st e) as [m1 E1].
    exists (m1 ++ m2). rewrite E2, E1, app_assoc. reflexivity.
Qed.

Lemma returnStep_one_line st line i :
  test getterHeader line = true ->
  includes line (str "return ") = false ->
  includes line (str "}") = true ->
  countChar line 123 <= countChar line 125 ->
  In (missingReturnIssue i) (found (returnStep st (line, i))).
Proof.
  intros Hh Hr Hc Hb.
  unfold returnStep. rewrite Hh.
  cbn [insideFunc found braceCount expectedReturn funcStart].
  rewrite Hr, Hc.
  replace (Z.leb (0 + Z.of_nat (countChar line 123)
                  - Z.of_nat (countChar line 125)) 0) with true
    by (symmetry; apply Z.leb_le; lia).
  cbn [andb found]. apply in_or_app. right. left. reflexivity.
Qed.

Lemma returnFold_one_line line i :
  test getterHeader line = true ->
  includes line (str "return ") = false ->
  includes line (str "}") = true ->
  countChar line 123 <= countChar line 125 ->
  forall todo a st,
    a <= i -> nth_error todo (i - a) = Some line ->
    In (missingReturnIssue i)
       (found (fold_left returnStep (combine todo (seq a (length todo))) st)).
Proof.
  intros Hh Hr Hc Hb. induction todo as [|x todo IH]; intros a st Ha Hn.
  - destruct (i - a); discriminate.
  - cbn [combine seq length fold_left]. destruct (i - a) as [|k] eqn:E.
    + simpl in Hn. injection Hn as ->. assert (a = i) by lia. subst a.
      destruct (returnFold_extends (combine todo (seq (S i) (length todo)))
                  (returnStep st (line, i))) as [more ->].
      apply in_or_app. left. apply returnStep_one_line; assumption.
    + simpl in Hn. apply IH; [lia|].
      replace (i - S a) with k by lia. exact Hn.
Qed.

Lemma returnStep_no_brace st line i :
  includes line (str "}") = false ->
  found (returnStep st (line, i)) = found st.
Proof.
  intros H. unfold returnStep. rewrite H, andb_false_r.
  destruct (test getterHeader line); [reflexivity|].
  destruct (insideFunc st); reflexivity.
Qed.

Lemma returnFold_no_brace :
  forall todo a st,
    (forall line, In line todo -> includes line (str "}") = false) ->
    found (fold_left returnStep (combine todo (seq a (length todo))) st)
    = found st.
Proof.
  induction todo as [|x todo IH]; intros a st H;
    cbn [combine seq length fold_left]; [reflexivity|].
  rewrite IH by (intros line Hl; apply H; right; exact Hl).
  apply returnStep_no_brace. apply H. left. reflexivity.
Qed.

(** X18.  Under [javascript] and [typescript] the missing-return check
    reports every line that matches the function-header pattern, closes
    at least as many braces as it opens and does not contain [return ].
    It reports nothing for a text in which no line contains a closing
    brace. *)
Theorem checkMissingReturn_reports_one_line_getters :
  forall code language,
    isJsOrTs language = true ->
    (forall i line,
        nth_error (split code LF) i = Some line ->
        test getterHeader line = true ->
        includes line (str "return ") = false ->
        includes line (str "}") = true ->
        countChar line 123 <= countChar line 125 ->
        In (missingReturnIssue i) (checkMissingReturn code language))
    /\ ((forall line, In line (split code LF) ->
                      includes line (str "}") = false) ->
        checkMissingReturn code language = []).
Proof.
  intros code language L. unfold checkMissingReturn, indexedLines.
  rewrite L. cbn [negb]. split.
  - intros i line Hn Hh Hr Hc Hb.
    apply (@returnFold_one_line line i Hh Hr Hc Hb); [lia|].
    rewrite Nat.sub_0_r. exact Hn.
  - intros H. rewrite returnFold_no_brace by exact H. reflexivity.
Qed.

Lemma checkMissingReturn_reports_one_line_getters_witness :
  In (missingReturnIssue 1)
     (checkMissingReturn (LF :: str "function getTotal() { sum(); }") javascript).
Proof.
  apply (proj1 (@checkMissingReturn_reports_one_line_getters
                  (LF :: str "function getTotal() { sum(); }") javascript eq_refl)
               1 (str "function getTotal() { sum(); }")).
  - vm_compute. reflexivity.
  - vm_compute. reflexivity.
  - vm_compute. reflexivity.
  - vm_compute. reflexivity.
  - vm_compute. lia.
Defined.

(* ================================================================== *)
(** * What the language changes                                        *)
(* ================================================================== *)

Lemma isInsideCommentOrString_slash code index l l' :
  l <> python -> l' <> python ->
  isInsideCommentOrString code index l = isInsideCommentOrString code index l'.
Proof.
  intros H H'. destruct l, l'; try reflexivity; congruence.
Qed.

Lemma matchLoop_same_filter code pattern l l' :
  (forall index, suppressed code index l = suppressed code index l') ->
  forall fuel re issues,
    matchLoop fuel code pattern l re issues
    = matchLoop fuel code pattern l' re issues.
Proof.
  intros H. induction fuel as [|fuel IH]; intros re issues; [reflexivity|].
  simpl. destruct (exec re code) as [[[i m]|] re']; [|reflexivity].
  rewrite H. destruct (suppressed code i l'); [apply IH|].
  destruct (alreadyReported issues pattern i); [apply IH|].
  destruct (Pattern.correction pattern m); [apply IH | reflexivity].
Qed.

Lemma applyPatterns_same_filter code l l' :
  (forall index, suppressed code index l = suppressed code index l') ->
  forall ps issues,
    applyPatterns code ps issues l = applyPatterns code ps issues l'.
Proof.
  intros H. induction ps as [|p ps IH]; intros issues; [reflexivity|].
  simpl. unfold scanPattern. rewrite (@matchLoop_same_filter code p l l' H).
  destruct (matchLoop _ _ _ _ _ _); auto.
Qed.

(** X19.  Of the language, the rule loop uses only whether it is
    [python]: for two languages that are not, a table gives the same
    array.  And a scan under [typescript] is the scan under
    [javascript]: the two languages share their table, their comment
    marker and the two supplementary checks. *)
Theorem analyzeCode_treats_typescript_as_javascript :
  (forall code ps issues l l',
      l <> python -> l' <> python ->
      applyPatterns code ps issues (Some l) = applyPatterns code ps issues (Some l'))
  /\ forall code, analyzeCode code typescript = analyzeCode code javascript.
Proof.
  assert (A : forall code ps issues l l',
             l <> python -> l' <> python ->
             applyPatterns code ps issues (Some l)
             = applyPatterns code ps issues (Some l')).
  { intros code ps issues l l' H H'. apply applyPatterns_same_filter.
    intros index. apply isInsideCommentOrString_slash; assumption. }
  split; [exact A|].
  intros code. unfold analyzeCode, analyzeCodeIn. f_equal.
  assert (T : forall ps issues,
             applyPatterns code ps issues (Some typescript)
             = applyPatterns code ps issues (Some javascript)).
  { intros ps issues. apply A; discriminate. }
  unfold collectIssues. rewrite T.
  destruct (applyPatterns code (Tables.SECURITY library) [] (Some javascript))
    as [i1|]; cbn [andThen]; [|reflexivity].
  rewrite T.
  destruct (applyPatterns code (Tables.RUNTIME library) i1 (Some javascript))
    as [i2|]; cbn [andThen]; [|reflexivity].
  rewrite T.
  destruct (applyPatterns code (Tables.JS_TS library) i2 (Some javascript))
    as [i3|]; cbn [andThen]; [|reflexivity].
  change (checkMissingAwait code typescript) with (checkMissingAwait code javascript).
  change (checkMissingReturn code typescript) with (checkMissingReturn code javascript).
  apply T.
Qed.

(* ================================================================== *)
(** * Scans of the other languages                                     *)
(* ================================================================== *)

(** X20.  Outside [javascript] and [typescript] a scan reports matches
    of rules only: no Issue of a supplementary check, and every Issue
    with a span that is not empty. *)
Theorem only_javascript_scans_have_supplementary_issues :
  forall code language,
    isJsOrTs language = false ->
    exists r,
      analyzeCode code language = Some r
      /\ Forall (fun a => ~ supplementary a
                          /\ Issue.startIndex a < Issue.endIndex a) r.
Proof.
  intros code language L.
  destruct (@collectIssues_total library code language library_progressive)
    as [cands E].
  exists (firstn MAX_ISSUES (sort compareIssues cands)).
  split; [apply analyzeCodeIn_collect; exact E|].
  apply Forall_forall. intros a Ha. apply in_result_in_candidates in Ha.
  pose proof (collected_built _ _ _ E) as B. rewrite Forall_forall in B.
  destruct (B a Ha) as [Hw|[Hr|(p & Hp & Hb)]].
  - apply in_checkMissingAwait in Hw. destruct Hw as [Hw _]. congruence.
  - unfold checkMissingReturn in Hr. rewrite L in Hr. destruct Hr.
  - pose proof (applicable_in_all _ _ _ Hp) as Hall.
    pose proof (@progressiveTables_all library p library_progressive Hall) as Pp.
    apply Nat.leb_le in Pp.
    destruct (builtFrom_span Hb) as (index & e & Hs & He & Hm & _).
    split; [|lia].
    destruct Hb as (i' & e' & r' & _ & _ & _ & _ & _ & ->).
    pose proof library_ids_not_supplementary as NS.
    rewrite Forall_forall in NS.
    destruct (NS _ (in_map Pattern.id _ _ Hall)) as [N1 N2].
    unfold supplementary.
    rewrite (@ruleId_built (newIssue code p i' (substring code i' e') r')
               (Pattern.id p) i' eq_refl).
    tauto.
Qed.

Lemma only_javascript_scans_have_supplementary_issues_witness :
  exists r,
    analyzeCode (str "def f(x=[]):") python = Some r
    /\ Forall (fun a => ~ supplementary a
                        /\ Issue.startIndex a < Issue.endIndex a) r.
Proof.
  apply (@only_javascript_scans_have_supplementary_issues
           (str "def f(x=[]):") python).
  reflexivity.
Defined.

(* ================================================================== *)
(** * The Issues of the two supplementary checks                       *)
(* ================================================================== *)

(** ** The first occurrence of a text in a line *)

Lemma indexOf_first p :
  forall s k,
    indexOf s p = Some k ->
    k <= length s
    /\ startsWith (skipn k s) p = true
    /\ forall j, j < k -> startsWith (skipn j s) p = false.
Proof.
  induction s as [|d s IH]; intros k.
  - rewrite indexOf_nil. destruct (startsWith [] p) eqn:E; [|discriminate].
    intros H. injection H as <-. repeat split; [lia | exact E | intros j Hj; lia].
  - rewrite indexOf_cons. destruct (startsWith (d :: s) p) eqn:E.
    + intros H. injection H as <-.
      repeat split; [simpl; lia | exact E | intros j Hj; lia].
    + destruct (indexOf s p) as [k'|]; [|discriminate].
      intros H. injection H as <-.
      destruct (IH k' eq_refl) as (L & S1 & F). repeat split.
      * simpl. lia.
      * exact S1.
      * intros [|j] Hj; [exact E|]. simpl. apply F. lia.
Qed.

(** [replace] rewrites the first occurrence: the text before it holds
    no earlier occurrence. *)
Lemma replace_first s p r :
  includes s p = true ->
  exists before after,
    s = before ++ p ++ after
    /\ (forall before' after',
          s = before' ++ p ++ after' -> length before <= length before')
    /\ replace s p r = before ++ r ++ after.
Proof.
  intros H. apply includes_indexOf in H. destruct H as [k Hk].
  destruct (indexOf_first _ _ Hk) as (L & S1 & F).
  apply startsWith_true in S1. destruct S1 as [rest S1].
  assert (Es : s = firstn k s ++ p ++ rest).
  { rewrite <- S1. symmetry. apply firstn_skipn. }
  assert (Er : skipn (k + length p) s = rest).
  { rewrite Nat.add_comm, <- skipn_skipn, S1.
    rewrite skipn_app, skipn_all, Nat.sub_diag. reflexivity. }
  exists (firstn k s), rest. split; [exact Es|]. split.
  - intros before' after' E'. rewrite length_firstn, Nat.min_l by exact L.
    destruct (Nat.le_gt_cases k (length before')) as [Hle|Hgt]; [exact Hle|].
    specialize (F (length before') Hgt).
    rewrite E' in F at 1.
    rewrite skipn_app, skipn_all, Nat.sub_diag in F. simpl in F.
    rewrite startsWith_app in F. discriminate.
  - unfold replace. rewrite Hk, Er. reflexivity.
Qed.

(** C2, as the source has it.  Both supplementary checks emit Issues
    with [startIndex] 0 and [endIndex] 0.  The replacement of a
    missing-return Issue is empty.  The replacement of a missing-await
    Issue is never empty: it is the line the Issue names, a line of the
    text that contains [fetch(], with the first [fetch(] of that line
    turned into [await fetch(]. *)
Theorem supplementary_issues_have_zero_span :
  forall code language,
    Forall (fun i => Issue.startIndex i = 0 /\ Issue.endIndex i = 0
                     /\ Issue.replacement i = str "")
           (checkMissingReturn code language)
    /\ Forall (fun i => Issue.startIndex i = 0 /\ Issue.endIndex i = 0
                        /\ Issue.replacement i <> str ""
                        /\ exists line idx before after,
                            nth_error (split code LF) idx = Some line
                            /\ Issue.line i = idx + 1
                            /\ line = before ++ str "fetch(" ++ after
                            /\ (forall before' after',
                                  line = before' ++ str "fetch(" ++ after' ->
                                  length before <= length before')
                            /\ Issue.replacement i
                               = before ++ str "await fetch(" ++ after)
              (checkMissingAwait code language).
Proof.
  intros code language. split.
  - apply checkMissingReturn_all. intros n. simpl. auto.
  - apply Forall_forall. intros i Hi.
    apply in_checkMissingAwait in Hi.
    destruct Hi as (_ & line & idx & Hn & Hf & ->).
    assert (Hinc : includes line (str "fetch(") = true).
    { unfold fetchWithoutAwait in Hf.
      repeat (apply andb_true_iff in Hf; destruct Hf as [Hf _]). exact Hf. }
    split; [reflexivity|]. split; [reflexivity|]. split.
    + apply replace_found_nonempty; [exact Hinc | discriminate].
    + destruct (@replace_first line (str "fetch(") (str "await fetch(") Hinc)
        as (before & after & E1 & E2 & E3).
      exists line, idx, before, after.
      split; [exact Hn|]. split; [reflexivity|]. split; [exact E1|].
      split; [exact E2 | exact E3].
Qed.

(** C2 as stated fails on the missing-await check: on the one-line
    text [fetch(u)] it emits an Issue whose replacement is
    [await fetch(u)]. *)
Lemma missing_await_replacement_is_not_empty :
  exists i,
    In i (checkMissingAwait (str "fetch(u)") javascript)
    /\ Issue.startIndex i = 0 /\ Issue.endIndex i = 0
    /\ Issue.replacement i = str "await fetch(u)"
    /\ Issue.replacement i <> str "".
Proof.
  exists (missingAwaitIssue (str "fetch(u)") 0).
  split; [left; reflexivity|]. repeat split. discriminate.
Qed.

(* ================================================================== *)
(** * Issues that share rule id and offset                             *)
(* ================================================================== *)

Lemma nth_error_distinct_ids (r : list Issue) p q a b :
  NoDup (map Issue.id r) -> p < q ->
  nth_error r p = Some a -> nth_error r q = Some b ->
  Issue.id a <> Issue.id b.
Proof.
  intros ND Hpq Ha Hb E.
  rewrite NoDup_nth_error in ND.
  assert (Hp : p < length (map Issue.id r)).
  { rewrite length_map. apply nth_error_Some. congruence. }
  specialize (ND p q Hp).
  rewrite !nth_error_map, Ha, Hb in ND. simpl in ND.
  rewrite E in ND. specialize (ND eq_refl). lia.
Qed.

(** An Issue of the collected array with a supplementary rule id comes
    from the check of that id. *)
Lemma supplementary_origin code language cands a :
  collectIssues library code language = Some cands ->
  In a cands -> supplementary a ->
  (In a (checkMissingAwait code language)
   /\ ruleId a = str "missing-await-fetch"
   /\ Issue.id a = str "missing-await-fetch" ++ str "-" ++ decimal (Issue.line a - 1)
   /\ 1 <= Issue.line a)
  \/ (In a (checkMissingReturn code language)
      /\ ruleId a = str "missing-return"
      /\ Issue.id a = str "missing-return" ++ str "-" ++ decimal (Issue.line a - 1)
      /\ 1 <= Issue.line a).
Proof.
  intros E Ha Sa.
  pose proof (@collected_built library code language cands E) as B.
  rewrite Forall_forall in B.
  destruct (B a Ha) as [Hw|[Hr|(p & Hp & Hb)]].
  - left. split; [exact Hw|].
    apply in_checkMissingAwait in Hw.
    destruct Hw as (_ & line & idx & _ & _ & ->).
    split; [apply (@ruleId_built _ _ idx); reflexivity|].
    simpl. rewrite Nat.add_sub. split; [reflexivity | lia].
  - right. split; [exact Hr|].
    apply in_checkMissingReturn in Hr. destruct Hr as (n & _ & -> & _).
    split; [apply (@ruleId_built _ _ n); reflexivity|].
    simpl. rewrite Nat.add_sub. split; [reflexivity | lia].
  - exfalso.
    pose proof (@applicable_in_all library language p Hp) as Hall.
    destruct Hb as (i' & e' & r' & _ & _ & _ & _ & _ & ->).
    pose proof library_ids_not_supplementary as NS.
    rewrite Forall_forall in NS.
    destruct (NS _ (in_map Pattern.id _ _ Hall)) as [N1 N2].
    unfold supplementary in Sa.
    rewrite (@ruleId_built (newIssue code p i' (substring code i' e') r')
               (Pattern.id p) i' eq_refl) in Sa.
    tauto.
Qed.

(** C1, as the source has it.  Two Issues at different positions of a
    result share rule id and [startIndex] only when both were emitted
    by the same supplementary check, the missing-await detector or the
    missing-return detector; then both carry [startIndex] 0, and they
    differ in line number and in id. *)
Theorem analyzeCode_no_duplicate_table_findings :
  forall code language,
  exists r,
    analyzeCode code language = Some r
    /\ forall p q a b,
        p < q -> nth_error r p = Some a -> nth_error r q = Some b ->
        ruleId a = ruleId b -> Issue.startIndex a = Issue.startIndex b ->
        ((In a (checkMissingAwait code language)
          /\ In b (checkMissingAwait code language))
         \/ (In a (checkMissingReturn code language)
             /\ In b (checkMissingReturn code language)))
        /\ supplementary a /\ supplementary b
        /\ Issue.startIndex a = 0 /\ Issue.startIndex b = 0
        /\ Issue.line a <> Issue.line b
        /\ Issue.id a <> Issue.id b.
Proof.
  intros code language.
  destruct (@collectIssues_total library code language library_progressive)
    as [cands E].
  exists (firstn MAX_ISSUES (sort compareIssues cands)).
  split; [apply analyzeCodeIn_collect; exact E|].
  intros p q a b Hpq Ha Hb E1 E2.
  assert (F : ForallOrdPairs apart (firstn MAX_ISSUES (sort compareIssues cands))).
  { apply FOP_firstn. apply FOP_perm with (l := cands).
    - exact apart_sym.
    - symmetry. apply sort_perm.
    - eapply collected_apart. exact E. }
  assert (Sa : supplementary a).
  { apply (FOP_nth F Hpq Ha Hb). split; assumption. }
  assert (Sb : supplementary b).
  { unfold supplementary in *. rewrite <- E1. exact Sa. }
  assert (Ia : In a cands).
  { apply (@in_result_in_candidates cands MAX_ISSUES).
    eapply nth_error_In. exact Ha. }
  assert (Ib : In b cands).
  { apply (@in_result_in_candidates cands MAX_ISSUES).
    eapply nth_error_In. exact Hb. }
  assert (Z0 : Issue.startIndex a = 0).
  { pose proof (collected_supplementary_at_zero _ _ E) as Z.
    rewrite Forall_forall in Z. apply Z; assumption. }
  assert (Nid : Issue.id a <> Issue.id b).
  { apply (@nth_error_distinct_ids (firstn MAX_ISSUES (sort compareIssues cands))
             p q a b); try assumption.
    rewrite <- firstn_map. apply NoDup_firstn.
    apply (Permutation_NoDup (l := map Issue.id cands)).
    - apply Permutation_map. symmetry. apply sort_perm.
    - apply collected_distinctIds in E. apply E. }
  assert (O : (In a (checkMissingAwait code language)
               /\ In b (checkMissingAwait code language)
               /\ (Issue.line a = Issue.line b -> Issue.id a = Issue.id b))
              \/ (In a (checkMissingReturn code language)
                  /\ In b (checkMissingReturn code language)
                  /\ (Issue.line a = Issue.line b -> Issue.id a = Issue.id b))).
  { destruct (supplementary_origin _ _ E Ia Sa) as [(Ha1 & Ra & Ida & La)|(Ha1 & Ra & Ida & La)];
      destruct (supplementary_origin _ _ E Ib Sb) as [(Hb1 & Rb & Idb & Lb)|(Hb1 & Rb & Idb & Lb)];
      try (rewrite Ra, Rb in E1; discriminate E1).
    - left. split; [exact Ha1|]. split; [exact Hb1|].
      intros El. rewrite Ida, Idb, El. reflexivity.
    - right. split; [exact Ha1|]. split; [exact Hb1|].
      intros El. rewrite Ida, Idb, El. reflexivity. }
  split; [destruct O as [(X & Y & _)|(X & Y & _)]; [left | right]; split; assumption|].
  split; [exact Sa|]. split; [exact Sb|].
  split; [exact Z0|]. split; [rewrite <- E2; exact Z0|].
  split; [|exact Nid].
  intros El. apply Nid. destruct O as [(_ & _ & X)|(_ & _ & X)]; apply X; exact El.
Qed.

(** C1 as stated fails: on two lines that each call [fetch(] without
    [await], the result holds two Issues of the rule
    [missing-await-fetch], both with [startIndex] 0. *)
Lemma two_missing_await_issues_share_rule_and_offset :
  exists r a b,
    analyzeCode (str "fetch(a)" ++ [LF] ++ str "fetch(b)") javascript = Some r
    /\ nth_error r 0 = Some a /\ nth_error r 1 = Some b
    /\ ruleId a = ruleId b
    /\ Issue.startIndex a = Issue.startIndex b.
Proof.
  exists [missingAwaitIssue (str "fetch(a)") 0; missingAwaitIssue (str "fetch(b)") 1],
         (missingAwaitIssue (str "fetch(a)") 0),
         (missingAwaitIssue (str "fetch(b)") 1).
  split; [vm_compute; reflexivity|].
  repeat split.
Qed.

Lemma analyzeCode_no_duplicate_table_findings_witness :
  ((In (missingAwaitIssue (str "fetch(a)") 0)
       (checkMissingAwait (str "fetch(a)" ++ [LF] ++ str "fetch(b)") javascript)
    /\ In (missingAwaitIssue (str "fetch(b)") 1)
          (checkMissingAwait (str "fetch(a)" ++ [LF] ++ str "fetch(b)") javascript))
   \/ (In (missingAwaitIssue (str "fetch(a)") 0)
          (checkMissingReturn (str "fetch(a)" ++ [LF] ++ str "fetch(b)") javascript)
       /\ In (missingAwaitIssue (str "fetch(b)") 1)
             (checkMissingReturn (str "fetch(a)" ++ [LF] ++ str "fetch(b)") javascript)))
  /\ supplementary (missingAwaitIssue (str "fetch(a)") 0)
  /\ supplementary (missingAwaitIssue (str "fetch(b)") 1)
  /\ Issue.startIndex (missingAwaitIssue (str "fetch(a)") 0) = 0
  /\ Issue.startIndex (missingAwaitIssue (str "fetch(b)") 1) = 0
  /\ Issue.line (missingAwaitIssue (str "fetch(a)") 0)
     <> Issue.line (missingAwaitIssue (str "fetch(b)") 1)
  /\ Issue.id (missingAwaitIssue (str "fetch(a)") 0)
     <> Issue.id (missingAwaitIssue (str "fetch(b)") 1).
Proof.
  destruct (analyzeCode_no_duplicate_table_findings
              (str "fetch(a)" ++ [LF] ++ str "fetch(b)") javascript)
    as (r & Er & H).
  assert (Ec : analyzeCode (str "fetch(a)" ++ [LF] ++ str "fetch(b)") javascript
               = Some [missingAwaitIssue (str "fetch(a)") 0;
                       missingAwaitIssue (str "fetch(b)") 1])
    by (vm_compute; reflexivity).
  rewrite Ec in Er. injection Er as <-.
  apply (H 0 1); [lia | reflexivity | reflexivity | reflexivity | reflexivity].
Defined.
